(** * crawlaio: scope filter, sitemap store, fetch scheduler, chunker,
      enrichment and persistence, embedded from the Python sources.

    Python [str] values are modelled as [string], one [ascii] per code point
    (code points below 256); Python [int] as [Z]; a [float] as an integer
    mantissa with a binary exponent; Python [set] as [gset]; the chunk
    directory as a [gmap] from file names to records. *)

From Stdlib Require Import ZArith Ascii String List Bool Lia DecimalString.
From Stdlib Require DecimalNat DecimalFacts.
From stdpp Require Import gmap strings list sorting.

Local Open Scope Z_scope.

(** ** Python string primitives used by the sources *)

Module PyStr.

Definition len (s : string) : Z := Z.of_nat (String.length s).

(** [s.startswith(p)] *)
Definition startswith (s p : string) : bool := String.prefix p s.

(** [c in chars] for a one-character test set given as a string. *)
Fixpoint mem (c : ascii) (cs : string) : bool :=
  match cs with
  | EmptyString => false
  | String d cs' => Ascii.eqb c d || mem c cs'
  end.

(** [s.lstrip(...)], [s.rstrip(...)], [s.strip(...)] with the stripped
    characters given by a predicate. *)
Fixpoint lstrip (ws : ascii -> bool) (s : string) : string :=
  match s with
  | EmptyString => EmptyString
  | String c s' => if ws c then lstrip ws s' else s
  end.

Fixpoint rstrip (ws : ascii -> bool) (s : string) : string :=
  match s with
  | EmptyString => EmptyString
  | String c s' =>
      match rstrip ws s' with
      | EmptyString => if ws c then EmptyString else String c EmptyString
      | r => String c r
      end
  end.

Definition strip (ws : ascii -> bool) (s : string) : string :=
  rstrip ws (lstrip ws s).

(** [str.isspace] on one code point below 256: TAB..CR, FS..US, SPACE,
    NEL (0x85) and NBSP (0xA0). [s.strip()] strips exactly these. *)
Definition isspace (c : ascii) : bool :=
  let n := nat_of_ascii c in
  ((9 <=? n) && (n <=? 13) || (28 <=? n) && (n <=? 32)
   || (n =? 133) || (n =? 160))%nat.

(** [s.find(sub)] and [s.rfind(sub)]: lowest and highest index of an
    occurrence, [-1] when there is none. The accumulator is the index of
    the head of [s] in the original string. *)
Fixpoint find_from (sub s : string) (i : Z) : Z :=
  if String.prefix sub s then i
  else match s with
       | EmptyString => -1
       | String _ s' => find_from sub s' (i + 1)
       end.

Definition find (s sub : string) : Z := find_from sub s 0.

Fixpoint rfind_from (sub s : string) (i : Z) : Z :=
  match s with
  | EmptyString => if String.prefix sub EmptyString then i else -1
  | String _ s' =>
      let r := rfind_from sub s' (i + 1) in
      if 0 <=? r then r
      else if String.prefix sub s then i else -1
  end.

Definition rfind (s sub : string) : Z := rfind_from sub s 0.

(** [s[lo:hi]] with Python's treatment of negative and out-of-range
    bounds. *)
Definition clamp (n i : Z) : Z :=
  if i <? 0 then Z.max 0 (i + n) else Z.min i n.

Definition slice (s : string) (lo hi : Z) : string :=
  let a := clamp (len s) lo in
  let b := clamp (len s) hi in
  String.substring (Z.to_nat a) (Z.to_nat (b - a)) s.

(** [s[i:]] and [s[:i]] *)
Definition slice_from (s : string) (lo : Z) : string := slice s lo (len s).
Definition slice_to (s : string) (hi : Z) : string := slice s 0 hi.

(** [s.replace(c, "")] for a set of single characters. *)
Fixpoint remove_chars (bad : ascii -> bool) (s : string) : string :=
  match s with
  | EmptyString => EmptyString
  | String c s' =>
      if bad c then remove_chars bad s' else String c (remove_chars bad s')
  end.

Fixpoint map (f : ascii -> ascii) (s : string) : string :=
  match s with
  | EmptyString => EmptyString
  | String c s' => String (f c) (map f s')
  end.

Fixpoint forallb (p : ascii -> bool) (s : string) : bool :=
  match s with
  | EmptyString => true
  | String c s' => p c && forallb p s'
  end.

Definition in_range (lo hi : nat) (c : ascii) : bool :=
  let n := nat_of_ascii c in ((lo <=? n) && (n <=? hi))%nat.

Definition is_upper (c : ascii) : bool := in_range 65 90 c.
Definition is_lower (c : ascii) : bool := in_range 97 122 c.
Definition is_digit (c : ascii) : bool := in_range 48 57 c.
Definition is_ascii_alpha (c : ascii) : bool := is_upper c || is_lower c.

(** The class [[a-zA-Z0-9]] of a [str] pattern. *)
Definition is_alnum (c : ascii) : bool := is_ascii_alpha c || is_digit c.

Definition lower_char (c : ascii) : ascii :=
  if is_upper c then ascii_of_nat (nat_of_ascii c + 32) else c.

Definition lower (s : string) : string := map lower_char s.

(** [c * n]: a character repeated. *)
Fixpoint times (c : ascii) (n : nat) : string :=
  match n with
  | O => EmptyString
  | S n' => String c (times c n')
  end.

(** [f"{n}"] for a non-negative chunk number. *)
Definition of_nat (n : nat) : string :=
  NilZero.string_of_uint (Nat.to_uint n).

End PyStr.

(** ** [urllib.parse.urlparse]

    The six-field split of the standard library, written out after its
    source: leading C0-control/space characters are stripped, TAB, CR and LF
    are removed, a scheme is recognised before the first [:], the network
    location runs from [//] to the first of [/], [?], [#], then fragment,
    query and (for the schemes that use them) parameters are cut off the
    path. The library raises [ValueError] on a bracketed host that is not an
    IP literal; such URLs are outside this model, which keeps the location
    verbatim. *)

Record ParseResult := mkParseResult {
  scheme : string;
  netloc : string;
  path : string;
  params : string;
  query : string;
  fragment : string
}.

Module UrlParse.
Import PyStr.

Definition c0_or_space (c : ascii) : bool := (nat_of_ascii c <=? 32)%nat.
Definition unsafe_byte (c : ascii) : bool := mem c (String "009" (String "010" (String "013" ""))).
Definition scheme_char (c : ascii) : bool := is_alnum c || mem c "+-.".

Definition uses_params : list string :=
  [""; "ftp"; "hdl"; "prospero"; "http"; "imap"; "https"; "shttp"; "rtsp";
   "rtsps"; "rtspu"; "sip"; "sips"; "mms"; "sftp"; "tel"].

(** [url.split(c, 1)] when [c] occurs, as a pair (before, after). *)
Definition split_once (url : string) (c : string) : option (string * string) :=
  let i := find url c in
  if i <? 0 then None else Some (slice_to url i, slice_from url (i + 1)).

Definition split_scheme (url : string) : string * string :=
  let i := find url ":" in
  match url with
  | String c0 _ =>
      if (0 <? i) && is_ascii_alpha c0 && forallb scheme_char (slice_to url i)
      then (lower (slice_to url i), slice_from url (i + 1))
      else ("", url)
  | EmptyString => ("", url)
  end.

(** Index of the first of [/], [?], [#] in [url], or its length. *)
Fixpoint netloc_end (url : string) : Z :=
  match url with
  | EmptyString => 0
  | String c url' => if mem c "/?#" then 0 else 1 + netloc_end url'
  end.

Definition split_netloc (url : string) : string * string :=
  if startswith url "//" then
    let rest := slice_from url 2 in
    let d := netloc_end rest in
    (slice_to rest d, slice_from rest d)
  else ("", url).

Definition split_params (url : string) : string * string :=
  let slash := rfind url "/" in
  let i := if 0 <=? slash
           then (let j := find (slice_from url slash) ";" in
                 if j <? 0 then -1 else slash + j)
           else find url ";" in
  if i <? 0 then (url, "") else (slice_to url i, slice_from url (i + 1)).

Definition urlparse (url0 : string) : ParseResult :=
  let url := remove_chars unsafe_byte (lstrip c0_or_space url0) in
  let '(sch, url) := split_scheme url in
  let '(loc, url) := split_netloc url in
  let '(url, frag) := match split_once url "#" with
                      | Some p => p | None => (url, "") end in
  let '(url, qry) := match split_once url "?" with
                     | Some p => p | None => (url, "") end in
  let '(url, prm) := if bool_decide (sch ∈ uses_params)
                     then split_params url else (url, "") in
  mkParseResult sch loc url prm qry frag.

End UrlParse.

Definition urlparse := UrlParse.urlparse.

(** ** utils.py *)

Definition is_valid_url (url : string) : bool :=
  PyStr.startswith url "http://" || PyStr.startswith url "https://".

Definition get_domain (url : string) : string := netloc (urlparse url).

Definition should_crawl_url (url start_url : string) : bool :=
  let start_parsed := urlparse start_url in
  let url_parsed := urlparse url in
  bool_decide (netloc start_parsed = netloc url_parsed)
  && PyStr.startswith (path url_parsed) (path start_parsed).

(** The scope test as the specification words it (section 4.1): both
    paths are compared after trailing-slash normalisation. Used only to
    compare with [should_crawl_url]. *)
Definition spec_in_scope (url start_url : string) : bool :=
  let is_slash := fun c => Ascii.eqb c "/" in
  bool_decide (netloc (urlparse start_url) = netloc (urlparse url))
  && PyStr.startswith (PyStr.rstrip is_slash (path (urlparse url)))
                      (PyStr.rstrip is_slash (path (urlparse start_url))).

(** ** Python floats, as far as [chunk_size * 0.3] needs them

    A finite double is kept as an integer mantissa and a binary exponent.
    Conversion and product round to 53 significant bits, ties to even, as
    IEEE 754 binary64 does; an [int] is compared with a [float] exactly. *)

Module PyFloat.

Record float := mkFloat { mantissa : Z; exponent : Z }.

(** [m * 2^e] rounded to 53 significant bits: the [k] low bits that do not
    fit are dropped, and the rest goes up by one when the dropped part is
    more than half a unit, or exactly half with an odd rest. *)
Definition round (m e : Z) : float :=
  let a := Z.abs m in
  let k := Z.max 0 (Z.log2 a - 52) in
  let q := a / 2 ^ k in
  let r := a mod 2 ^ k in
  let q' := if (2 ^ k <? 2 * r) || ((2 ^ k =? 2 * r) && Z.odd q)
            then q + 1 else q in
  mkFloat (Z.sgn m * q') (e + k).

(** [float(n)] for an [int]; [None] stands for [OverflowError], raised
    when the rounded value does not fit a double. *)
Definition of_int (n : Z) : option float :=
  let x := round n 0 in
  if 2 ^ 1024 <=? Z.abs (mantissa x) * 2 ^ exponent x then None else Some x.

(** The literal [0.3]: the double nearest to three tenths. *)
Definition c_0_3 : float := mkFloat 5404319552844595 (-54).

(** [x * y] on doubles. Overflow and gradual underflow are left out: they
    do not occur when [x] is a converted [int] and [y] is [0.3]. *)
Definition mul (x y : float) : float :=
  round (mantissa x * mantissa y) (exponent x + exponent y).

(** [n * y] for an [int] and a [float]: the [int] is converted first. *)
Definition int_mul (n : Z) (y : float) : option float :=
  match of_int n with
  | Some x => Some (mul x y)
  | None => None
  end.

(** [i > x] for an [int] and a [float]: the two values are compared as
    they are, without rounding the [int]. *)
Definition int_gt (i : Z) (x : float) : bool :=
  if 0 <=? exponent x
  then mantissa x * 2 ^ exponent x <? i
  else mantissa x <? i * 2 ^ (- exponent x).

End PyFloat.

(** ** DocumentProcessor.py *)

Module DocumentProcessor.

(** Exceptions and outcomes of the calls modelled below. *)
Inductive exn :=
| ConnectError | HTTPStatusError | JSONDecodeError
| AttributeError | TypeError | KeyError (key : string) | OverflowError.

Inductive result (A : Type) :=
| Ok (a : A)
| Raise (e : exn).
Arguments Ok {A} a.
Arguments Raise {A} e.

Definition bind {A B} (r : result A) (k : A -> result B) : result B :=
  match r with Ok a => k a | Raise e => Raise e end.

Definition newline : ascii := "010".
Definition code_fence : string := "```".
Definition paragraph_break : string := String newline (String newline "").
Definition sentence_break : string := ". ".

(** [index > chunk_size * 0.3]: the product is a double, and forming it
    raises [OverflowError] when [chunk_size] does not fit one. *)
Definition past_threshold (index chunk_size : Z) : result bool :=
  match PyFloat.int_mul chunk_size PyFloat.c_0_3 with
  | Some threshold => Ok (PyFloat.int_gt index threshold)
  | None => Raise OverflowError
  end.

(** The value of [end] after the boundary search of one loop iteration. *)
Definition chunk_end (text : string) (chunk_size start : Z) : result Z :=
  let text_length := PyStr.len text in
  let end_ := Z.min (start + chunk_size) text_length in
  let chunk := PyStr.slice text start end_ in
  let last_code_block := PyStr.rfind chunk code_fence in
  let last_paragraph_break := PyStr.rfind chunk paragraph_break in
  let last_sentence_break := PyStr.rfind chunk sentence_break in
  bind (past_threshold last_code_block chunk_size) (fun past =>
  if past then Ok (start + last_code_block) else
  bind (past_threshold last_paragraph_break chunk_size) (fun past =>
  if past then Ok (start + last_paragraph_break) else
  bind (past_threshold last_sentence_break chunk_size) (fun past =>
  if past then Ok (start + last_sentence_break + 1) else
  Ok end_))).

Definition nonempty (s : string) : bool :=
  match s with EmptyString => false | _ => true end.

(** The [while start < text_length] loop. [None] means the fuel ran out
    before the loop condition became false. *)
Fixpoint chunk_loop (fuel : nat) (text : string) (chunk_size start : Z)
         (chunks : list string) : option (result (list string)) :=
  if start <? PyStr.len text then
    match fuel with
    | O => None
    | S fuel' =>
        match chunk_end text chunk_size start with
        | Raise e => Some (Raise e)
        | Ok end_ =>
            let chunk :=
              PyStr.strip PyStr.isspace (PyStr.slice text start end_) in
            let chunks' := if nonempty chunk then chunks ++ [chunk] else chunks in
            chunk_loop fuel' text chunk_size (Z.max (start + 1) end_) chunks'
        end
    end
  else Some (Ok chunks).

Definition chunk_text (text : string) (chunk_size : Z)
  : option (result (list string)) :=
  chunk_loop (String.length text) text chunk_size 0 [].

(** [f] applied to the value of an outcome. *)
Definition result_map {A B} (f : A -> B) (r : result A) : result B :=
  bind r (fun a => Ok (f a)).

(** The same loop, recording the [(start, end)] pair each iteration
    slices with instead of the trimmed chunk. *)
Fixpoint chunk_spans (fuel : nat) (text : string) (chunk_size start : Z)
  : option (result (list (Z * Z))) :=
  if start <? PyStr.len text then
    match fuel with
    | O => None
    | S fuel' =>
        match chunk_end text chunk_size start with
        | Raise e => Some (Raise e)
        | Ok end_ =>
            result_map (cons (start, end_))
              <$> chunk_spans fuel' text chunk_size (Z.max (start + 1) end_)
        end
    end
  else Some (Ok []).

Definition span_text (text : string) (sp : Z * Z) : string :=
  PyStr.slice text (fst sp) (snd sp).

(** What [chunk_text] keeps of a list of raw slices: each one trimmed,
    the empty ones dropped. *)
Definition trimmed (slices : list string) : list string :=
  filter (fun c => nonempty c = true) (PyStr.strip PyStr.isspace <$> slices).

(** Spans that tile the interval from [a] to [b] without gap or overlap. *)
Fixpoint tiles (spans : list (Z * Z)) (a b : Z) : Prop :=
  match spans with
  | [] => a = b
  | sp :: rest => fst sp = a ∧ a < snd sp ∧ tiles rest (snd sp) b
  end.

Definition join (l : list string) : string := foldr String.append "" l.

Definition is_slash (c : ascii) : bool := Ascii.eqb c "/".
Definition is_underscore (c : ascii) : bool := Ascii.eqb c "_".

(** [re.sub(r'[^a-zA-Z0-9]', '_', s)] *)
Definition sub_non_alnum (s : string) : string :=
  PyStr.map (fun c => if PyStr.is_alnum c then c else "_"%char) s.

(** The characters a sanitized name is made of. *)
Definition key_char (c : ascii) : bool := PyStr.is_alnum c || is_underscore c.

Definition sanitize_filename (url : string) : string :=
  let parsed := urlparse url in
  let raw_name := netloc parsed +:+ "_" +:+ PyStr.strip is_slash (path parsed) in
  let safe_name :=
    PyStr.slice_to (PyStr.strip is_underscore (sub_non_alnum raw_name)) 200 in
  safe_name.


(** *** Values exchanged with the Ollama service (ollama_client.py) *)

#[warnings="-register-all"]
Inductive json :=
| JNull
| JBool (b : bool)
| JNum (q : QArith_base.Q)
| JStr (s : string)
| JArr (items : list json)
| JObj (fields : list (string * json)).

(** One HTTP exchange as the client sees it: [client.post] raises, or
    [raise_for_status] raises, or a body arrives, which [response.json()]
    decodes ([None]: it raises [JSONDecodeError]). *)
Inductive HttpReply :=
| ConnectFailed
| BadStatus
| Body (decoded : option json).

Fixpoint assoc (key : string) (fields : list (string * json)) : option json :=
  match fields with
  | [] => None
  | (k, v) :: rest => if String.eqb k key then Some v else assoc key rest
  end.

(** [v[key]] for a string key. *)
Definition subscript (v : json) (key : string) : result json :=
  match v with
  | JObj fields =>
      match assoc key fields with
      | Some x => Ok x
      | None => Raise (KeyError key)
      end
  | _ => Raise TypeError
  end.

Definition error_record : json :=
  JObj [("title", JStr "Error processing title");
        ("summary", JStr "Error processing summary")].

Definition zero_embedding : json := JArr (repeat (JNum (QArith_base.Qmake 0 1)) 768).

Record Metadata := mkMetadata {
  source : string;
  chunk_size : Z;
  crawled_at : string;
  url_path : string
}.

Record ProcessedChunk := mkProcessedChunk {
  url : string;
  chunk_number : nat;
  title : json;
  summary : json;
  content : string;
  metadata : Metadata;
  embedding : json
}.

(** What the outside world answers while one chunk is enriched: the reply
    to the generate request, the reply to each embedding request in turn,
    and the clock. *)
Record Ollama := mkOllama {
  generate_reply : HttpReply;
  embedding_reply : nat -> HttpReply;
  utc_now : string
}.

Section Client.
(** [json.loads] on a [str]; [None] stands for [JSONDecodeError]. *)
Variable json_loads : string -> option json.

Definition get_title_and_summary (reply : HttpReply) : json :=
  match reply with
  | ConnectFailed | BadStatus => error_record
  | Body None => error_record
  | Body (Some (JObj fields)) =>
      match assoc "response" fields with
      | Some (JObj data) => JObj data
      | Some (JStr data) =>
          match json_loads data with
          | Some v => v
          | None => error_record
          end
      | _ => error_record (* json.loads raises TypeError *)
      end
  | Body (Some _) => error_record (* no .get: AttributeError *)
  end.

Definition _get_embedding (reply : HttpReply) : result json :=
  match reply with
  | ConnectFailed => Raise ConnectError
  | BadStatus => Raise HTTPStatusError
  | Body None => Raise JSONDecodeError
  | Body (Some (JObj fields)) =>
      Ok (default zero_embedding (assoc "embedding" fields))
  | Body (Some _) => Raise AttributeError
  end.

(** [for attempt in range(max_retries)] of [retry_with_backoff], from
    [attempt] on with [remaining] iterations left; [func i] is the
    outcome of the call made at attempt [i]. The second component
    collects the arguments of [asyncio.sleep]. A loop that runs out
    returns Python's [None]. *)
Fixpoint retry_from {A} (func : nat -> result A) (max_retries : Z)
         (attempt remaining : nat) (slept : list Z)
  : result (option A) * list Z :=
  match remaining with
  | O => (Ok None, slept)
  | S remaining' =>
      match func attempt with
      | Ok a => (Ok (Some a), slept)
      | Raise e =>
          if Z.of_nat attempt =? max_retries - 1 then (Raise e, slept)
          else retry_from func max_retries (S attempt) remaining'
                          (slept ++ [2 ^ Z.of_nat attempt])
      end
  end.

Definition retry_with_backoff {A} (func : nat -> result A) (max_retries : Z)
  : result (option A) * list Z :=
  retry_from func max_retries 0 (Z.to_nat max_retries) [].

Definition get_embedding (replies : nat -> HttpReply) : json * list Z :=
  match retry_with_backoff (fun i => _get_embedding (replies i)) 3 with
  | (Ok (Some v), slept) => (v, slept)
  | (Ok None, slept) => (JNull, slept)
  | (Raise _, slept) => (zero_embedding, slept)
  end.

Definition process_chunk (env : Ollama) (chunk : string)
           (chunk_number : nat) (url : string) : result ProcessedChunk :=
  let extracted := get_title_and_summary (generate_reply env) in
  let embedding := fst (get_embedding (embedding_reply env)) in
  let metadata :=
    mkMetadata url (PyStr.len chunk) (utc_now env) (path (urlparse url)) in
  bind (subscript extracted "title") (fun title =>
  bind (subscript extracted "summary") (fun summary =>
  Ok (mkProcessedChunk url chunk_number title summary chunk
                       metadata embedding))).
End Client.

(** The output directory: file name to the record last written there. *)
Definition chunk_filename (chunk : ProcessedChunk) : string :=
  sanitize_filename (url chunk) +:+ "_chunk_"
    +:+ PyStr.of_nat (chunk_number chunk) +:+ ".json".

(** [open(..., 'w')] truncates and rewrites; the write is taken to
    succeed (a failure is logged and swallowed by the source). *)
Definition save_chunk_to_file (chunk : ProcessedChunk)
           (output_dir : gmap string ProcessedChunk)
  : gmap string ProcessedChunk :=
  <[chunk_filename chunk := chunk]> output_dir.

(** [asyncio.gather] over tasks that have run to their outcome: the
    list of results, or an exception of a task that raised. Which of several
    raising tasks is reported depends on timing in the source; here it is
    the one lowest in the list. *)
Fixpoint gather {A} (tasks : list (result A)) : result (list A) :=
  match tasks with
  | [] => Ok []
  | t :: rest =>
      bind t (fun a => bind (gather rest) (fun l => Ok (a :: l)))
  end.

(** [process_and_store_document]: chunk with the default size, enrich every
    chunk ([env i] is what the outside world answers for chunk [i]), and
    only then write the files. The outcome comes with the output directory
    as the call leaves it. [None]: the chunker ran out of fuel. *)
Definition process_and_store_document
           (json_loads : string -> option json) (env : nat -> Ollama)
           (url markdown : string) (output_dir : gmap string ProcessedChunk)
  : option (result unit * gmap string ProcessedChunk) :=
  match chunk_text markdown 5000 with
  | None => None
  | Some (Raise e) => Some (Raise e, output_dir)
  | Some (Ok chunks) =>
      let tasks :=
        imap (fun i chunk => process_chunk json_loads (env i) chunk i url)
             chunks in
      match gather tasks with
      | Raise e => Some (Raise e, output_dir)
      | Ok processed_chunks =>
          Some (Ok tt,
                foldl (fun dir chunk => save_chunk_to_file chunk dir)
                      output_dir processed_chunks)
      end
  end.

End DocumentProcessor.

(** ** SitemapGenerator.py *)

Module SitemapGenerator.

Record Sitemap := mkSitemap {
  domain : string;
  start_url : string;
  urls : gset string
}.

Definition init (domain start_url : string) : Sitemap :=
  mkSitemap domain start_url ∅.

Definition add_url (self : Sitemap) (url : string) : Sitemap :=
  if bool_decide (get_domain url = domain self)
  then mkSitemap (domain self) (start_url self) ({[url]} ∪ urls self)
  else self.

(** [sorted(self.urls)]: ascending in the code-point order of [str]. *)
Definition sorted (urls : gset string) : list string :=
  merge_sort String.le (elements urls).

(** The file sitemap.xml as [save_sitemap] writes it, reduced to the
    strings put between its [<loc>] tags, in document order. They are
    written as they are, without escaping. The [<lastmod>] stamp and the
    markup around are left out, and the write is taken to succeed. *)
Definition save_sitemap (self : Sitemap) : option (list string) :=
  Some (sorted (urls self)).

(** Characters an XML text node carries as they are: visible ASCII other
    than the markup characters. *)
Definition xml_plain (c : ascii) : bool :=
  PyStr.in_range 33 126 c && negb (PyStr.mem c "&<>").

(** [BeautifulSoup(f, "xml").find_all("loc")], taken as the [.text] of each
    element found, is a function of the locations written into the
    document. The sources say nothing of it. What the round-trip properties
    assume is that a document whose locations are all free of markup is read
    back location by location; a location with [&] or [<] in it is not. *)
Definition reads_plain_locations (find_all_loc : list string -> list string)
  : Prop :=
  forall locs,
    Forall (fun loc => PyStr.forallb xml_plain loc = true) locs ->
    find_all_loc locs = locs.

Definition is_slash (c : ascii) : bool := Ascii.eqb c "/".

(** [load_urls], given what the parser found in the file: the text of
    each [<loc>] element in document order ([None]: the file does not
    exist). *)
Definition load_urls (self : Sitemap) (file : option (list string)) : gset string :=
  match file with
  | None => ∅
  | Some locs =>
      foldl (fun urls loc =>
               let normalized_url := PyStr.rstrip is_slash loc in
               if should_crawl_url normalized_url (start_url self)
               then {[normalized_url]} ∪ urls
               else urls)
            ∅ locs
  end.

End SitemapGenerator.

(** ** ScrapyDiscovery.py *)

Module ScrapyDiscovery.

Definition is_slash (c : ascii) : bool := Ascii.eqb c "/".

(** The [SitemapSpider] of [scrapy_crawl]. [parsed] and [requested] are
    ghost state: the normalised URLs for which [parse] went on to read the
    links of the page, and the URLs it handed to [scrapy.Request], both
    oldest first. *)
Record Spider := mkSpider {
  start_url : string;
  sitemap_generator : SitemapGenerator.Sitemap;
  urls : gset string;
  parsed : list string;
  requested : list string
}.

(** A response as [parse] reads it: [response.url], and the distinct
    [href]s selected on the page, in the order the set is iterated, each
    already resolved by [response.urljoin] ([None]: [urljoin] raised, which
    the inner [try] turns into a message). *)
Record Response := mkResponse {
  url : string;
  links : list (option string)
}.

Definition spider_init (start_url : string)
           (sitemap_generator : SitemapGenerator.Sitemap) : Spider :=
  mkSpider start_url sitemap_generator ∅ [] [].

(** [parse] down to the loop: the response is recorded unless its
    normalised URL is known, and the links left to iterate are returned
    (none for a known URL). *)
Definition parse_head (self : Spider) (response : Response)
  : Spider * list (option string) :=
  let normalized_url := PyStr.rstrip is_slash (url response) in
  if bool_decide (normalized_url ∈ urls self) then (self, [])
  else (mkSpider (start_url self)
                 (SitemapGenerator.add_url (sitemap_generator self) normalized_url)
                 ({[normalized_url]} ∪ urls self)
                 (parsed self ++ [normalized_url])
                 (requested self),
        links response).

(** One round of the loop over the links, run against the spider as it is
    when the generator is resumed. *)
Definition parse_link (self : Spider) (link : option string) : Spider :=
  match link with
  | None => self
  | Some joined =>
      let absolute_url := PyStr.rstrip is_slash joined in
      if should_crawl_url absolute_url (start_url self)
         && negb (bool_decide (absolute_url ∈ urls self))
      then mkSpider (start_url self) (sitemap_generator self) (urls self)
                    (parsed self) (requested self ++ [absolute_url])
      else self
  end.

(** [parse] with its generator run to exhaustion in one go. *)
Definition parse (self : Spider) (response : Response) : Spider :=
  let '(self', todo) := parse_head self response in
  foldl parse_link self' todo.

(** [closed]: the sitemap file written when the spider stops. *)
Definition closed (self : Spider) : option (list string) :=
  SitemapGenerator.save_sitemap (sitemap_generator self).

(** [parse] is a generator, resumed by the engine once per request it
    yields, so that calls of [parse] for different responses interleave. A
    state of the discovery is the spider with, for every call of [parse]
    under way, the links its loop has not reached. Which responses arrive
    is left to the engine: any response may. *)
Inductive step :
  Spider * list (list (option string)) ->
  Spider * list (list (option string)) -> Prop :=
| step_response self gens response :
    step (self, gens)
         ((parse_head self response).1,
          gens ++ [(parse_head self response).2])
| step_link self g1 link rest g2 :
    step (self, g1 ++ (link :: rest) :: g2)
         (parse_link self link, g1 ++ rest :: g2).

Definition reachable (start_url : string) (sm : SitemapGenerator.Sitemap)
           (s : Spider * list (list (option string))) : Prop :=
  rtc step (spider_init start_url sm, []) s.

(** What the discovery phase maintains: the spider keeps its start URL and
    the sitemap its settings; [parsed] lists the known URLs, each once; the
    known URLs end in no slash; the sitemap holds its initial URLs and the
    known URLs on its domain; a requested URL ends in no slash and is
    accepted by [should_crawl_url]. *)
Definition discovery_inv (start : string) (sm : SitemapGenerator.Sitemap)
           (self : Spider) : Prop :=
  start_url self = start
  ∧ SitemapGenerator.domain (sitemap_generator self) = SitemapGenerator.domain sm
  ∧ SitemapGenerator.start_url (sitemap_generator self)
    = SitemapGenerator.start_url sm
  ∧ NoDup (parsed self)
  ∧ (forall u, u ∈ parsed self <-> u ∈ urls self)
  ∧ (forall u, u ∈ urls self -> PyStr.rstrip is_slash u = u)
  ∧ SitemapGenerator.urls (sitemap_generator self)
    = SitemapGenerator.urls sm
      ∪ filter (fun u => get_domain u = SitemapGenerator.domain sm) (urls self)
  ∧ (forall u, u ∈ requested self ->
       PyStr.rstrip is_slash u = u ∧ should_crawl_url u start = true).

End ScrapyDiscovery.

(** ** WebCrawler.py *)

Module WebCrawler.

(** The crawler object together with the locals of [crawl_parallel] that
    [process_url] closes over. [fetched] is ghost state: the URLs handed to
    [crawler.arun], oldest first. *)
Record Crawler := mkCrawler {
  start_url : string;
  max_retries : Z;
  processed_urls : gset string;
  queued_urls : gset string;
  sitemap : SitemapGenerator.Sitemap;
  urls_to_process : list string;
  progress : nat;
  fetched : list string
}.

(** What one call of [crawler.arun] and the rest of its [try] block meet:
    a successful result with the [href]s of [result.markdown_v2.links] and
    of the [<a>] tags of [result.cleaned_html] (the latter after [urljoin]),
    and whether [process_and_store_document] returned ([stored]) or raised;
    an unsuccessful result; or an exception out of [arun]. *)
Inductive FetchOutcome :=
| Success (links anchors : list string) (stored : bool)
| Failed
| Raised.

Definition crawl_parallel_init (start_url : string) (max_retries : Z)
           (sitemap : SitemapGenerator.Sitemap) (urls : list string) : Crawler :=
  mkCrawler start_url max_retries ∅ ∅ sitemap urls 0 [].

(** The [exclude_domains] entry of the run configuration built by
    [crawl_parallel]: the domains of the seed URLs other than the start
    URL's. *)
Definition exclude_domains (start_url : string) (urls : list string) : list string :=
  filter (fun d => d ≠ get_domain start_url) (get_domain <$> urls).

(** The guard at the head of [process_url]. *)
Definition skips (c : Crawler) (url : string) : bool :=
  bool_decide (url ∈ processed_urls c)
  || bool_decide (url ∈ queued_urls c)
  || negb (should_crawl_url url (start_url c)).

Definition mark_queued (c : Crawler) (url : string) : Crawler :=
  mkCrawler (start_url c) (max_retries c) (processed_urls c)
            ({[url]} ∪ queued_urls c) (sitemap c) (urls_to_process c)
            (progress c) (fetched c).

Definition begin_fetch (c : Crawler) (url : string) : Crawler :=
  mkCrawler (start_url c) (max_retries c) (processed_urls c) (queued_urls c)
            (sitemap c) (urls_to_process c) (progress c) (fetched c ++ [url]).

(** [result.success]: mark processed, add to the sitemap, advance progress. *)
Definition on_success (c : Crawler) (url : string) : Crawler :=
  mkCrawler (start_url c) (max_retries c) ({[url]} ∪ processed_urls c)
            (queued_urls c) (SitemapGenerator.add_url (sitemap c) url)
            (urls_to_process c) (S (progress c)) (fetched c).

Definition put (c : Crawler) (url : string) : Crawler :=
  mkCrawler (start_url c) (max_retries c) (processed_urls c) (queued_urls c)
            (sitemap c) (urls_to_process c ++ [url]) (progress c) (fetched c).

Definition get (c : Crawler) : option (string * Crawler) :=
  match urls_to_process c with
  | [] => None
  | url :: rest =>
      Some (url, mkCrawler (start_url c) (max_retries c) (processed_urls c)
                           (queued_urls c) (sitemap c) rest (progress c)
                           (fetched c))
  end.

Definition wanted (c : Crawler) (link_url : string) : bool :=
  DocumentProcessor.nonempty link_url
  && bool_decide (get_domain link_url = get_domain (start_url c))
  && bool_decide (link_url ∉ processed_urls c)
  && bool_decide (link_url ∉ queued_urls c).

Definition enqueue_links (c : Crawler) (links : list string) : Crawler :=
  foldl (fun c link_url => if wanted c link_url then put c link_url else c)
        c links.

Definition on_stored (c : Crawler) (links anchors : list string) : Crawler :=
  enqueue_links (enqueue_links c links) anchors.

Definition retries (c : Crawler) (retry_count : Z) : bool :=
  retry_count <? max_retries c.

(** *** One worker: [process_url] run to completion

    [arun url k] is the outcome of the fetch of [url] issued as the [k]-th
    call of the fetcher (counting from 0). [None]: out of fuel. *)
Fixpoint process_url (fuel : nat) (arun : string -> nat -> FetchOutcome)
         (c : Crawler) (url : string) (retry_count : Z) : option Crawler :=
  match fuel with
  | O => None
  | S fuel' =>
      if skips c url then Some c
      else
        let c := mark_queued c url in
        let outcome := arun url (length (fetched c)) in
        let c := begin_fetch c url in
        let retry (c : Crawler) :=
          if retries c retry_count
          then process_url fuel' arun c url (retry_count + 1)
          else Some c in
        match outcome with
        | Success links anchors stored =>
            let c := on_success c url in
            if stored then Some (on_stored c links anchors) else retry c
        | Failed | Raised => retry c
        end
  end.

(** One turn of the [process_worker] loop. *)
Definition worker_iteration (fuel : nat) (arun : string -> nat -> FetchOutcome)
           (c : Crawler) : option Crawler :=
  match get c with
  | None => Some c
  | Some (url, c) =>
      if bool_decide (url ∈ processed_urls c) then Some c
      else process_url fuel arun c url 0
  end.

(** *** The worker pool: interleaving at the suspension points

    A call of [process_url] that got past its guard is a task, suspended at
    one of four [await]s. The semaphore only delays the step from [Waiting]
    to [Fetching], and the size of the pool only limits how many tasks
    exist at once, so every schedule they admit is a schedule here. *)
Inductive Task :=
| Waiting (url : string) (retry_count : Z)
| Fetching (url : string) (retry_count : Z)
| Storing (url : string) (retry_count : Z) (links anchors : list string)
| Sleeping (url : string) (retry_count : Z).

Definition task_url (t : Task) : string :=
  match t with
  | Waiting u _ | Fetching u _ | Storing u _ _ _ | Sleeping u _ => u
  end.

Definition waiting_url (t : Task) : option string :=
  match t with Waiting u _ => Some u | _ => None end.

Definition fetching_url (t : Task) : option string :=
  match t with Fetching u _ => Some u | _ => None end.

(** URLs with a fetch in flight. *)
Definition in_flight (ts : list Task) : list string := omap fetching_url ts.

(** Entry of [process_url] up to its first suspension point: the guard and,
    past it, the insertion into [queued_urls], in one uninterrupted run. *)
Definition call_process_url (c : Crawler) (url : string) (retry_count : Z)
  : Crawler * list Task :=
  if skips c url then (c, [])
  else (mark_queued c url, [Waiting url retry_count]).

(** The [except]/[else] branch: sleep before a retry, or give up. *)
Definition after_failure (c : Crawler) (url : string) (retry_count : Z)
  : list Task :=
  if retries c retry_count then [Sleeping url retry_count] else [].

Inductive step : Crawler * list Task -> Crawler * list Task -> Prop :=
| step_get c ts url c' :
    get c = Some (url, c') ->
    bool_decide (url ∈ processed_urls c') = false ->
    step (c, ts)
         (fst (call_process_url c' url 0),
          snd (call_process_url c' url 0) ++ ts)
| step_get_processed c ts url c' :
    get c = Some (url, c') ->
    bool_decide (url ∈ processed_urls c') = true ->
    step (c, ts) (c', ts)
| step_acquire c t1 t2 url rc :
    step (c, t1 ++ Waiting url rc :: t2)
         (begin_fetch c url, t1 ++ Fetching url rc :: t2)
| step_success c t1 t2 url rc links anchors :
    step (c, t1 ++ Fetching url rc :: t2)
         (on_success c url, t1 ++ Storing url rc links anchors :: t2)
| step_failure c t1 t2 url rc :
    step (c, t1 ++ Fetching url rc :: t2)
         (c, t1 ++ after_failure c url rc ++ t2)
| step_stored c t1 t2 url rc links anchors :
    step (c, t1 ++ Storing url rc links anchors :: t2)
         (on_stored c links anchors, t1 ++ t2)
| step_store_raised c t1 t2 url rc links anchors :
    step (c, t1 ++ Storing url rc links anchors :: t2)
         (c, t1 ++ after_failure c url rc ++ t2)
| step_wake c t1 t2 url rc :
    step (c, t1 ++ Sleeping url rc :: t2)
         (fst (call_process_url c url (rc + 1)),
          t1 ++ snd (call_process_url c url (rc + 1)) ++ t2).

Definition reachable (c0 : Crawler) (s : Crawler * list Task) : Prop :=
  rtc step (c0, []) s.

(** The scheduler invariant: every task's URL is queued and no two tasks
    share a URL; every fetched URL is queued; and the URLs still waiting
    for their fetch, followed by the URLs fetched, have no repetition. *)
Definition scheduler_inv (s : Crawler * list Task) : Prop :=
  (forall t, t ∈ s.2 -> task_url t ∈ queued_urls s.1)
  ∧ NoDup (task_url <$> s.2)
  ∧ (forall u, u ∈ fetched s.1 -> u ∈ queued_urls s.1)
  ∧ NoDup (omap waiting_url s.2 ++ fetched s.1).

(** Tasks that have not fetched yet, and tasks that have. *)
Definition pending (t : Task) : bool :=
  match t with Waiting _ _ | Fetching _ _ => true | _ => false end.

Definition started (t : Task) : bool :=
  match t with Waiting _ _ => false | _ => true end.

(** Invariants of the worker pool relative to the crawler [c0] it started
    from. Scope: the start URL is fixed and every task and every fetch is on
    a URL the scope test accepts. *)
Definition scope_inv (c0 : Crawler) (s : Crawler * list Task) : Prop :=
  start_url s.1 = start_url c0
  ∧ (forall t, t ∈ s.2 -> should_crawl_url (task_url t) (start_url c0) = true)
  ∧ (forall u, u ∈ fetched s.1 -> should_crawl_url u (start_url c0) = true).

(** Progress: a URL is processed only after its fetch, tasks that still
    await their result are on unprocessed URLs, and the progress counter
    has advanced once per processed URL. *)
Definition progress_inv (c0 : Crawler) (s : Crawler * list Task) : Prop :=
  (forall t, t ∈ s.2 -> pending t = true -> task_url t ∉ processed_urls s.1)
  ∧ (forall t, t ∈ s.2 -> started t = true -> task_url t ∈ fetched s.1)
  ∧ (forall u, u ∈ processed_urls s.1 -> u ∈ fetched s.1)
  ∧ progress s.1 = (progress c0 + size (processed_urls s.1))%nat.

(** Sitemap: it has grown by exactly the processed URLs of its domain. *)
Definition sitemap_inv (c0 : Crawler) (s : Crawler * list Task) : Prop :=
  SitemapGenerator.domain (sitemap s.1) = SitemapGenerator.domain (sitemap c0)
  ∧ SitemapGenerator.urls (sitemap s.1)
    = SitemapGenerator.urls (sitemap c0)
      ∪ filter (fun u => get_domain u = SitemapGenerator.domain (sitemap c0))
               (processed_urls s.1).

(** Queue: besides the seeds it holds only non-empty URLs of the start
    URL's domain. *)
Definition queue_inv (c0 : Crawler) (s : Crawler * list Task) : Prop :=
  start_url s.1 = start_url c0
  ∧ (forall u, u ∈ urls_to_process s.1 ->
       u ∈ urls_to_process c0
       ∨ (u ≠ "" ∧ get_domain u = get_domain (start_url c0))).

End WebCrawler.

(** ** ollama_config.py and ArgumentHandler.py: the configuration file

    The values of a configuration are only copied and compared by this
    code, so they are kept abstract: [V] stands for JSON values up to
    Python's [==], with the strings and integers of the defaults embedded
    in it. *)

Module OllamaConfig.
Section Values.
Context {V : Type} `{EqDecision V} (of_str : string -> V).

(** What [json.load] meets at the configuration path: no file, a file
    that is not JSON, a JSON value that is not an object, or an object. *)
Inductive ConfigFile :=
| NoFile
| NotJson
| JsonOther
| JsonDict (config_data : gmap string V).

Definition DEFAULT_OLLAMA_CONFIG : list (string * V) :=
  [("base_url", of_str "http://localhost:11434");
   ("model", of_str "llama3.2:3b");
   ("embed_model", of_str "nomic-embed-text")].

(** [{key: config_data.get(key, defaults[key]) for key in defaults}] *)
Definition fill (defaults : list (string * V)) (config_data : gmap string V)
  : gmap string V :=
  list_to_map ((fun kv => (kv.1, default kv.2 (config_data !! kv.1)))
                 <$> defaults).

Record OllamaConfig := mkOllamaConfig {
  base_url : V;
  model : V;
  embed_model : V
}.

(** [cls] called with keyword arguments: the three fields must be given,
    and nothing else. *)
Definition cls (kwargs : gmap string V) : DocumentProcessor.result OllamaConfig :=
  match kwargs !! "base_url", kwargs !! "model", kwargs !! "embed_model" with
  | Some b, Some m, Some e =>
      if bool_decide (size kwargs = 3%nat)
      then DocumentProcessor.Ok (mkOllamaConfig b m e)
      else DocumentProcessor.Raise DocumentProcessor.TypeError
  | _, _, _ => DocumentProcessor.Raise DocumentProcessor.TypeError
  end.

(** [load_config]: the configuration returned (or the exception that
    escapes: only [JSONDecodeError] and [ValueError] are caught) and the
    file as the call leaves it. The rewrite is taken to succeed. *)
Definition load_config (file : ConfigFile)
  : DocumentProcessor.result OllamaConfig * ConfigFile :=
  match file with
  | NoFile => (cls (list_to_map DEFAULT_OLLAMA_CONFIG), file)
  | NotJson => (cls (list_to_map DEFAULT_OLLAMA_CONFIG), file)
  | JsonOther => (DocumentProcessor.Raise DocumentProcessor.AttributeError, file)
  | JsonDict config_data =>
      let filtered_config := fill DEFAULT_OLLAMA_CONFIG config_data in
      let file' := if decide (filtered_config ≠ config_data)
                   then JsonDict filtered_config else file in
      (cls filtered_config, file')
  end.

End Values.
End OllamaConfig.

Module ArgumentHandler.
Section Values.
Context {V : Type} `{EqDecision V} (of_str : string -> V) (of_int : Z -> V).

Definition DEFAULT_CONFIG : list (string * V) :=
  [("base_url", of_str "http://localhost:11434");
   ("model", of_str "llama3.2:3b");
   ("embed_model", of_str "nomic-embed-text");
   ("url", of_str "https://example.com");
   ("max_concurrent", of_int 5);
   ("max_retries", of_int 3);
   ("output_dir", of_str "crawled_data")].

Definition load_config (file : OllamaConfig.ConfigFile (V := V))
  : DocumentProcessor.result (gmap string V) :=
  match file with
  | OllamaConfig.NoFile => DocumentProcessor.Ok (list_to_map DEFAULT_CONFIG)
  | OllamaConfig.NotJson => DocumentProcessor.Ok (list_to_map DEFAULT_CONFIG)
  | OllamaConfig.JsonOther =>
      DocumentProcessor.Raise DocumentProcessor.AttributeError
  | OllamaConfig.JsonDict config_data =>
      DocumentProcessor.Ok (OllamaConfig.fill DEFAULT_CONFIG config_data)
  end.

(** [save_config]: the file afterwards (a failed write is logged and
    swallowed by the source; here the write succeeds). *)
Definition save_config (config : gmap string V) : OllamaConfig.ConfigFile :=
  OllamaConfig.JsonDict config.

(** The dictionary [updated_config] of [prompt_for_arguments]. [answers k]
    is the local variable holding the answer for key [k], as it stands after
    the prompt's defaulting and conversion. [None]: a [KeyError] on
    [config]. *)
Definition updated_config (answers : string -> V) (config : gmap string V)
  : option (gmap string V) :=
  list_to_map
    <$> mapM (fun kv : string * V =>
                if decide (answers kv.1 ≠ kv.2)
                then Some (kv.1, answers kv.1)
                else pair kv.1 <$> config !! kv.1)
             DEFAULT_CONFIG.

End Values.
End ArgumentHandler.

(** * Properties *)

(** ** Strings *)

Section StringFacts.

Lemma prefix_app (p t : string) : String.prefix p (p +:+ t) = true.
Proof.
  induction p as [|c p IH]; simpl.
  - by destruct t.
  - destruct (ascii_dec c c) as [_|Hne]; [exact IH | by destruct Hne].
Qed.

Lemma prefix_split (p s : string) :
  String.prefix p s = true -> exists t, s = p +:+ t.
Proof.
  revert s. induction p as [|c p IH]; intros s H.
  - by exists s.
  - destruct s as [|d s]; simpl in H; [done|].
    destruct (ascii_dec c d) as [->|_]; [|done].
    destruct (IH _ H) as [t ->]. by exists t.
Qed.

Lemma prefix_length (p s : string) :
  String.prefix p s = true -> (String.length p <= String.length s)%nat.
Proof.
  revert s. induction p as [|c p IH]; intros s H; simpl; [lia|].
  destruct s as [|d s]; simpl in H; [done|].
  destruct (ascii_dec c d); [|done]. specialize (IH _ H). simpl. lia.
Qed.

Lemma app_cons (c : ascii) (s t : string) :
  String c s +:+ t = String c (s +:+ t).
Proof. reflexivity. Qed.

Lemma length_app (s t : string) :
  String.length (s +:+ t) = (String.length s + String.length t)%nat.
Proof. induction s as [|c s IH]; simpl; [done | by rewrite IH]. Qed.

Lemma forallb_lstrip (P ws : ascii -> bool) (s : string) :
  PyStr.forallb P s = true -> PyStr.forallb P (PyStr.lstrip ws s) = true.
Proof.
  induction s as [|c s IH]; simpl; [done|].
  intros [Hc Hs]%andb_prop. destruct (ws c); [auto|].
  simpl. by rewrite Hc, Hs.
Qed.

Lemma forallb_rstrip (P ws : ascii -> bool) (s : string) :
  PyStr.forallb P s = true -> PyStr.forallb P (PyStr.rstrip ws s) = true.
Proof.
  induction s as [|c s IH]; simpl; [done|].
  intros [Hc Hs]%andb_prop. specialize (IH Hs).
  destruct (PyStr.rstrip ws s) as [|d r].
  - destruct (ws c); simpl; [done | by rewrite Hc].
  - change (PyStr.forallb P (String c (String d r)))
      with (P c && PyStr.forallb P (String d r)).
    by rewrite Hc, IH.
Qed.

Lemma forallb_substring (P : ascii -> bool) (s : string) (n m : nat) :
  PyStr.forallb P s = true -> PyStr.forallb P (String.substring n m s) = true.
Proof.
  revert n m. induction s as [|c s IH]; intros n m H.
  - by destruct n, m.
  - simpl in H. apply andb_prop in H as [Hc Hs].
    destruct n as [|n]; simpl.
    + destruct m as [|m]; simpl; [done|]. by rewrite Hc, IH.
    + by apply IH.
Qed.

Lemma length_substring_le (s : string) (n m : nat) :
  (String.length (String.substring n m s) <= m)%nat.
Proof.
  revert n m. induction s as [|c s IH]; intros n m.
  - destruct n, m; simpl; lia.
  - destruct n as [|n]; simpl; [|apply IH].
    destruct m as [|m]; simpl; [lia|]. specialize (IH 0%nat m). lia.
Qed.

Lemma forallb_map (P : ascii -> bool) (f : ascii -> ascii) (s : string) :
  (forall c, P (f c) = true) -> PyStr.forallb P (PyStr.map f s) = true.
Proof.
  intros Hf. induction s as [|c s IH]; simpl; [done|]. by rewrite Hf, IH.
Qed.

Lemma lstrip_head (ws : ascii -> bool) (s : string) :
  match PyStr.lstrip ws s with
  | EmptyString => True
  | String c _ => ws c = false
  end.
Proof.
  induction s as [|c s IH]; simpl; [done|].
  destruct (ws c) eqn:E; [exact IH | exact E].
Qed.

Lemma rstrip_head (ws : ascii -> bool) (s : string) :
  match s, PyStr.rstrip ws s with
  | String c _, String d _ => c = d
  | _, _ => True
  end.
Proof.
  destruct s as [|c s]; simpl; [done|].
  destruct (PyStr.rstrip ws s); [destruct (ws c)|]; done.
Qed.

Lemma substring_head (s : string) (m : nat) :
  match s, String.substring 0 m s with
  | String c _, String d _ => c = d
  | _, _ => True
  end.
Proof. destruct s as [|c s]; [done|]. destruct m; done. Qed.

End StringFacts.

(** ** Scope filter (utils.py) *)

(** C3, as stated, fails: with the start path [/docs/] and the candidate
    path [/docs] on the same network location, the specification's
    normalised test accepts the candidate and [should_crawl_url] rejects
    it. *)
Lemma should_crawl_url_trailing_slash_rejected :
  netloc (urlparse "https://ex.com/docs") = netloc (urlparse "https://ex.com/docs/")
  ∧ path (urlparse "https://ex.com/docs/") = "/docs/"
  ∧ path (urlparse "https://ex.com/docs") = "/docs"
  ∧ spec_in_scope "https://ex.com/docs" "https://ex.com/docs/" = true
  ∧ should_crawl_url "https://ex.com/docs" "https://ex.com/docs/" = false.
Proof. repeat split; vm_compute; reflexivity. Qed.

(** C3 (amended): [should_crawl_url v u] holds exactly when [u] and [v]
    have the same network location and the path of [v] extends the path of
    [u] character by character, a trailing slash of the start path
    included; no normalisation is applied on either side. *)
Theorem should_crawl_url_literal_prefix (v u : string) :
  should_crawl_url v u = true
  <-> netloc (urlparse u) = netloc (urlparse v)
      ∧ exists rest, path (urlparse v) = path (urlparse u) +:+ rest.
Proof.
  unfold should_crawl_url, PyStr.startswith. rewrite andb_true_iff.
  rewrite bool_decide_eq_true. split.
  - intros [Hn Hp]. split; [exact Hn | by apply prefix_split].
  - intros [Hn [rest Hp]]. split; [exact Hn|]. rewrite Hp. apply prefix_app.
Qed.

(** ** Sitemap store (SitemapGenerator.py) *)

Section SitemapFacts.
Import SitemapGenerator.

Lemma add_url_urls (sm : Sitemap) (url : string) :
  urls (add_url sm url)
  = if bool_decide (get_domain url = domain sm)
    then {[url]} ∪ urls sm else urls sm.
Proof. unfold add_url. by case_bool_decide. Qed.

Lemma add_url_domain (sm : Sitemap) (url : string) :
  domain (add_url sm url) = domain sm.
Proof. unfold add_url. by case_bool_decide. Qed.

Lemma add_url_start_url (sm : Sitemap) (url : string) :
  start_url (add_url sm url) = start_url sm.
Proof. unfold add_url. by case_bool_decide. Qed.

Lemma add_url_idem (sm : Sitemap) (url : string) :
  add_url (add_url sm url) url = add_url sm url.
Proof.
  unfold add_url.
  destruct (bool_decide (get_domain url = domain sm)) eqn:E; simpl; rewrite E;
    [f_equal | done].
  apply set_eq. intros x. rewrite !elem_of_union. tauto.
Qed.

Lemma foldl_add_url_domain (l : list string) (sm : Sitemap) :
  domain (foldl add_url sm l) = domain sm.
Proof.
  revert sm. induction l as [|x l IH]; intros sm; simpl; [done|].
  by rewrite IH, add_url_domain.
Qed.

Lemma add_url_keeps_domain (sm : Sitemap) (url : string) :
  (forall u, u ∈ urls sm -> get_domain u = domain sm) ->
  forall u, u ∈ urls (add_url sm url) -> get_domain u = domain sm.
Proof.
  intros Hinv u. rewrite add_url_urls. case_bool_decide as Hd; [|apply Hinv].
  rewrite elem_of_union, elem_of_singleton. intros [->|Hu]; [done | by apply Hinv].
Qed.

(** What [load_urls] collects from a list of locations. *)
Lemma elem_of_load_fold (start : string) (locs : list string) (acc : gset string) (x : string) :
  x ∈ foldl (fun urls loc =>
               let normalized_url := PyStr.rstrip is_slash loc in
               if should_crawl_url normalized_url start
               then {[normalized_url]} ∪ urls else urls) acc locs
  <-> x ∈ acc ∨ exists loc, loc ∈ locs ∧ x = PyStr.rstrip is_slash loc
                           ∧ should_crawl_url x start = true.
Proof.
  revert acc. induction locs as [|loc locs IH]; intros acc; simpl.
  - split; [by left|]. intros [H|(loc & H & _)]; [done|]. by apply elem_of_nil in H.
  - rewrite IH. destruct (should_crawl_url (PyStr.rstrip is_slash loc) start) eqn:E.
    + rewrite elem_of_union, elem_of_singleton. split.
      * intros [[->|H]|(l & Hl & Hx & Hs)]; [right|by left|right].
        -- exists loc. split; [left|done].
        -- exists l. split; [by right|done].
      * intros [H|(l & Hl & Hx & Hs)]; [left; by right|].
        apply elem_of_cons in Hl as [->|Hl]; [left; by left|].
        right. by exists l.
    + split.
      * intros [H|(l & Hl & Hx & Hs)]; [by left|]. right. exists l. split; [by right|done].
      * intros [H|(l & Hl & Hx & Hs)]; [by left|].
        apply elem_of_cons in Hl as [->|Hl]; [subst x; congruence|].
        right. by exists l.
Qed.

Lemma elem_of_sorted (X : gset string) (x : string) : x ∈ sorted X <-> x ∈ X.
Proof. unfold sorted. by rewrite merge_sort_Permutation, elem_of_elements. Qed.

Lemma load_after_save (find_all_loc : list string -> list string) (sm : Sitemap) :
  reads_plain_locations find_all_loc ->
  (forall u, u ∈ urls sm -> PyStr.forallb xml_plain u = true) ->
  load_urls sm (find_all_loc <$> save_sitemap sm)
  = filter (fun u => should_crawl_url u (start_url sm) = true)
           (set_map (D := gset string) (PyStr.rstrip is_slash) (urls sm)).
Proof.
  intros Hparser Hplain.
  apply set_eq. intros x. unfold load_urls, save_sitemap. cbn [fmap option_fmap option_map].
  rewrite Hparser by (apply Forall_forall; intros u Hu%elem_of_sorted; auto).
  rewrite elem_of_load_fold, elem_of_filter, elem_of_map. split.
  - intros [H|(loc & Hl & Hx & Hs)]; [by apply not_elem_of_empty in H|].
    split; [done|]. exists loc. by rewrite <- elem_of_sorted.
  - intros [Hs (loc & Hx & Hl)]. right. exists loc. by rewrite elem_of_sorted.
Qed.

End SitemapFacts.

(** C7, as stated, fails: [add_url] admits a URL of the target domain whose
    path lies outside the root path, which the Scope Filter rejects. *)
Lemma add_url_admits_out_of_scope_path :
  "https://ex.com/other"
    ∈ SitemapGenerator.urls
        (SitemapGenerator.add_url
           (SitemapGenerator.init "ex.com" "https://ex.com/docs")
           "https://ex.com/other")
  ∧ should_crawl_url "https://ex.com/other" "https://ex.com/docs" = false.
Proof.
  split; [|vm_compute; reflexivity].
  rewrite add_url_urls.
  replace (get_domain "https://ex.com/other") with "ex.com" by (vm_compute; reflexivity).
  unfold SitemapGenerator.init.
  cbn [SitemapGenerator.domain SitemapGenerator.urls].
  rewrite bool_decide_eq_true_2 by reflexivity. set_solver.
Qed.

(** C7 (amended): [add_url] inserts a URL exactly when its network location
    equals the sitemap's domain (the path is not examined); the operation is
    idempotent; and every member of a sitemap built by [add_url] calls has
    the sitemap's domain as its network location. *)
Theorem add_url_domain_invariant (dom start url : string) (added : list string) :
  let sm := foldl SitemapGenerator.add_url (SitemapGenerator.init dom start) added in
  SitemapGenerator.urls (SitemapGenerator.add_url sm url)
    = (if bool_decide (get_domain url = dom)
       then {[url]} ∪ SitemapGenerator.urls sm else SitemapGenerator.urls sm)
  ∧ SitemapGenerator.add_url (SitemapGenerator.add_url sm url) url
    = SitemapGenerator.add_url sm url
  ∧ (forall u, u ∈ SitemapGenerator.urls (SitemapGenerator.add_url sm url) ->
               get_domain u = dom).
Proof.
  intros sm.
  assert (Hd : SitemapGenerator.domain sm = dom).
  { unfold sm. by rewrite foldl_add_url_domain. }
  split; [|split].
  - by rewrite add_url_urls, Hd.
  - apply add_url_idem.
  - rewrite <- Hd. apply add_url_keeps_domain. rewrite Hd. clear Hd.
    unfold sm. clear sm.
    induction added as [|x l IH] using rev_ind; simpl.
    + intros u Hu. by apply not_elem_of_empty in Hu.
    + rewrite foldl_snoc. intros u Hu.
      apply add_url_keeps_domain in Hu; rewrite foldl_add_url_domain in *; auto.
Qed.

(** C8, as stated, fails: a crawl rooted at [https://ex.com/docs/] records
    its seed as [https://ex.com/docs]; the file written holds that one
    location, which has no markup in it, and loading under the same scope
    returns the empty set. *)
Lemma load_after_save_drops_member :
  let sm := SitemapGenerator.add_url
              (SitemapGenerator.init "ex.com" "https://ex.com/docs/")
              "https://ex.com/docs" in
  SitemapGenerator.urls sm = {["https://ex.com/docs"]}
  ∧ SitemapGenerator.save_sitemap sm = Some ["https://ex.com/docs"]
  ∧ PyStr.forallb SitemapGenerator.xml_plain "https://ex.com/docs" = true
  ∧ SitemapGenerator.load_urls sm (Some ["https://ex.com/docs"]) = ∅
  ∧ forall find_all_loc,
      SitemapGenerator.reads_plain_locations find_all_loc ->
      SitemapGenerator.load_urls sm
        (find_all_loc <$> SitemapGenerator.save_sitemap sm) = ∅.
Proof.
  intros sm.
  assert (Hu : SitemapGenerator.urls sm = {["https://ex.com/docs"]}).
  { unfold sm. rewrite add_url_urls.
    replace (get_domain "https://ex.com/docs") with "ex.com" by (vm_compute; reflexivity).
    unfold SitemapGenerator.init.
    cbn [SitemapGenerator.domain SitemapGenerator.urls].
    rewrite bool_decide_eq_true_2 by reflexivity. set_solver. }
  assert (Hsave : SitemapGenerator.save_sitemap sm = Some ["https://ex.com/docs"]).
  { unfold SitemapGenerator.save_sitemap, SitemapGenerator.sorted.
    rewrite Hu, elements_singleton. reflexivity. }
  assert (Hload : SitemapGenerator.load_urls sm (Some ["https://ex.com/docs"]) = ∅).
  { unfold SitemapGenerator.load_urls, sm. rewrite add_url_start_url.
    cbn [SitemapGenerator.init SitemapGenerator.start_url foldl].
    replace (should_crawl_url _ _) with false by (vm_compute; reflexivity).
    reflexivity. }
  split; [exact Hu|]. split; [exact Hsave|]. split; [reflexivity|].
  split; [exact Hload|].
  intros find_all_loc Hparser. rewrite Hsave. cbn [fmap option_fmap option_map].
  rewrite Hparser; [exact Hload|].
  apply Forall_cons. split; [reflexivity | apply Forall_nil_2].
Qed.

(** C8 (amended): for a sitemap whose URLs contain no markup character,
    loading after a save under the same scope returns exactly the saved URLs,
    trailing slashes stripped, that [should_crawl_url] accepts against the
    start URL; and [load_urls] returns the empty set when no sitemap file
    exists. *)
Theorem load_after_save_filters
        (find_all_loc : list string -> list string)
        (sm : SitemapGenerator.Sitemap) :
  SitemapGenerator.reads_plain_locations find_all_loc ->
  (forall u, u ∈ SitemapGenerator.urls sm ->
             PyStr.forallb SitemapGenerator.xml_plain u = true) ->
  SitemapGenerator.load_urls sm
    (find_all_loc <$> SitemapGenerator.save_sitemap sm)
  = filter (fun u => should_crawl_url u (SitemapGenerator.start_url sm) = true)
           (set_map (D := gset string)
                    (PyStr.rstrip SitemapGenerator.is_slash)
                    (SitemapGenerator.urls sm))
  ∧ SitemapGenerator.load_urls sm None = ∅.
Proof.
  intros Hparser Hplain. split; [by apply load_after_save | reflexivity].
Qed.

Lemma load_after_save_filters_witness :
  let find_all_loc := fun locs : list string => locs in
  let sm := SitemapGenerator.add_url
              (SitemapGenerator.init "ex.com" "https://ex.com/docs")
              "https://ex.com/docs/a/" in
  SitemapGenerator.reads_plain_locations find_all_loc
  ∧ (forall u, u ∈ SitemapGenerator.urls sm ->
               PyStr.forallb SitemapGenerator.xml_plain u = true)
  ∧ SitemapGenerator.load_urls sm
      (find_all_loc <$> SitemapGenerator.save_sitemap sm)
    = filter (fun u => should_crawl_url u (SitemapGenerator.start_url sm) = true)
             (set_map (D := gset string)
                      (PyStr.rstrip SitemapGenerator.is_slash)
                      (SitemapGenerator.urls sm))
  ∧ SitemapGenerator.load_urls sm None = ∅.
Proof.
  intros find_all_loc sm.
  assert (Hparser : SitemapGenerator.reads_plain_locations find_all_loc).
  { intros locs _. reflexivity. }
  assert (Hplain : forall u, u ∈ SitemapGenerator.urls sm ->
                     PyStr.forallb SitemapGenerator.xml_plain u = true).
  { intros u. unfold sm. rewrite add_url_urls.
    replace (get_domain "https://ex.com/docs/a/") with "ex.com"
      by (vm_compute; reflexivity).
    unfold SitemapGenerator.init.
    cbn [SitemapGenerator.domain SitemapGenerator.urls].
    rewrite bool_decide_eq_true_2 by reflexivity.
    rewrite elem_of_union, elem_of_singleton.
    intros [->|H]; [reflexivity|].
    destruct (not_elem_of_empty (C := gset string) u H). }
  split; [exact Hparser|]. split; [exact Hplain|].
  exact (load_after_save_filters find_all_loc sm Hparser Hplain).
Defined.

(** ** Persistence sink (DocumentProcessor.py) *)

Section SanitizeFacts.
Import DocumentProcessor.

Lemma sub_non_alnum_key_chars (s : string) :
  PyStr.forallb key_char (sub_non_alnum s) = true.
Proof.
  apply forallb_map. intros c. unfold key_char.
  destruct (PyStr.is_alnum c) eqn:E; [by rewrite E | reflexivity].
Qed.

Lemma slice_to_substring (s : string) (n : Z) :
  0 <= n ->
  PyStr.slice_to s n = String.substring 0 (Z.to_nat (Z.min n (PyStr.len s))) s.
Proof.
  intros Hn. unfold PyStr.slice_to, PyStr.slice, PyStr.clamp, PyStr.len.
  rewrite (proj2 (Z.ltb_ge 0 0)) by lia.
  rewrite (proj2 (Z.ltb_ge n 0)) by lia.
  rewrite Z.min_l by lia. simpl Z.to_nat. by rewrite Z.sub_0_r.
Qed.

Lemma startswith_underscore_cons (c : ascii) (r : string) :
  is_underscore c = false -> PyStr.startswith (String c r) "_" = false.
Proof.
  intros H. unfold PyStr.startswith.
  change (String.prefix "_" (String c r))
    with (if ascii_dec "_" c then String.prefix "" r else false).
  destruct (ascii_dec "_" c) as [<-|_]; [|reflexivity].
  vm_compute in H. discriminate.
Qed.

Lemma strip_key_head (s : string) :
  PyStr.startswith (PyStr.strip is_underscore s) "_" = false.
Proof.
  unfold PyStr.strip, PyStr.startswith.
  pose proof (lstrip_head is_underscore s) as Hl.
  pose proof (rstrip_head is_underscore (PyStr.lstrip is_underscore s)) as Hr.
  destruct (PyStr.lstrip is_underscore s) as [|c l]; [reflexivity|].
  destruct (PyStr.rstrip is_underscore (String c l)) as [|d r]; [reflexivity|].
  subst d. by apply startswith_underscore_cons.
Qed.

Lemma substring_keeps_head (s : string) (m : nat) :
  PyStr.startswith s "_" = false ->
  PyStr.startswith (String.substring 0 m s) "_" = false.
Proof.
  pose proof (substring_head s m) as H.
  destruct s as [|c s]; [by destruct m|].
  destruct (String.substring 0 m (String c s)) as [|d r]; [reflexivity|].
  subst d. unfold PyStr.startswith.
  change (String.prefix "_" (String c r))
    with (if ascii_dec "_" c then String.prefix "" r else false).
  change (String.prefix "_" (String c s))
    with (if ascii_dec "_" c then String.prefix "" s else false).
  destruct (ascii_dec "_" c); [by destruct s | reflexivity].
Qed.

Lemma lstrip_split (ws : ascii -> bool) (s : string) :
  exists pre, s = pre +:+ PyStr.lstrip ws s ∧ PyStr.forallb ws pre = true.
Proof.
  induction s as [|c s (pre & E & Hp)]; [by exists ""|]. simpl.
  destruct (ws c) eqn:Ec; [|by exists ""].
  exists (String c pre). rewrite app_cons, <- E. simpl. by rewrite Ec, Hp.
Qed.

Lemma rstrip_split (ws : ascii -> bool) (s : string) :
  exists suf, s = PyStr.rstrip ws s +:+ suf ∧ PyStr.forallb ws suf = true.
Proof.
  induction s as [|c s (suf & E & Hs)]; [by exists ""|]. simpl.
  destruct (PyStr.rstrip ws s) as [|d r] eqn:Er.
  - change ("" +:+ suf) with suf in E. subst s.
    destruct (ws c) eqn:Ec.
    + exists (String c suf). split; [reflexivity|]. simpl. by rewrite Ec, Hs.
    + by exists suf.
  - exists suf. by rewrite app_cons, <- E.
Qed.

(** What [rstrip] returns does not end in a stripped character. *)
Lemma rstrip_last (ws : ascii -> bool) (s r : string) (c : ascii) :
  PyStr.rstrip ws s = r +:+ String c "" -> ws c = false.
Proof.
  revert r. induction s as [|d s IH]; intros r; simpl.
  - by destruct r.
  - destruct (PyStr.rstrip ws s) as [|e t] eqn:Er.
    + destruct (ws d) eqn:Ed; [by destruct r|].
      destruct r as [|r0 r]; [by intros [= <-]|].
      rewrite app_cons. intros [= _ H]. by destruct r.
    + destruct r as [|r0 r].
      * change ("" +:+ String c "") with (String c ""). by intros [=].
      * rewrite app_cons. intros [= _ H]. by apply (IH r).
Qed.

Lemma length_map (f : ascii -> ascii) (s : string) :
  String.length (PyStr.map f s) = String.length s.
Proof. induction s as [|c s IH]; simpl; [done | by rewrite IH]. Qed.

Lemma get_map (f : ascii -> ascii) (s : string) (i : nat) :
  String.get i (PyStr.map f s) = f <$> String.get i s.
Proof.
  revert i. induction s as [|c s IH]; intros i; simpl; [done|].
  destruct i as [|i]; [done | apply IH].
Qed.

Lemma substring_min (s : string) (n : nat) :
  String.substring 0 (n `min` String.length s) s = String.substring 0 n s.
Proof.
  revert n. induction s as [|c s IH]; intros n; simpl.
  - rewrite Nat.min_0_r. by destruct n.
  - destruct n as [|n]; [done|]. simpl. by rewrite IH.
Qed.

End SanitizeFacts.

(** C9, as stated, fails: the two hyphens of [a--b] become two adjacent
    separators, which are kept. *)
Lemma sanitize_filename_keeps_separator_runs :
  DocumentProcessor.sanitize_filename "https://ex.com/a--b" = "ex_com_a__b"
  ∧ PyStr.find (DocumentProcessor.sanitize_filename "https://ex.com/a--b") "__" = 8.
Proof. split; vm_compute; reflexivity. Qed.

(** C9 (amended): [sanitize_filename] maps each character of the raw name
    (network location, [_], path without its edge slashes) on its own,
    non-alphanumeric ones to the separator [_]; it strips separators from
    both ends only, so that runs inside the name are kept; and it keeps the
    first 200 characters of what is left. Hence the output contains only
    alphanumeric characters and separators, does not begin with a
    separator, and is at most 200 characters long. *)
Theorem sanitize_filename_charset_and_bound (url : string) :
  let parsed := urlparse url in
  let raw_name :=
    netloc parsed +:+ "_"
      +:+ PyStr.strip DocumentProcessor.is_slash (path parsed) in
  let name := DocumentProcessor.sanitize_filename url in
  exists mapped lead core trail : string,
    String.length mapped = String.length raw_name
    ∧ (forall i c, String.get i raw_name = Some c ->
         String.get i mapped
         = Some (if PyStr.is_alnum c then c else "_"%char))
    ∧ mapped = lead +:+ (core +:+ trail)
    ∧ PyStr.forallb DocumentProcessor.is_underscore lead = true
    ∧ PyStr.forallb DocumentProcessor.is_underscore trail = true
    ∧ PyStr.startswith core "_" = false
    ∧ (forall r, core ≠ r +:+ "_")
    ∧ name = String.substring 0 200 core
    ∧ PyStr.forallb DocumentProcessor.key_char name = true
    ∧ PyStr.startswith name "_" = false
    ∧ PyStr.len name <= 200.
Proof.
  intros parsed raw_name name.
  set (mapped := DocumentProcessor.sub_non_alnum raw_name).
  destruct (lstrip_split DocumentProcessor.is_underscore mapped)
    as (lead & Elead & Hlead).
  destruct (rstrip_split DocumentProcessor.is_underscore
              (PyStr.lstrip DocumentProcessor.is_underscore mapped))
    as (trail & Etrail & Htrail).
  set (core := PyStr.strip DocumentProcessor.is_underscore mapped).
  assert (Hname : name = String.substring 0 200 core).
  { unfold name, DocumentProcessor.sanitize_filename. cbv zeta.
    fold parsed. fold raw_name. fold mapped. fold core.
    rewrite slice_to_substring by lia. rewrite <- (substring_min core 200).
    f_equal. unfold PyStr.len. lia. }
  exists mapped, lead, core, trail.
  split; [apply length_map|]. split.
  { intros i c Hc. unfold mapped, DocumentProcessor.sub_non_alnum.
    by rewrite get_map, Hc. }
  split; [unfold core, PyStr.strip; by rewrite <- Etrail|].
  split; [exact Hlead|]. split; [exact Htrail|].
  split; [apply strip_key_head|]. split.
  { intros r Hr. unfold core, PyStr.strip in Hr.
    apply rstrip_last in Hr. vm_compute in Hr. discriminate. }
  split; [exact Hname|]. rewrite Hname.
  split; [|split].
  - apply forallb_substring. unfold core, PyStr.strip.
    apply forallb_rstrip, forallb_lstrip, sub_non_alnum_key_chars.
  - apply substring_keeps_head, strip_key_head.
  - unfold PyStr.len. pose proof (length_substring_le core 0 200). lia.
Qed.

(** C10: [sanitize_filename] is not injective. Two URLs that differ only in
    a non-alphanumeric character, or only past the 200-character cut, get
    the same name; two chunk records with names that agree and the same
    chunk number are written to the same file, and after both writes the
    file holds the second record, the first being lost: the directory is
    what the second write alone would have left. For the records of chunk 0
    of the pages [a-b] and [a_b] the one file is
    [ex_com_a_b_chunk_0.json]. *)
Theorem sanitize_filename_not_injective :
  (exists u v : string,
      u ≠ v ∧ DocumentProcessor.sanitize_filename u
              = DocumentProcessor.sanitize_filename v)
  ∧ (let long := "https://ex.com/" +:+ PyStr.times "a" 200 in
     long +:+ "x" ≠ long +:+ "y"
     ∧ DocumentProcessor.sanitize_filename (long +:+ "x")
       = DocumentProcessor.sanitize_filename (long +:+ "y"))
  ∧ (forall (c1 c2 : DocumentProcessor.ProcessedChunk)
            (dir : gmap string DocumentProcessor.ProcessedChunk),
        DocumentProcessor.sanitize_filename (DocumentProcessor.url c1)
          = DocumentProcessor.sanitize_filename (DocumentProcessor.url c2) ->
        DocumentProcessor.chunk_number c1 = DocumentProcessor.chunk_number c2 ->
        DocumentProcessor.chunk_filename c1 = DocumentProcessor.chunk_filename c2
        ∧ DocumentProcessor.save_chunk_to_file c1 dir
            !! DocumentProcessor.chunk_filename c1 = Some c1
        ∧ DocumentProcessor.save_chunk_to_file c2
            (DocumentProcessor.save_chunk_to_file c1 dir)
            !! DocumentProcessor.chunk_filename c1 = Some c2
        ∧ DocumentProcessor.save_chunk_to_file c2
            (DocumentProcessor.save_chunk_to_file c1 dir)
          = DocumentProcessor.save_chunk_to_file c2 dir)
  ∧ (let md := DocumentProcessor.mkMetadata "" 0 "" "" in
     let c1 := DocumentProcessor.mkProcessedChunk
                 "https://ex.com/a-b" 0 DocumentProcessor.JNull
                 DocumentProcessor.JNull "first" md DocumentProcessor.JNull in
     let c2 := DocumentProcessor.mkProcessedChunk
                 "https://ex.com/a_b" 0 DocumentProcessor.JNull
                 DocumentProcessor.JNull "second" md DocumentProcessor.JNull in
     let dir := DocumentProcessor.save_chunk_to_file c2
                  (DocumentProcessor.save_chunk_to_file c1 ∅) in
     c1 ≠ c2
     ∧ dom dir = {["ex_com_a_b_chunk_0.json"]}
     ∧ dir !! "ex_com_a_b_chunk_0.json" = Some c2).
Proof.
  split; [|split; [|split]].
  - exists "https://ex.com/a-b", "https://ex.com/a_b".
    split; [discriminate | vm_compute; reflexivity].
  - cbv zeta. split; [|vm_compute; reflexivity].
    vm_compute. discriminate.
  - intros c1 c2 dir Hs Hn.
    assert (Hf : DocumentProcessor.chunk_filename c1
                 = DocumentProcessor.chunk_filename c2).
    { unfold DocumentProcessor.chunk_filename. by rewrite Hs, Hn. }
    split; [exact Hf|].
    unfold DocumentProcessor.save_chunk_to_file. rewrite Hf.
    split; [apply lookup_insert_eq|]. split; [apply lookup_insert_eq|].
    apply insert_insert_eq.
  - intros md c1 c2 dir.
    assert (H1 : DocumentProcessor.chunk_filename c1 = "ex_com_a_b_chunk_0.json")
      by (vm_compute; reflexivity).
    assert (H2 : DocumentProcessor.chunk_filename c2 = "ex_com_a_b_chunk_0.json")
      by (vm_compute; reflexivity).
    split; [discriminate|].
    unfold dir, DocumentProcessor.save_chunk_to_file. rewrite H1, H2.
    split; [|apply lookup_insert_eq].
    rewrite insert_insert_eq, dom_insert_L, dom_empty_L.
    apply (right_id_L ∅ (∪)).
Qed.

(** ** Doubles ([chunk_size * 0.3]) *)

Section FloatFacts.
Import PyFloat.

(** The parts of a rounding: the shift, the kept part and whether it goes up. *)
Lemma round_parts (m e : Z) :
  exists k q',
    round m e = mkFloat (Z.sgn m * q') (e + k)
    ∧ 0 <= k ∧ k = Z.max 0 (Z.log2 (Z.abs m) - 52)
    ∧ Z.abs m / 2 ^ k <= q' <= Z.abs m / 2 ^ k + 1
    ∧ (k = 0 -> q' = Z.abs m)
    ∧ (1 <= k -> q' * 2 ^ k <= Z.abs m + 2 ^ (k - 1)).
Proof.
  unfold round. cbv zeta.
  set (a := Z.abs m). set (k := Z.max 0 (Z.log2 a - 52)).
  assert (Hk : 0 <= k) by (unfold k; lia).
  assert (Hp : 0 < 2 ^ k) by (apply Z.pow_pos_nonneg; lia).
  pose proof (Z.div_mod a (2 ^ k) ltac:(lia)) as Hdm.
  pose proof (Z.mod_pos_bound a (2 ^ k) Hp) as Hr.
  set (q := a / 2 ^ k) in *. set (r := a mod 2 ^ k) in *.
  eexists k, _. split; [reflexivity|]. split; [done|]. split; [done|].
  split; [destruct (_ || _); lia|]. split.
  - intros Hk0. rewrite Hk0 in *. change (2 ^ 0) with 1 in *.
    assert (r = 0) as Hr0 by lia. rewrite Hr0.
    replace (1 <? 2 * 0) with false by reflexivity.
    replace (1 =? 2 * 0) with false by reflexivity. simpl. lia.
  - intros Hk1.
    assert (Hh : 2 ^ k = 2 * 2 ^ (k - 1)).
    { rewrite <- Z.pow_succ_r by lia. f_equal. lia. }
    destruct ((2 ^ k <? 2 * r) || ((2 ^ k =? 2 * r) && Z.odd q)) eqn:Eup; [|lia].
    assert (Hge : 2 ^ k <= 2 * r).
    { apply orb_prop in Eup as [H%Z.ltb_lt|[H%Z.eqb_eq _]%andb_prop]; lia. }
    replace ((q + 1) * 2 ^ k) with (2 ^ k * q + 2 ^ k) by ring. lia.
Qed.

Lemma round_mantissa_pos (m e : Z) : 0 < m -> 0 < mantissa (round m e).
Proof.
  intros Hm. destruct (round_parts m e) as (k & q' & -> & Hk & Ek & Hq & _).
  cbn [mantissa]. rewrite Z.sgn_pos by done.
  assert (1 <= Z.abs m / 2 ^ k); [|lia].
  apply Z.div_le_lower_bound; [apply Z.pow_pos_nonneg; lia|].
  rewrite Z.mul_1_r. rewrite Z.abs_eq by lia.
  destruct (Z.max_spec 0 (Z.log2 (Z.abs m) - 52)) as [[_ E]|[_ E]];
    rewrite E in Ek; subst k.
  - rewrite Z.abs_eq by lia.
    transitivity (2 ^ Z.log2 m); [|apply Z.log2_spec; lia].
    apply Z.pow_le_mono_r; [lia|]. pose proof (Z.log2_nonneg m). lia.
  - simpl. lia.
Qed.

Lemma of_int_is_Some (n : Z) :
  Z.abs n < 2 ^ 1024 - 2 ^ 970 -> is_Some (of_int n).
Proof.
  intros Hn. unfold of_int. cbv zeta.
  destruct (round_parts n 0) as (k & q' & -> & Hk & Ek & Hq & Hk0 & Hk1).
  cbn [mantissa exponent]. rewrite Z.add_0_l.
  assert (Hq0 : 0 <= q').
  { pose proof (Z.div_pos (Z.abs n) (2 ^ k) ltac:(lia)
                  ltac:(apply Z.pow_pos_nonneg; lia)). lia. }
  assert (Habs : Z.abs (Z.sgn n * q') <= q').
  { destruct (Z.sgn_spec n) as [[_ ->]|[[_ ->]|[_ ->]]]; lia. }
  assert (Hprod : q' * 2 ^ k < 2 ^ 1024).
  { destruct (Z.eq_dec k 0) as [E0|Hne].
    - rewrite E0, (Hk0 E0). change (2 ^ 0) with 1. lia.
    - specialize (Hk1 ltac:(lia)).
      assert (Hlog : Z.log2 (Z.abs n) <= 1023).
      { destruct (Z.eq_dec (Z.abs n) 0) as [->|Hnz]; [simpl; lia|].
        assert (Z.log2 (Z.abs n) < 1024); [|lia].
        apply Z.log2_lt_pow2; lia. }
      assert (Hk971 : k - 1 <= 970) by lia.
      assert (2 ^ (k - 1) <= 2 ^ 970) by (apply Z.pow_le_mono_r; lia).
      lia. }
  assert (0 < 2 ^ k) by (apply Z.pow_pos_nonneg; lia).
  destruct (Z.leb_spec (2 ^ 1024) (Z.abs (Z.sgn n * q') * 2 ^ k)); [nia|].
  by eexists.
Qed.

Lemma int_mul_is_Some (n : Z) (y : float) :
  Z.abs n < 2 ^ 1024 - 2 ^ 970 -> is_Some (int_mul n y).
Proof.
  intros Hn. unfold int_mul. destruct (of_int_is_Some n Hn) as [x ->]. by eexists.
Qed.

Lemma int_gt_pos (i : Z) (x : float) :
  0 < mantissa x -> int_gt i x = true -> 1 <= i.
Proof.
  intros Hm. unfold int_gt. destruct (Z.leb_spec 0 (exponent x)).
  - intros Hlt%Z.ltb_lt.
    assert (0 < 2 ^ exponent x) by (apply Z.pow_pos_nonneg; lia). nia.
  - intros Hlt%Z.ltb_lt.
    assert (0 < 2 ^ (- exponent x)) by (apply Z.pow_pos_nonneg; lia). nia.
Qed.

Lemma int_gt_mono (i j : Z) (x : float) :
  i <= j -> int_gt i x = true -> int_gt j x = true.
Proof.
  intros Hij. unfold int_gt. destruct (Z.leb_spec 0 (exponent x)).
  - rewrite !Z.ltb_lt. lia.
  - rewrite !Z.ltb_lt.
    assert (0 < 2 ^ (- exponent x)) by (apply Z.pow_pos_nonneg; lia). nia.
Qed.

Lemma threshold_pos (n : Z) (t : float) :
  1 <= n -> int_mul n c_0_3 = Some t -> 0 < mantissa t.
Proof.
  intros Hn. unfold int_mul, of_int. cbv zeta.
  pose proof (round_mantissa_pos n 0 ltac:(lia)) as Hx.
  destruct (_ <=? _); [done|]. intros [= <-].
  unfold mul. apply round_mantissa_pos.
  change (mantissa c_0_3) with 5404319552844595. lia.
Qed.

(** For a chunk size below 2^53 the threshold is not passed by an index
    strictly below three tenths of the size. *)
Lemma below_threshold (n i : Z) :
  1 <= n < 2 ^ 53 -> 10 * i < 3 * n ->
  exists t, int_mul n c_0_3 = Some t ∧ int_gt i t = false.
Proof.
  intros Hn Hi.
  assert (Hx : of_int n = Some (mkFloat n 0)).
  { unfold of_int. cbv zeta.
    destruct (round_parts n 0) as (k & q' & -> & Hk & Ek & Hq & Hk0 & _).
    assert (Hlog : Z.log2 (Z.abs n) < 53) by (apply Z.log2_lt_pow2; lia).
    assert (k = 0) as -> by lia. rewrite (Hk0 eq_refl).
    cbn [mantissa exponent]. rewrite Z.sgn_pos, Z.abs_eq by lia.
    rewrite Z.mul_1_l, Z.abs_eq by lia. change (2 ^ (0 + 0)) with 1.
    destruct (Z.leb_spec (2 ^ 1024) (n * 1)); [lia|]. done. }
  unfold int_mul. rewrite Hx. eexists. split; [reflexivity|].
  unfold mul. cbn [mantissa exponent]. change (mantissa c_0_3) with 5404319552844595.
  change (exponent c_0_3) with (-54).
  destruct (round_parts (n * 5404319552844595) (0 + -54))
    as (k & q' & -> & Hk & Ek & Hq & _).
  rewrite Z.sgn_pos by lia. rewrite Z.abs_eq in * by lia.
  assert (Hlog : Z.log2 (n * 5404319552844595) < 106).
  { apply Z.log2_lt_pow2; [lia|]. 
    assert (5404319552844595 < 2 ^ 53) by reflexivity. 
    change (2 ^ 106) with (2 ^ 53 * 2 ^ 53). nia. }
  assert (Hk53 : k <= 53) by lia.
  unfold int_gt. cbn [mantissa exponent].
  destruct (Z.leb_spec 0 (0 + -54 + k)); [lia|].
  apply Z.ltb_ge. rewrite Z.mul_1_l.
  replace (- (0 + -54 + k)) with (54 - k) by lia.
  assert (Hp : 0 < 2 ^ k) by (apply Z.pow_pos_nonneg; lia).
  transitivity (n * 5404319552844595 / 2 ^ k); [|lia].
  apply Z.div_le_lower_bound; [done|].
  replace (2 ^ k * (i * 2 ^ (54 - k))) with (i * (2 ^ k * 2 ^ (54 - k))) by ring.
  rewrite <- Z.pow_add_r by lia. replace (k + (54 - k)) with 54 by lia.
  change (2 ^ 54) with 18014398509481984.
  change (2 ^ 53) with 9007199254740992 in Hn. lia.
Qed.

(** The bound is exact: from [2^1024 - 2^970] on, the conversion
    overflows. *)
Lemma of_int_None (n : Z) :
  2 ^ 1024 - 2 ^ 970 <= Z.abs n -> of_int n = None.
Proof.
  intros Hn. unfold of_int, round. cbv zeta. cbn [mantissa exponent].
  set (a := Z.abs n) in *. rewrite Z.add_0_l.
  assert (Ha : 0 < a) by (assert (0 < 2 ^ 1024 - 2 ^ 970) by reflexivity; lia).
  assert (Hsgn : forall z, 0 <= z -> Z.abs (Z.sgn n * z) = z).
  { intros z Hz. unfold a in Ha.
    destruct (Z.sgn_spec n) as [[_ ->]|[[? _]|[_ ->]]]; lia. }
  set (k := Z.max 0 (Z.log2 a - 52)).
  assert (Hk : 0 <= k) by (unfold k; lia).
  assert (Hp : 0 < 2 ^ k) by (apply Z.pow_pos_nonneg; lia).
  pose proof (Z.div_mod a (2 ^ k) ltac:(lia)) as Hdm.
  pose proof (Z.mod_pos_bound a (2 ^ k) Hp) as Hr.
  set (q := a / 2 ^ k) in *. set (r := a mod 2 ^ k) in *.
  assert (Hq0 : 0 <= q) by (apply Z.div_pos; lia).
  destruct (Z.le_gt_cases (2 ^ 1024) a) as [Hbig|Hsmall].
  - assert (Hlog : 1024 <= Z.log2 a) by (apply Z.log2_le_pow2; lia).
    assert (Ek : k = Z.log2 a - 52) by (unfold k; lia).
    assert (Hq : 2 ^ 52 <= q).
    { apply Z.div_le_lower_bound; [done|].
      rewrite <- Z.pow_add_r by lia. replace (k + 52) with (Z.log2 a) by lia.
      apply Z.log2_spec. lia. }
    assert (Hge : 2 ^ 1024 <= q * 2 ^ k).
    { transitivity (2 ^ 52 * 2 ^ k); [|nia].
      rewrite <- Z.pow_add_r by lia. apply Z.pow_le_mono_r; lia. }
    match goal with |- context [Z.sgn n * ?x] => set (q' := x) end.
    assert (Hq' : q <= q') by (unfold q'; destruct (_ || _); lia).
    rewrite Hsgn by lia.
    rewrite (proj2 (Z.leb_le (2 ^ 1024) (q' * 2 ^ k))); [done|].
    transitivity (q * 2 ^ k); [exact Hge|]. apply Z.mul_le_mono_nonneg_r; lia.
  - assert (Hlog : Z.log2 a = 1023).
    { apply Z.log2_unique; [lia|]. split; [|exact Hsmall].
      assert (2 ^ 1023 <= 2 ^ 1024 - 2 ^ 970) by (vm_compute; discriminate). lia. }
    assert (Ek : k = 971) by (unfold k; lia).
    clearbody k q r. subst k.
    assert (Hq : q = 2 ^ 53 - 1).
    { assert (E1 : 2 ^ 1024 = 2 ^ 53 * 2 ^ 971) by reflexivity.
      assert (E2 : 2 ^ 971 = 2 * 2 ^ 970) by reflexivity.
      nia. }
    assert (Hr2 : 2 ^ 971 <= 2 * r).
    { assert (E1 : 2 ^ 1024 = 2 ^ 53 * 2 ^ 971) by reflexivity.
      assert (E2 : 2 ^ 971 = 2 * 2 ^ 970) by reflexivity.
      subst q. nia. }
    assert (Hup : (2 ^ 971 <? 2 * r) || ((2 ^ 971 =? 2 * r) && Z.odd q) = true).
    { subst q. destruct (Z.ltb_spec (2 ^ 971) (2 * r)); [done|].
      rewrite (proj2 (Z.eqb_eq (2 ^ 971) (2 * r))) by lia. reflexivity. }
    rewrite Hup, Hsgn by lia. subst q.
    replace (2 ^ 53 - 1 + 1) with (2 ^ 53) by reflexivity.
    reflexivity.
Qed.

End FloatFacts.

(** ** Chunker (DocumentProcessor.py) *)

Section SliceFacts.

Lemma len_cons (c : ascii) (s : string) : PyStr.len (String c s) = 1 + PyStr.len s.
Proof. unfold PyStr.len. simpl String.length. lia. Qed.

Lemma len_nonneg (s : string) : 0 <= PyStr.len s.
Proof. unfold PyStr.len. lia. Qed.

Lemma substring_length (s : string) (n m : nat) :
  (n + m <= String.length s)%nat -> String.length (String.substring n m s) = m.
Proof.
  revert n m. induction s as [|c s IH]; intros n m H; simpl in H.
  - assert (n = 0)%nat as -> by lia. assert (m = 0)%nat as -> by lia. done.
  - destruct n as [|n]; simpl.
    + destruct m as [|m]; simpl; [done|]. rewrite IH; [done | lia].
    + apply IH. lia.
Qed.

Lemma substring_app (s : string) (n m1 m2 : nat) :
  String.substring n m1 s +:+ String.substring (n + m1) m2 s
  = String.substring n (m1 + m2) s.
Proof.
  revert n m1. induction s as [|c s IH]; intros n m1.
  - destruct n, m1, m2; reflexivity.
  - destruct n as [|n].
    + destruct m1 as [|m1]; [reflexivity|].
      simpl. rewrite app_cons. f_equal. apply (IH 0%nat m1).
    + simpl. apply IH.
Qed.

Lemma substring_all (s : string) : String.substring 0 (String.length s) s = s.
Proof. induction s as [|c s IH]; simpl; [done | by rewrite IH]. Qed.

Lemma slice_substring (s : string) (a b : Z) :
  0 <= a <= b -> b <= PyStr.len s ->
  PyStr.slice s a b = String.substring (Z.to_nat a) (Z.to_nat (b - a)) s.
Proof.
  intros Ha Hb. unfold PyStr.slice, PyStr.clamp.
  rewrite (proj2 (Z.ltb_ge a 0)) by lia.
  rewrite (proj2 (Z.ltb_ge b 0)) by lia.
  by rewrite !Z.min_l by lia.
Qed.

Lemma slice_len (s : string) (a b : Z) :
  0 <= a <= b -> b <= PyStr.len s -> PyStr.len (PyStr.slice s a b) = b - a.
Proof.
  intros Ha Hb. rewrite slice_substring by done.
  unfold PyStr.len in *. rewrite substring_length; lia.
Qed.

Lemma slice_app (s : string) (a m b : Z) :
  0 <= a <= m -> m <= b -> b <= PyStr.len s ->
  PyStr.slice s a m +:+ PyStr.slice s m b = PyStr.slice s a b.
Proof.
  intros Ha Hm Hb. rewrite !slice_substring by lia.
  replace (Z.to_nat m) with (Z.to_nat a + Z.to_nat (m - a))%nat by lia.
  rewrite substring_app. f_equal. lia.
Qed.

Lemma slice_all (s : string) : PyStr.slice s 0 (PyStr.len s) = s.
Proof.
  rewrite slice_substring by (pose proof (len_nonneg s); lia).
  unfold PyStr.len. rewrite Z.sub_0_r, Nat2Z.id. apply substring_all.
Qed.

Lemma slice_empty (s : string) (a : Z) :
  0 <= a <= PyStr.len s -> PyStr.slice s a a = "".
Proof.
  intros Ha. rewrite slice_substring by lia. rewrite Z.sub_diag.
  generalize (Z.to_nat a). clear. induction s as [|c s IH]; intros [|n]; simpl; auto.
Qed.

Lemma rfind_from_bounds (sub s : string) (i : Z) :
  PyStr.rfind_from sub s i = -1
  ∨ (i <= PyStr.rfind_from sub s i
     ∧ PyStr.rfind_from sub s i + PyStr.len sub <= i + PyStr.len s).
Proof.
  revert i. induction s as [|c s IH]; intros i.
  - simpl. destruct sub; simpl; [right|left; reflexivity].
    unfold PyStr.len; simpl. lia.
  - cbn [PyStr.rfind_from]. cbv zeta.
    destruct (IH (i + 1)) as [E|[H1 H2]].
    + rewrite E. replace (0 <=? -1) with false by reflexivity.
      destruct (String.prefix sub (String c s)) eqn:P; [right|by left].
      apply prefix_length in P. unfold PyStr.len. lia.
    + destruct (0 <=? PyStr.rfind_from sub s (i + 1)) eqn:Z0.
      * right. rewrite len_cons. lia.
      * destruct (String.prefix sub (String c s)) eqn:P; [right|by left].
        apply prefix_length in P. unfold PyStr.len. lia.
Qed.

Lemma rfind_bounds (s sub : string) :
  PyStr.rfind s sub = -1
  ∨ (0 <= PyStr.rfind s sub ∧ PyStr.rfind s sub + PyStr.len sub <= PyStr.len s).
Proof. unfold PyStr.rfind. destruct (rfind_from_bounds sub s 0); [by left | right; lia]. Qed.

Lemma strip_nonspace (s : string) :
  PyStr.forallb (fun c => negb (PyStr.isspace c)) s = true ->
  PyStr.strip PyStr.isspace s = s.
Proof.
  intros H. unfold PyStr.strip.
  assert (Hl : PyStr.lstrip PyStr.isspace s = s).
  { destruct s as [|c s]; [done|]. simpl in *.
    apply andb_prop in H as [Hc _]. by destruct (PyStr.isspace c). }
  rewrite Hl. clear Hl.
  induction s as [|c s IH]; [done|]. simpl in *.
  apply andb_prop in H as [Hc Hs]. rewrite (IH Hs).
  destruct s; [|done]. by destruct (PyStr.isspace c).
Qed.

End SliceFacts.

Section ChunkerFacts.
Import DocumentProcessor.

(** Once the threshold is known to be a double, the boundary search
    returns one of its four candidates. *)
Lemma chunk_end_cases (text : string) (chunk_size start : Z) (t : PyFloat.float) :
  PyFloat.int_mul chunk_size PyFloat.c_0_3 = Some t ->
  let end_ := Z.min (start + chunk_size) (PyStr.len text) in
  let chunk := PyStr.slice text start end_ in
  exists e,
    chunk_end text chunk_size start = Ok e
    ∧ ((e = start + PyStr.rfind chunk code_fence
        ∧ PyFloat.int_gt (PyStr.rfind chunk code_fence) t = true)
       ∨ (e = start + PyStr.rfind chunk paragraph_break
          ∧ PyFloat.int_gt (PyStr.rfind chunk paragraph_break) t = true)
       ∨ (e = start + PyStr.rfind chunk sentence_break + 1
          ∧ PyFloat.int_gt (PyStr.rfind chunk sentence_break) t = true)
       ∨ e = end_).
Proof.
  intros Ht end_ chunk. unfold chunk_end, past_threshold. rewrite Ht. cbv zeta.
  fold end_. fold chunk. cbn [bind].
  destruct (PyFloat.int_gt (PyStr.rfind chunk code_fence) t) eqn:E1;
    [eexists; split; [reflexivity|]; by left|].
  destruct (PyFloat.int_gt (PyStr.rfind chunk paragraph_break) t) eqn:E2;
    [eexists; split; [reflexivity|]; right; by left|].
  destruct (PyFloat.int_gt (PyStr.rfind chunk sentence_break) t) eqn:E3;
    [eexists; split; [reflexivity|]; right; right; by left|].
  eexists. split; [reflexivity|]. by repeat right.
Qed.

(** For a positive chunk size that fits a double every iteration ends
    strictly after its start, inside the text, and no further than the
    chunk size allows. *)
Lemma chunk_end_bounds (text : string) (chunk_size start : Z) (t : PyFloat.float) :
  1 <= chunk_size -> PyFloat.int_mul chunk_size PyFloat.c_0_3 = Some t ->
  0 <= start < PyStr.len text ->
  exists e, chunk_end text chunk_size start = Ok e
            ∧ start < e <= PyStr.len text ∧ e <= start + chunk_size.
Proof.
  intros Hcs Ht Hs.
  destruct (chunk_end_cases text chunk_size start t Ht) as (e & -> & Hc).
  exists e. split; [done|]. revert Hc.
  set (end_ := Z.min (start + chunk_size) (PyStr.len text)).
  assert (He : start < end_ <= PyStr.len text) by (unfold end_; lia).
  assert (He' : end_ <= start + chunk_size) by (unfold end_; lia).
  assert (Hl : PyStr.len (PyStr.slice text start end_) = end_ - start)
    by (apply slice_len; lia).
  pose proof (rfind_bounds (PyStr.slice text start end_) code_fence) as H1.
  pose proof (rfind_bounds (PyStr.slice text start end_) paragraph_break) as H2.
  pose proof (rfind_bounds (PyStr.slice text start end_) sentence_break) as H3.
  rewrite Hl in H1, H2, H3.
  change (PyStr.len code_fence) with 3 in H1.
  change (PyStr.len paragraph_break) with 2 in H2.
  change (PyStr.len sentence_break) with 2 in H3.
  pose proof (threshold_pos chunk_size t Hcs Ht) as Hpos.
  intros [[-> Hg%(int_gt_pos _ _ Hpos)]|[[-> Hg%(int_gt_pos _ _ Hpos)]
         |[[-> Hg%(int_gt_pos _ _ Hpos)]| ->]]]; lia.
Qed.

Lemma chunk_spans_total (fuel : nat) (text : string) (chunk_size start : Z)
      (t : PyFloat.float) :
  PyFloat.int_mul chunk_size PyFloat.c_0_3 = Some t ->
  (Z.to_nat (PyStr.len text - start) <= fuel)%nat ->
  exists spans, chunk_spans fuel text chunk_size start = Some (Ok spans).
Proof.
  intros Ht. revert start. induction fuel as [|fuel IH]; intros start Hf; simpl.
  - destruct (Z.ltb_spec start (PyStr.len text)); [lia | by eexists].
  - destruct (Z.ltb_spec start (PyStr.len text)); [|by eexists].
    destruct (chunk_end_cases text chunk_size start t Ht) as (e & -> & _).
    destruct (IH (Z.max (start + 1) e)) as [spans E]; [lia|].
    rewrite E. by eexists.
Qed.

(** A chunk size that does not fit a double makes the first iteration
    raise, whatever the text, unless it is empty. *)
Lemma chunk_text_overflow (text : string) (chunk_size : Z) :
  text ≠ "" -> 2 ^ 1024 - 2 ^ 970 <= Z.abs chunk_size ->
  chunk_text text chunk_size = Some (Raise OverflowError).
Proof.
  intros Hne Hbig. unfold chunk_text.
  destruct text as [|c text]; [done|]. cbn [String.length chunk_loop].
  rewrite len_cons. pose proof (len_nonneg text).
  rewrite (proj2 (Z.ltb_lt 0 (1 + PyStr.len text))) by lia.
  unfold chunk_end, past_threshold, PyFloat.int_mul. cbv zeta.
  by rewrite (of_int_None chunk_size Hbig).
Qed.

Lemma trimmed_app (l1 l2 : list string) :
  trimmed (l1 ++ l2) = trimmed l1 ++ trimmed l2.
Proof. unfold trimmed. by rewrite fmap_app, filter_app. Qed.

Lemma trimmed_cons (s : string) (l : list string) :
  trimmed (s :: l)
  = (if nonempty (PyStr.strip PyStr.isspace s)
     then [PyStr.strip PyStr.isspace s] else []) ++ trimmed l.
Proof.
  unfold trimmed. rewrite fmap_cons, filter_cons.
  destruct (nonempty (PyStr.strip PyStr.isspace s)) eqn:E.
  - by rewrite decide_True.
  - by rewrite decide_False by discriminate.
Qed.

(** The chunks are the trimmed, non-empty slices of the recorded spans. *)
Lemma chunk_loop_spans (fuel : nat) (text : string) (chunk_size start : Z)
      (chunks : list string) :
  chunk_loop fuel text chunk_size start chunks
  = result_map (fun spans => chunks ++ trimmed (span_text text <$> spans))
      <$> chunk_spans fuel text chunk_size start.
Proof.
  revert start chunks. induction fuel as [|fuel IH]; intros start chunks; simpl.
  - destruct (start <? PyStr.len text); [done|].
    simpl. unfold trimmed. simpl. by rewrite app_nil_r.
  - destruct (start <? PyStr.len text).
    + destruct (chunk_end text chunk_size start) as [e|ex]; [|done].
      rewrite IH.
      destruct (chunk_spans fuel text chunk_size (Z.max (start + 1) e))
        as [[spans|ex]|]; [|done..].
      simpl. do 2 f_equal. rewrite trimmed_cons. unfold span_text at 1 2. simpl.
      destruct (nonempty _); [by rewrite <- app_assoc | reflexivity].
    + simpl. unfold trimmed. simpl. by rewrite app_nil_r.
Qed.

Lemma chunk_spans_tiles (fuel : nat) (text : string) (chunk_size start : Z)
      (t : PyFloat.float) :
  1 <= chunk_size -> PyFloat.int_mul chunk_size PyFloat.c_0_3 = Some t ->
  0 <= start <= PyStr.len text ->
  (Z.to_nat (PyStr.len text - start) <= fuel)%nat ->
  exists spans, chunk_spans fuel text chunk_size start = Some (Ok spans)
                ∧ tiles spans start (PyStr.len text).
Proof.
  intros Hcs Ht. revert start.
  induction fuel as [|fuel IH]; intros start Hs Hf; simpl.
  - destruct (Z.ltb_spec start (PyStr.len text)); [lia|].
    exists []. split; [done|]. simpl. lia.
  - destruct (Z.ltb_spec start (PyStr.len text)).
    + destruct (chunk_end_bounds text chunk_size start t Hcs Ht)
        as (e & -> & Hb & _); [lia|].
      rewrite Z.max_r by lia.
      destruct (IH e) as (spans & E & Ht'); [lia | lia |].
      rewrite E. eexists. split; [done|]. simpl. split; [done|]. split; [lia|done].
    + exists []. split; [done|]. simpl. lia.
Qed.

Lemma tiles_le (spans : list (Z * Z)) (a b : Z) : tiles spans a b -> a <= b.
Proof.
  revert a. induction spans as [|sp spans IH]; intros a; simpl; [lia|].
  intros (_ & Hlt & Ht). apply IH in Ht. lia.
Qed.

Lemma join_cons (s : string) (l : list string) : join (s :: l) = s +:+ join l.
Proof. reflexivity. Qed.

Lemma join_tiles (text : string) (spans : list (Z * Z)) (a b : Z) :
  0 <= a -> b <= PyStr.len text -> tiles spans a b ->
  join (span_text text <$> spans) = PyStr.slice text a b.
Proof.
  revert a. induction spans as [|[s e] spans IH]; intros a Ha Hb Ht.
  - simpl in Ht. subst b. symmetry. apply slice_empty. lia.
  - cbn [tiles fst snd] in Ht. destruct Ht as (-> & Hlt & Ht).
    pose proof (tiles_le _ _ _ Ht).
    rewrite fmap_cons, join_cons, (IH e) by (done || lia).
    unfold span_text. cbn [fst snd]. apply slice_app; lia.
Qed.

(** Slices of a text without whitespace are untouched by the trimming, and
    the non-empty ones are all kept. *)
Lemma trimmed_nonspace (text : string) (spans : list (Z * Z)) (a b : Z) :
  PyStr.forallb (fun c => negb (PyStr.isspace c)) text = true ->
  0 <= a -> b <= PyStr.len text -> tiles spans a b ->
  trimmed (span_text text <$> spans) = span_text text <$> spans.
Proof.
  intros Hns. revert a.
  induction spans as [|[s e] spans IH]; intros a Ha Hb Ht; [done|].
  cbn [tiles fst snd] in Ht. destruct Ht as (-> & Hlt & Ht).
  pose proof (tiles_le _ _ _ Ht).
  rewrite fmap_cons, trimmed_cons, (IH e) by (done || lia).
  unfold span_text at 1 2 4. cbn [fst snd].
  assert (Hstrip : PyStr.strip PyStr.isspace (PyStr.slice text a e)
                   = PyStr.slice text a e).
  { apply strip_nonspace. rewrite slice_substring by lia.
    by apply forallb_substring. }
  rewrite Hstrip.
  assert (Hlen : PyStr.len (PyStr.slice text a e) = e - a) by (apply slice_len; lia).
  destruct (PyStr.slice text a e) as [|c r]; [|done].
  unfold PyStr.len in Hlen. simpl in Hlen. lia.
Qed.

End ChunkerFacts.

(** C4, as stated, fails at both ends of the range of chunk sizes. With
    chunk size 0 every window is empty, the offset advances one character at
    a time and nothing is emitted, so a text without any whitespace is not
    reconstructed. With a chunk size that does not fit a double, forming
    [chunk_size * 0.3] raises [OverflowError] in the first iteration. *)
Lemma chunk_text_zero_size_loses_text :
  PyStr.forallb (fun c => negb (PyStr.isspace c)) "ab" = true
  ∧ DocumentProcessor.chunk_spans 2 "ab" 0 0
    = Some (DocumentProcessor.Ok [(0, 0); (1, 1)])
  ∧ DocumentProcessor.chunk_text "ab" 0 = Some (DocumentProcessor.Ok [])
  ∧ DocumentProcessor.result_map DocumentProcessor.join
      <$> DocumentProcessor.chunk_text "ab" 0
    ≠ Some (DocumentProcessor.Ok "ab")
  ∧ DocumentProcessor.chunk_text "ab" (10 ^ 400)
    = Some (DocumentProcessor.Raise DocumentProcessor.OverflowError).
Proof.
  split; [vm_compute; reflexivity|]. split; [vm_compute; reflexivity|].
  split; [vm_compute; reflexivity|]. split; [vm_compute; discriminate|].
  vm_compute. reflexivity.
Qed.

(** C4 (amended): for every text and every chunk size of at least 1 that
    fits a double, the loop slices the text along spans that tile it from
    offset 0 to its length without gap or overlap; the slices concatenated
    in order are the text; and the chunks returned are these slices, each
    trimmed of edge whitespace, with the ones that trim to nothing
    dropped. *)
Theorem chunk_text_reconstructs (text : string) (chunk_size : Z) :
  1 <= chunk_size < 2 ^ 1024 - 2 ^ 970 ->
  exists spans : list (Z * Z),
    DocumentProcessor.tiles spans 0 (PyStr.len text)
    ∧ DocumentProcessor.join (DocumentProcessor.span_text text <$> spans) = text
    ∧ DocumentProcessor.chunk_text text chunk_size
      = Some (DocumentProcessor.Ok
                (DocumentProcessor.trimmed
                   (DocumentProcessor.span_text text <$> spans))).
Proof.
  intros [Hcs Hmax]. pose proof (len_nonneg text) as Hl.
  destruct (int_mul_is_Some chunk_size PyFloat.c_0_3) as [t Ht]; [lia|].
  destruct (chunk_spans_tiles (String.length text) text chunk_size 0 t Hcs Ht)
    as (spans & E & Htl); [lia | unfold PyStr.len; lia |].
  exists spans. split; [exact Htl|]. split.
  - rewrite (join_tiles text spans 0 (PyStr.len text)) by (done || lia).
    apply slice_all.
  - unfold DocumentProcessor.chunk_text. rewrite chunk_loop_spans, E. reflexivity.
Qed.

Lemma chunk_text_reconstructs_witness :
  1 <= 12 < 2 ^ 1024 - 2 ^ 970
  ∧ exists spans : list (Z * Z),
      DocumentProcessor.tiles spans 0 (PyStr.len "One two.  Three four. Five")
      ∧ DocumentProcessor.join
          (DocumentProcessor.span_text "One two.  Three four. Five" <$> spans)
        = "One two.  Three four. Five"
      ∧ DocumentProcessor.chunk_text "One two.  Three four. Five" 12
        = Some (DocumentProcessor.Ok
                  (DocumentProcessor.trimmed
                     (DocumentProcessor.span_text "One two.  Three four. Five"
                        <$> spans))).
Proof.
  split; [lia | apply (chunk_text_reconstructs "One two.  Three four. Five" 12); lia].
Defined.

(** C5: for every text, at every chunk size of at least 1 that fits a
    double (the program passes 5000), [chunk_text] terminates, the offset
    advancing by at least one character per iteration; on the empty string
    it returns the empty sequence; and a non-empty text without whitespace
    yields at least one chunk, the chunks concatenated being the whole
    text. *)
Theorem chunk_text_terminates (text : string) (chunk_size : Z) :
  1 <= chunk_size < 2 ^ 1024 - 2 ^ 970 ->
  (exists chunks,
      DocumentProcessor.chunk_text text chunk_size
      = Some (DocumentProcessor.Ok chunks))
  ∧ (forall start, 0 <= start < PyStr.len text ->
       exists end_,
         DocumentProcessor.chunk_end text chunk_size start
         = DocumentProcessor.Ok end_
         ∧ start + 1 <= Z.max (start + 1) end_ <= PyStr.len text)
  ∧ DocumentProcessor.chunk_text "" chunk_size = Some (DocumentProcessor.Ok [])
  ∧ (text ≠ "" ->
     PyStr.forallb (fun c => negb (PyStr.isspace c)) text = true ->
     exists chunks,
       DocumentProcessor.chunk_text text chunk_size
       = Some (DocumentProcessor.Ok chunks)
       ∧ chunks ≠ [] ∧ DocumentProcessor.join chunks = text).
Proof.
  intros [Hcs Hmax]. pose proof (len_nonneg text) as Hl.
  destruct (int_mul_is_Some chunk_size PyFloat.c_0_3) as [t Ht]; [lia|].
  destruct (chunk_spans_tiles (String.length text) text chunk_size 0 t Hcs Ht)
    as (spans & E & Htl); [lia | unfold PyStr.len; lia |].
  assert (Hj : DocumentProcessor.join (DocumentProcessor.span_text text <$> spans)
               = text).
  { rewrite (join_tiles text spans 0 (PyStr.len text)) by (done || lia).
    apply slice_all. }
  split; [|split; [|split]].
  - unfold DocumentProcessor.chunk_text. rewrite chunk_loop_spans, E.
    by eexists.
  - intros start Hs.
    destruct (chunk_end_bounds text chunk_size start t Hcs Ht Hs)
      as (e & He & Hb & _).
    exists e. split; [exact He | lia].
  - reflexivity.
  - intros Hne Hns.
    exists (DocumentProcessor.span_text text <$> spans).
    split; [|split; [|exact Hj]].
    + unfold DocumentProcessor.chunk_text. rewrite chunk_loop_spans, E. simpl.
      do 2 f_equal.
      apply (trimmed_nonspace text spans 0 (PyStr.len text)); done || lia.
    + intros Hnil. rewrite Hnil in Hj. simpl in Hj. congruence.
Qed.

Lemma chunk_text_terminates_witness :
  1 <= 3 < 2 ^ 1024 - 2 ^ 970
  ∧ exists chunks,
      DocumentProcessor.chunk_text "abcdefg" 3
      = Some (DocumentProcessor.Ok chunks)
      ∧ chunks ≠ [] ∧ DocumentProcessor.join chunks = "abcdefg".
Proof.
  split; [lia|].
  apply (proj2 (proj2 (proj2 (chunk_text_terminates "abcdefg" 3 ltac:(lia)))));
    [discriminate | reflexivity].
Defined.

(** ** Fetch scheduler (WebCrawler.py) *)

Section SchedulerFacts.
Import WebCrawler.

Lemma enqueue_links_queued (links : list string) (c : Crawler) :
  queued_urls (enqueue_links c links) = queued_urls c
  ∧ fetched (enqueue_links c links) = fetched c
  ∧ processed_urls (enqueue_links c links) = processed_urls c
  ∧ sitemap (enqueue_links c links) = sitemap c.
Proof.
  unfold enqueue_links. revert c.
  induction links as [|l links IH]; intros c; simpl; [done|].
  destruct (IH (if wanted c l then put c l else c)) as (-> & -> & -> & ->).
  by destruct (wanted c l).
Qed.

Lemma on_stored_queued (c : Crawler) (links anchors : list string) :
  queued_urls (on_stored c links anchors) = queued_urls c
  ∧ fetched (on_stored c links anchors) = fetched c.
Proof.
  unfold on_stored.
  destruct (enqueue_links_queued anchors (enqueue_links c links)) as (-> & -> & _).
  destruct (enqueue_links_queued links c) as (-> & -> & _). done.
Qed.

Lemma get_fields (c c' : Crawler) (url : string) :
  get c = Some (url, c') ->
  queued_urls c' = queued_urls c ∧ fetched c' = fetched c
  ∧ processed_urls c' = processed_urls c.
Proof.
  unfold get. destruct (urls_to_process c); [done|].
  intros [= _ <-]. done.
Qed.

(** A URL already processed or queued stops [process_url] at its guard. *)
Lemma skips_seen (c : Crawler) (url : string) :
  url ∈ processed_urls c ∨ url ∈ queued_urls c -> skips c url = true.
Proof.
  intros [H|H]; unfold skips.
  - by rewrite (bool_decide_eq_true_2 _ H).
  - rewrite (bool_decide_eq_true_2 (url ∈ queued_urls c) H).
    by rewrite orb_true_r.
Qed.

Lemma skips_fresh (c : Crawler) (url : string) :
  skips c url = false -> (url ∉ queued_urls c) ∧ (url ∉ processed_urls c).
Proof.
  unfold skips. intros H.
  apply orb_false_elim in H as [H _]. apply orb_false_elim in H as [H1 H2].
  by apply bool_decide_eq_false in H1, H2.
Qed.

Lemma omap_cons {A B} (f : A -> option B) (x : A) (l : list A) :
  omap f (x :: l)
  = match f x with Some y => y :: omap f l | None => omap f l end.
Proof. reflexivity. Qed.

Lemma waiting_in_tasks (ts : list Task) (u : string) :
  u ∈ omap waiting_url ts -> exists t, t ∈ ts ∧ task_url t = u.
Proof.
  rewrite list_elem_of_omap. intros (t & Ht & Hw). exists t. split; [done|].
  destruct t; simpl in Hw; by inversion Hw.
Qed.

Lemma inv_call_process_url (c : Crawler) (ts1 ts2 : list Task) (url : string) (rc : Z) :
  scheduler_inv (c, ts1 ++ ts2) ->
  scheduler_inv ((call_process_url c url rc).1,
                 ts1 ++ (call_process_url c url rc).2 ++ ts2).
Proof.
  intros (I1 & I2 & I3 & I4). unfold call_process_url.
  destruct (skips c url) eqn:E; [done|].
  apply skips_fresh in E as [Hq _]. simpl in *.
  assert (Hnew : forall t, t ∈ ts1 ++ ts2 -> task_url t ≠ url).
  { intros t Ht Hu. apply Hq. rewrite <- Hu. by apply I1. }
  split; [|split; [|split]]; simpl.
  - intros t Ht. apply elem_of_union.
    rewrite elem_of_app, elem_of_cons in Ht.
    destruct Ht as [Ht|[->|Ht]]; [right|left|right].
    + apply I1, elem_of_app. by left.
    + by apply elem_of_singleton.
    + apply I1, elem_of_app. by right.
  - rewrite fmap_app, fmap_cons. rewrite <- Permutation_middle.
    apply NoDup_cons. rewrite <- fmap_app. split; [|done].
    intros (t & Hu & Ht)%list_elem_of_fmap. by apply (Hnew t).
  - intros u Hu. apply elem_of_union. right. by apply I3.
  - rewrite omap_app, omap_cons. simpl. rewrite <- app_assoc, <- app_comm_cons.
    rewrite <- Permutation_middle. apply NoDup_cons.
    rewrite app_assoc, <- omap_app. split; [|done].
    intros [Hu|Hu]%elem_of_app.
    + apply waiting_in_tasks in Hu as (t & Ht & Hurl). by apply (Hnew t).
    + by apply Hq, I3.
Qed.

Lemma inv_replace (c c' : Crawler) (t1 t2 : list Task) (t : Task) (new : list Task) :
  queued_urls c' = queued_urls c -> fetched c' = fetched c ->
  (forall t', t' ∈ new -> t' = Sleeping (task_url t) (match t' with
                                                       | Sleeping _ rc => rc
                                                       | _ => 0 end)
                         ∨ (exists rc l a, t' = Storing (task_url t) rc l a)) ->
  (length new <= 1)%nat ->
  waiting_url t = None ->
  scheduler_inv (c, t1 ++ t :: t2) ->
  scheduler_inv (c', t1 ++ new ++ t2).
Proof.
  intros Hq Hf Hnew Hlen Hw (I1 & I2 & I3 & I4). simpl in *.
  assert (Hurl : forall t', t' ∈ new -> task_url t' = task_url t
                                        ∧ waiting_url t' = None).
  { intros t' Ht'. destruct (Hnew t' Ht') as [->|(rc & l & a & ->)]; done. }
  assert (Hshape : new = [] ∨ exists t', new = [t']).
  { destruct new as [|t' [|? ?]]; [by left | right; by eexists | simpl in Hlen; lia]. }
  split; [|split; [|split]]; simpl; rewrite ?Hq, ?Hf.
  - intros t' Ht'. rewrite !elem_of_app in Ht'.
    destruct Ht' as [Ht'|[Ht'|Ht']].
    + apply I1, elem_of_app. by left.
    + destruct (Hurl t' Ht') as [-> _]. apply I1, elem_of_app. right. by left.
    + apply I1, elem_of_app. right. by right.
  - rewrite fmap_app, fmap_cons in I2. rewrite !fmap_app.
    destruct Hshape as [->|[t' ->]]; simpl.
    + rewrite <- Permutation_middle in I2. by apply NoDup_cons in I2 as [_ I2].
    + destruct (Hurl t') as [-> _]; [by left | done].
  - done.
  - rewrite omap_app, omap_cons, Hw in I4. rewrite !omap_app.
    destruct Hshape as [->|[t' ->]]; simpl; [done|].
    destruct (Hurl t') as [_ ->]; [by left | done].
Qed.

Lemma inv_step (s s' : Crawler * list Task) :
  step s s' -> scheduler_inv s -> scheduler_inv s'.
Proof.
  intros Hstep Hinv. destruct Hstep.
  - apply get_fields in H as (Hq & Hf & _).
    apply (inv_call_process_url c' [] ts url 0).
    destruct Hinv as (I1 & I2 & I3 & I4). simpl in *.
    unfold scheduler_inv. simpl. by rewrite Hq, Hf.
  - apply get_fields in H as (Hq & Hf & _).
    destruct Hinv as (I1 & I2 & I3 & I4). simpl in *.
    unfold scheduler_inv. simpl. by rewrite Hq, Hf.
  - destruct Hinv as (I1 & I2 & I3 & I4). simpl in *.
    split; [|split; [|split]]; simpl.
    + intros t Ht. rewrite elem_of_app, elem_of_cons in Ht.
      destruct Ht as [Ht|[->|Ht]].
      * apply I1, elem_of_app. by left.
      * apply (I1 (Waiting url rc)), elem_of_app. right. by left.
      * apply I1, elem_of_app. right. by right.
    + by rewrite fmap_app, fmap_cons in *.
    + intros u [Hu|Hu]%elem_of_app; [by apply I3|].
      apply list_elem_of_singleton in Hu as ->.
      apply (I1 (Waiting url rc)), elem_of_app. right. by left.
    + rewrite omap_app, omap_cons in *. simpl in *.
      assert (Hp : (omap waiting_url t1 ++ omap waiting_url t2)
                     ++ fetched c ++ [url]
                   ≡ₚ (omap waiting_url t1 ++ url :: omap waiting_url t2)
                        ++ fetched c).
      { rewrite <- (Permutation_middle (omap waiting_url t1)), <- app_comm_cons.
        rewrite (app_assoc (omap waiting_url t1 ++ omap waiting_url t2)).
        by rewrite <- Permutation_cons_append. }
      by rewrite Hp.
  - apply (inv_replace c (on_success c url) t1 t2 (Fetching url rc)
                       [Storing url rc links anchors]); try done.
    intros t' ->%list_elem_of_singleton. right. by eexists _, _, _.
  - apply (inv_replace c c t1 t2 (Fetching url rc)); try done.
    + unfold after_failure. destruct (retries c rc); [|by intros ? ?%elem_of_nil].
      intros t' ->%list_elem_of_singleton. by left.
    + unfold after_failure. destruct (retries c rc); simpl; lia.
  - destruct (on_stored_queued c links anchors) as [Hq Hf].
    apply (inv_replace c (on_stored c links anchors) t1 t2
                       (Storing url rc links anchors) []); try done.
    + by intros ? ?%elem_of_nil.
    + simpl. lia.
  - apply (inv_replace c c t1 t2 (Storing url rc links anchors)); try done.
    + unfold after_failure. destruct (retries c rc); [|by intros ? ?%elem_of_nil].
      intros t' ->%list_elem_of_singleton. by left.
    + unfold after_failure. destruct (retries c rc); simpl; lia.
  - apply inv_call_process_url.
    apply (inv_replace c c t1 t2 (Sleeping url rc) []) in Hinv; try done.
    + by intros ? ?%elem_of_nil.
    + simpl. lia.
Qed.

Lemma inv_rtc (s s' : Crawler * list Task) :
  rtc step s s' -> scheduler_inv s -> scheduler_inv s'.
Proof.
  induction 1 as [|s1 s2 s3 Hs _ IH]; [done|].
  intros Hinv. by apply IH, (inv_step s1).
Qed.

Lemma inv_reachable (c0 : Crawler) (s : Crawler * list Task) :
  queued_urls c0 = ∅ -> fetched c0 = [] ->
  reachable c0 s -> scheduler_inv s.
Proof.
  intros Hq Hf Hr. apply (inv_rtc _ _ Hr).
  unfold scheduler_inv. simpl. rewrite Hf.
  repeat split; try constructor; by intros ? ?%elem_of_nil.
Qed.

Lemma NoDup_omap_fetching (ts : list Task) :
  NoDup (task_url <$> ts) -> NoDup (in_flight ts).
Proof.
  unfold in_flight. induction ts as [|t ts IH]; [constructor|].
  rewrite fmap_cons. intros [Hn Hd]%NoDup_cons.
  destruct t; simpl; auto.
  apply NoDup_cons. split; [|auto].
  intros (t & Ht & Hf)%list_elem_of_omap. apply Hn.
  apply list_elem_of_fmap. exists t. split; [|done].
  destruct t; simpl in *; by inversion Hf.
Qed.

End SchedulerFacts.

(** C1: in every state the worker pool can reach from the start of
    [crawl_parallel], no URL has been handed to the fetcher twice and no URL
    has two fetches in flight; every URL fetched or in flight is in
    [queued_urls]; a call of [process_url] on a URL that is already
    processed or queued returns at its guard, starting no task and leaving
    the fetch log as it was; and a call that passes the guard has put the
    URL into [queued_urls] by the time it first suspends, before any
    fetch. *)
Theorem at_most_one_fetch_per_url
        (start_url : string) (max_retries : Z)
        (sitemap : SitemapGenerator.Sitemap) (urls : list string)
        (s : WebCrawler.Crawler * list WebCrawler.Task) :
  WebCrawler.reachable
    (WebCrawler.crawl_parallel_init start_url max_retries sitemap urls) s ->
  NoDup (WebCrawler.fetched s.1)
  ∧ NoDup (WebCrawler.in_flight s.2)
  ∧ (forall u, u ∈ WebCrawler.fetched s.1 ∨ u ∈ WebCrawler.in_flight s.2 ->
               u ∈ WebCrawler.queued_urls s.1)
  ∧ (forall url rc,
        url ∈ WebCrawler.processed_urls s.1 ∨ url ∈ WebCrawler.queued_urls s.1 ->
        WebCrawler.call_process_url s.1 url rc = (s.1, [])
        ∧ forall fuel arun,
            WebCrawler.process_url (S fuel) arun s.1 url rc = Some s.1)
  ∧ (forall url rc,
        WebCrawler.skips s.1 url = false ->
        (WebCrawler.call_process_url s.1 url rc).2 = [WebCrawler.Waiting url rc]
        ∧ url ∈ WebCrawler.queued_urls (WebCrawler.call_process_url s.1 url rc).1
        ∧ WebCrawler.fetched (WebCrawler.call_process_url s.1 url rc).1
          = WebCrawler.fetched s.1).
Proof.
  intros Hr. apply inv_reachable in Hr as (I1 & I2 & I3 & I4); [|done..].
  split; [|split; [|split; [|split]]].
  - by apply NoDup_app in I4 as (_ & _ & I4).
  - by apply NoDup_omap_fetching.
  - intros u [Hu|Hu]; [by apply I3|].
    apply list_elem_of_omap in Hu as (t & Ht & Hf).
    specialize (I1 t Ht). destruct t; simpl in Hf; by inversion Hf; subst.
  - intros url rc Hseen. apply skips_seen in Hseen.
    unfold WebCrawler.call_process_url. simpl. by rewrite Hseen.
  - intros url rc Hfresh. unfold WebCrawler.call_process_url.
    rewrite Hfresh. simpl. split; [done|]. split; [|done].
    apply elem_of_union. left. by apply elem_of_singleton.
Qed.

Lemma at_most_one_fetch_per_url_witness :
  let c0 := WebCrawler.crawl_parallel_init
              "https://ex.com/docs" 3
              (SitemapGenerator.init "ex.com" "https://ex.com/docs")
              ["https://ex.com/docs"; "https://ex.com/docs"] in
  let c1 := WebCrawler.mkCrawler
              "https://ex.com/docs" 3 ∅ {["https://ex.com/docs"]}
              (SitemapGenerator.init "ex.com" "https://ex.com/docs")
              ["https://ex.com/docs"] 0 ["https://ex.com/docs"] in
  let s := (c1, [WebCrawler.Fetching "https://ex.com/docs" 0]) in
  WebCrawler.reachable c0 s
  ∧ NoDup (WebCrawler.fetched s.1)
  ∧ NoDup (WebCrawler.in_flight s.2).
Proof.
  intros c0 c1 s.
  assert (Hr : WebCrawler.reachable c0 s).
  { unfold WebCrawler.reachable.
    eapply rtc_l.
    { apply (WebCrawler.step_get c0 [] "https://ex.com/docs"
               (WebCrawler.mkCrawler
                  "https://ex.com/docs" 3 ∅ ∅
                  (SitemapGenerator.init "ex.com" "https://ex.com/docs")
                  ["https://ex.com/docs"] 0 [])); reflexivity. }
    assert (Hcall : WebCrawler.call_process_url
                      (WebCrawler.mkCrawler
                         "https://ex.com/docs" 3 ∅ ∅
                         (SitemapGenerator.init "ex.com" "https://ex.com/docs")
                         ["https://ex.com/docs"] 0 [])
                      "https://ex.com/docs" 0
                    = (WebCrawler.mkCrawler
                         "https://ex.com/docs" 3 ∅ ({["https://ex.com/docs"]} ∪ ∅)
                         (SitemapGenerator.init "ex.com" "https://ex.com/docs")
                         ["https://ex.com/docs"] 0 [],
                       [WebCrawler.Waiting "https://ex.com/docs" 0])).
    { unfold WebCrawler.call_process_url, WebCrawler.skips.
      cbn [WebCrawler.processed_urls WebCrawler.queued_urls WebCrawler.start_url].
      rewrite !bool_decide_eq_false_2 by apply not_elem_of_empty.
      replace (should_crawl_url "https://ex.com/docs" "https://ex.com/docs")
        with true by (vm_compute; reflexivity).
      reflexivity. }
    rewrite Hcall. cbn [fst snd app]. rewrite (right_id_L ∅ (∪)).
    apply rtc_once.
    exact (WebCrawler.step_acquire
             (WebCrawler.mkCrawler
                "https://ex.com/docs" 3 ∅ {["https://ex.com/docs"]}
                (SitemapGenerator.init "ex.com" "https://ex.com/docs")
                ["https://ex.com/docs"] 0 [])
             [] [] "https://ex.com/docs" 0). }
  split; [exact Hr|].
  destruct (at_most_one_fetch_per_url _ _ _ _ _ Hr) as (H1 & H2 & _).
  by split.
Defined.

Section RetryFacts.
Import WebCrawler.

(** A fetch that fails is followed by at most one more call of
    [process_url], and that call stops at the guard: the URL was put into
    [queued_urls] before the first attempt and is never taken out. *)
Lemma process_url_failed_once (fuel : nat) (arun : string -> nat -> FetchOutcome)
      (c : Crawler) (url : string) (rc : Z) :
  skips c url = false ->
  arun url (length (fetched c)) = Failed ∨ arun url (length (fetched c)) = Raised ->
  process_url (S (S fuel)) arun c url rc
  = Some (begin_fetch (mark_queued c url) url).
Proof.
  intros Hfresh Hfail.
  assert (Hseen : skips (begin_fetch (mark_queued c url) url) url = true).
  { apply skips_seen. right. simpl. apply elem_of_union. left.
    by apply elem_of_singleton. }
  cbn [process_url]. rewrite Hfresh. cbv zeta.
  change (fetched (mark_queued c url)) with (fetched c).
  destruct Hfail as [-> | ->];
    (destruct (retries (begin_fetch (mark_queued c url) url) rc);
     [by rewrite Hseen | done]).
Qed.

End RetryFacts.

(** C2 on the code: with a fetcher that fails on every call and
    [max_retries = 3], the URL is handed to the fetcher once, not four
    times. More generally, whatever [max_retries] and the retry counter
    are, a URL whose fetch fails is fetched exactly once by [process_url];
    it is then left out of [processed_urls] and of the sitemap and is not
    put back on the queue. *)
Theorem failing_fetch_attempted_once
        (fuel : nat) (c : WebCrawler.Crawler) (url : string) (rc : Z) :
  WebCrawler.skips c url = false ->
  exists c',
    WebCrawler.process_url (S (S fuel)) (fun _ _ => WebCrawler.Failed) c url rc
      = Some c'
    ∧ WebCrawler.fetched c' = WebCrawler.fetched c ++ [url]
    ∧ WebCrawler.processed_urls c' = WebCrawler.processed_urls c
    ∧ WebCrawler.sitemap c' = WebCrawler.sitemap c
    ∧ WebCrawler.urls_to_process c' = WebCrawler.urls_to_process c.
Proof.
  intros Hfresh. eexists. split.
  - apply process_url_failed_once; [done | by left].
  - done.
Qed.

Lemma failing_fetch_attempted_once_witness :
  let c0 := WebCrawler.crawl_parallel_init
              "https://ex.com/docs" 3
              (SitemapGenerator.init "ex.com" "https://ex.com/docs") [] in
  WebCrawler.skips c0 "https://ex.com/docs" = false
  ∧ WebCrawler.max_retries c0 + 1 = 4
  ∧ exists c',
      WebCrawler.process_url 5 (fun _ _ => WebCrawler.Failed)
                             c0 "https://ex.com/docs" 0 = Some c'
      ∧ WebCrawler.fetched c' = ["https://ex.com/docs"].
Proof.
  intros c0.
  assert (Hs : WebCrawler.skips c0 "https://ex.com/docs" = false).
  { unfold WebCrawler.skips, c0, WebCrawler.crawl_parallel_init.
    cbn [WebCrawler.processed_urls WebCrawler.queued_urls WebCrawler.start_url].
    rewrite !bool_decide_eq_false_2 by apply not_elem_of_empty.
    replace (should_crawl_url "https://ex.com/docs" "https://ex.com/docs")
      with true by (vm_compute; reflexivity).
    reflexivity. }
  split; [exact Hs|]. split; [reflexivity|].
  destruct (failing_fetch_attempted_once 3 c0 "https://ex.com/docs" 0 Hs)
    as (c' & Hrun & Hf & _).
  exists c'. split; [exact Hrun | exact Hf].
Defined.

(** ** Enrichment (ollama_client.py, DocumentProcessor.process_chunk) *)

Section EnrichmentFacts.
Import DocumentProcessor.
Variable json_loads : string -> option json.

(** A generate request that fails in transport, by status, or with a body
    that is not JSON gives the fixed pair, after a single request. *)
Lemma summary_failure_gives_sentinel (reply : HttpReply) :
  reply = ConnectFailed ∨ reply = BadStatus ∨ reply = Body None ->
  get_title_and_summary json_loads reply = error_record.
Proof. by intros [->|[->| ->]]. Qed.

Lemma summary_undecodable_gives_sentinel (data : string) :
  json_loads data = None ->
  get_title_and_summary json_loads
    (Body (Some (JObj [("response", JStr data)]))) = error_record.
Proof. intros H. cbn. by rewrite H. Qed.

(** Three failed embedding attempts, with sleeps of 1 and 2 time units
    between them, give the zero vector. *)
Lemma embedding_failure_gives_zero_vector (replies : nat -> HttpReply) :
  (forall i, exists e, _get_embedding (replies i) = Raise e) ->
  get_embedding replies = (zero_embedding, [1; 2]).
Proof.
  intros H. unfold get_embedding, retry_with_backoff.
  change (Z.to_nat 3) with 3%nat. cbn [retry_from].
  destruct (H 0%nat) as [e0 ->]. destruct (H 1%nat) as [e1 ->].
  destruct (H 2%nat) as [e2 ->]. reflexivity.
Qed.

Lemma zero_embedding_dimension :
  exists items, zero_embedding = JArr items
                ∧ length items = 768%nat
                ∧ Forall (fun x => x = JNum (QArith_base.Qmake 0 1)) items.
Proof.
  eexists. split; [reflexivity|]. split.
  - apply repeat_length.
  - apply Forall_forall. intros x Hx. apply list_elem_of_In in Hx.
    by apply repeat_spec in Hx.
Qed.

(** With both requests failing in these ways the record is complete and
    carries the two sentinels. *)
Lemma process_chunk_fallback_record (env : Ollama) (chunk url : string) (n : nat) :
  generate_reply env = ConnectFailed ∨ generate_reply env = BadStatus
    ∨ generate_reply env = Body None ->
  (forall i, exists e, _get_embedding (embedding_reply env i) = Raise e) ->
  exists md,
    process_chunk json_loads env chunk n url
    = Ok (mkProcessedChunk url n (JStr "Error processing title")
            (JStr "Error processing summary") chunk md zero_embedding).
Proof.
  intros Hg He. unfold process_chunk.
  rewrite (summary_failure_gives_sentinel _ Hg).
  rewrite (embedding_failure_gives_zero_vector _ He).
  eexists. reflexivity.
Qed.

End EnrichmentFacts.

(** C6 on the code: a generate reply whose [response] is a JSON object
    without a [title] key is passed on unchecked, and [process_chunk] raises
    [KeyError] instead of yielding a record; likewise a [response] text that
    decodes to a JSON string makes [process_chunk] raise [TypeError]. *)
Theorem enrichment_raises_on_unchecked_reply
        (json_loads : string -> option DocumentProcessor.json) :
  DocumentProcessor.process_chunk json_loads
    (DocumentProcessor.mkOllama
       (DocumentProcessor.Body
          (Some (DocumentProcessor.JObj
                   [("response",
                     DocumentProcessor.JObj
                       [("heading", DocumentProcessor.JStr "Intro")])])))
       (fun _ => DocumentProcessor.BadStatus)
       "2026-01-01T00:00:00+00:00")
    "Some text" 0 "https://ex.com/docs"
  = DocumentProcessor.Raise (DocumentProcessor.KeyError "title")
  ∧ (forall data text : string,
        json_loads data = Some (DocumentProcessor.JStr text) ->
        DocumentProcessor.process_chunk json_loads
          (DocumentProcessor.mkOllama
             (DocumentProcessor.Body
                (Some (DocumentProcessor.JObj
                         [("response", DocumentProcessor.JStr data)])))
             (fun _ => DocumentProcessor.BadStatus)
             "2026-01-01T00:00:00+00:00")
          "Some text" 0 "https://ex.com/docs"
        = DocumentProcessor.Raise DocumentProcessor.TypeError).
Proof.
  split; [reflexivity|].
  intros data text H. unfold DocumentProcessor.process_chunk.
  cbn [DocumentProcessor.generate_reply DocumentProcessor.get_title_and_summary
       DocumentProcessor.assoc String.eqb Ascii.eqb Bool.eqb].
  rewrite H. reflexivity.
Qed.

(** * Further properties of the sources *)

(** ** Chunker: shape of the chunks *)

Section ChunkShape.
Import DocumentProcessor.

Lemma lstrip_fixed (ws : ascii -> bool) (s : string) :
  match s with String c _ => ws c = false | EmptyString => True end ->
  PyStr.lstrip ws s = s.
Proof. destruct s as [|c s]; [done|]. simpl. by intros ->. Qed.

Lemma rstrip_idem (ws : ascii -> bool) (s : string) :
  PyStr.rstrip ws (PyStr.rstrip ws s) = PyStr.rstrip ws s.
Proof.
  induction s as [|c s IH]; [done|]. cbn [PyStr.rstrip].
  destruct (PyStr.rstrip ws s) as [|d r] eqn:E.
  - destruct (ws c) eqn:Ec; [done|]. cbn [PyStr.rstrip]. by rewrite Ec.
  - change (PyStr.rstrip ws (String c (String d r)))
      with (match PyStr.rstrip ws (String d r) with
            | EmptyString => if ws c then EmptyString else String c EmptyString
            | r' => String c r'
            end).
    by rewrite IH.
Qed.

Lemma strip_idem (ws : ascii -> bool) (s : string) :
  PyStr.strip ws (PyStr.strip ws s) = PyStr.strip ws s.
Proof.
  unfold PyStr.strip.
  rewrite (lstrip_fixed ws (PyStr.rstrip ws (PyStr.lstrip ws s))).
  - apply rstrip_idem.
  - pose proof (lstrip_head ws s) as Hl.
    pose proof (rstrip_head ws (PyStr.lstrip ws s)) as Hr.
    destruct (PyStr.lstrip ws s) as [|c l]; [done|].
    destruct (PyStr.rstrip ws (String c l)) as [|d r]; [done|]. by subst d.
Qed.

Lemma lstrip_length (ws : ascii -> bool) (s : string) :
  (String.length (PyStr.lstrip ws s) <= String.length s)%nat.
Proof.
  induction s as [|c s IH]; simpl; [lia|]. destruct (ws c); simpl; lia.
Qed.

Lemma rstrip_length (ws : ascii -> bool) (s : string) :
  (String.length (PyStr.rstrip ws s) <= String.length s)%nat.
Proof.
  induction s as [|c s IH]; [simpl; lia|]. cbn [PyStr.rstrip].
  destruct (PyStr.rstrip ws s) as [|d r].
  - destruct (ws c); simpl; lia.
  - simpl in *. lia.
Qed.

Lemma strip_length (ws : ascii -> bool) (s : string) :
  PyStr.len (PyStr.strip ws s) <= PyStr.len s.
Proof.
  unfold PyStr.strip, PyStr.len.
  pose proof (rstrip_length ws (PyStr.lstrip ws s)).
  pose proof (lstrip_length ws s). lia.
Qed.

Lemma strip_all_stripped (ws : ascii -> bool) (s : string) :
  PyStr.forallb ws s = true -> PyStr.strip ws s = "".
Proof.
  intros H. unfold PyStr.strip.
  assert (PyStr.lstrip ws s = "") as ->; [|done].
  induction s as [|c s IH]; [done|]. simpl in *.
  apply andb_prop in H as [-> Hs]. auto.
Qed.

Lemma nonempty_len (s : string) : nonempty s = true -> 1 <= PyStr.len s.
Proof. destruct s; [done|]. intros _. rewrite len_cons. pose proof (len_nonneg s). lia. Qed.

Lemma elem_of_trimmed (slices : list string) (c : string) :
  c ∈ trimmed slices
  <-> nonempty c = true ∧ exists s, s ∈ slices ∧ c = PyStr.strip PyStr.isspace s.
Proof.
  unfold trimmed. rewrite list_elem_of_filter, list_elem_of_fmap.
  split; intros (H1 & s & H2 & H3); (split; [done|]); by exists s.
Qed.

Lemma chunk_text_trimmed_slices (text : string) (chunk_size : Z)
      (t : PyFloat.float) :
  PyFloat.int_mul chunk_size PyFloat.c_0_3 = Some t ->
  exists spans,
    chunk_spans (String.length text) text chunk_size 0 = Some (Ok spans)
    ∧ chunk_text text chunk_size
      = Some (Ok (trimmed (span_text text <$> spans))).
Proof.
  intros Ht.
  destruct (chunk_spans_total (String.length text) text chunk_size 0 t Ht)
    as [spans E]; [unfold PyStr.len; lia|].
  exists spans. split; [done|].
  unfold chunk_text. by rewrite chunk_loop_spans, E.
Qed.

(** For a positive chunk size no window is wider than the chunk size. *)
Lemma chunk_spans_width (fuel : nat) (text : string) (chunk_size start : Z)
      (t : PyFloat.float) (spans : list (Z * Z)) :
  1 <= chunk_size -> PyFloat.int_mul chunk_size PyFloat.c_0_3 = Some t ->
  0 <= start ->
  chunk_spans fuel text chunk_size start = Some (Ok spans) ->
  Forall (fun sp => 0 <= sp.1 <= sp.2 ∧ sp.2 <= PyStr.len text
                    ∧ sp.2 - sp.1 <= chunk_size) spans.
Proof.
  intros Hcs Ht. revert start spans.
  induction fuel as [|fuel IH]; intros start spans Hs; simpl.
  - destruct (start <? PyStr.len text); [done|]. intros [= <-]. constructor.
  - destruct (Z.ltb_spec start (PyStr.len text)); [|intros [= <-]; constructor].
    destruct (chunk_end_bounds text chunk_size start t Hcs Ht)
      as (e & -> & Hb & Hw); [lia|].
    destruct (chunk_spans fuel text chunk_size (Z.max (start + 1) e))
      as [[rest|ex]|] eqn:E; [|done..].
    simpl. intros [= <-]. constructor; [simpl; lia|].
    eapply IH; [|exact E]. lia.
Qed.

End ChunkShape.

(** X1: at every chunk size that fits a double, zero and negative sizes
    included, [chunk_text] returns, and every chunk it returns is non-empty
    and carries no whitespace at either end. *)
Theorem chunk_text_chunks_trimmed (text : string) (chunk_size : Z) :
  Z.abs chunk_size < 2 ^ 1024 - 2 ^ 970 ->
  exists chunks,
    DocumentProcessor.chunk_text text chunk_size
    = Some (DocumentProcessor.Ok chunks)
    ∧ Forall (fun c => c ≠ "" ∧ PyStr.strip PyStr.isspace c = c) chunks.
Proof.
  intros Hmax.
  destruct (int_mul_is_Some chunk_size PyFloat.c_0_3 Hmax) as [t Ht].
  destruct (chunk_text_trimmed_slices text chunk_size t Ht) as (spans & _ & E).
  eexists. split; [exact E|].
  apply Forall_forall. intros c (Hne & s & _ & ->)%elem_of_trimmed.
  split; [|apply strip_idem].
  intros Hc. rewrite Hc in Hne. discriminate.
Qed.

Lemma chunk_text_chunks_trimmed_witness :
  Z.abs (-3) < 2 ^ 1024 - 2 ^ 970
  ∧ exists chunks,
      DocumentProcessor.chunk_text "  ab  cd " (-3)
      = Some (DocumentProcessor.Ok chunks)
      ∧ Forall (fun c => c ≠ "" ∧ PyStr.strip PyStr.isspace c = c) chunks.
Proof.
  split; [simpl; lia | apply (chunk_text_chunks_trimmed "  ab  cd " (-3)); simpl; lia].
Defined.

(** X2: for a chunk size of at least 1 that fits a double, every chunk is
    between 1 and [chunk_size] characters long. *)
Theorem chunk_text_chunk_length (text : string) (chunk_size : Z) :
  1 <= chunk_size < 2 ^ 1024 - 2 ^ 970 ->
  exists chunks,
    DocumentProcessor.chunk_text text chunk_size
    = Some (DocumentProcessor.Ok chunks)
    ∧ Forall (fun c => 1 <= PyStr.len c <= chunk_size) chunks.
Proof.
  intros [Hcs Hmax].
  destruct (int_mul_is_Some chunk_size PyFloat.c_0_3) as [t Ht]; [lia|].
  destruct (chunk_text_trimmed_slices text chunk_size t Ht) as (spans & Es & E).
  eexists. split; [exact E|].
  apply (chunk_spans_width _ _ _ _ t) in Es; [|done..].
  apply Forall_forall. intros c (Hne & s & Hs & ->)%elem_of_trimmed.
  split; [by apply nonempty_len|].
  apply list_elem_of_fmap in Hs as (sp & -> & Hsp).
  rewrite Forall_forall in Es. destruct (Es sp Hsp) as (H1 & H2 & H3).
  pose proof (strip_length PyStr.isspace (DocumentProcessor.span_text text sp)).
  unfold DocumentProcessor.span_text in *.
  rewrite slice_len in H by lia. lia.
Qed.

Lemma chunk_text_chunk_length_witness :
  1 <= 12 < 2 ^ 1024 - 2 ^ 970
  ∧ exists chunks,
      DocumentProcessor.chunk_text "One two.  Three four. Five" 12
      = Some (DocumentProcessor.Ok chunks)
      ∧ Forall (fun c => 1 <= PyStr.len c <= 12) chunks.
Proof.
  split; [lia | apply (chunk_text_chunk_length "One two.  Three four. Five" 12); lia].
Defined.

(** X3: at a chunk size below 2^53, a non-empty text shorter than three
    tenths of the chunk size is never split, whatever break markers it
    contains: the result is the text trimmed, or nothing when it is all
    whitespace. *)
Theorem chunk_text_short_text_unsplit (text : string) (chunk_size : Z) :
  text ≠ "" -> chunk_size < 2 ^ 53 -> 10 * PyStr.len text < 3 * chunk_size ->
  DocumentProcessor.chunk_text text chunk_size
  = Some (DocumentProcessor.Ok (DocumentProcessor.trimmed [text])).
Proof.
  intros Hne Hmax Hshort.
  assert (Hlen : 1 <= PyStr.len text).
  { destruct text; [done|]. rewrite len_cons. pose proof (len_nonneg text). lia. }
  destruct (below_threshold chunk_size (PyStr.len text)) as (t & Ht & Hgt);
    [lia | lia |].
  assert (Hno : forall i, i <= PyStr.len text -> PyFloat.int_gt i t = false).
  { intros i Hi. destruct (PyFloat.int_gt i t) eqn:E; [|done].
    by rewrite (int_gt_mono i (PyStr.len text) t Hi E) in Hgt. }
  assert (Hend : DocumentProcessor.chunk_end text chunk_size 0
                 = DocumentProcessor.Ok (PyStr.len text)).
  { destruct (chunk_end_cases text chunk_size 0 t Ht) as (e & -> & Hc).
    f_equal. revert Hc. rewrite Z.add_0_l, Z.min_r by lia. rewrite slice_all.
    pose proof (rfind_bounds text DocumentProcessor.code_fence) as H1.
    pose proof (rfind_bounds text DocumentProcessor.paragraph_break) as H2.
    pose proof (rfind_bounds text DocumentProcessor.sentence_break) as H3.
    change (PyStr.len DocumentProcessor.code_fence) with 3 in H1.
    change (PyStr.len DocumentProcessor.paragraph_break) with 2 in H2.
    change (PyStr.len DocumentProcessor.sentence_break) with 2 in H3.
    intros [[_ Hg]|[[_ Hg]|[[_ Hg]| ->]]]; [| | |done];
      rewrite Hno in Hg by lia; discriminate. }
  unfold DocumentProcessor.chunk_text.
  destruct (String.length text) as [|fuel] eqn:Ef; [unfold PyStr.len in Hlen; lia|].
  cbn [DocumentProcessor.chunk_loop].
  rewrite (proj2 (Z.ltb_lt 0 (PyStr.len text))) by lia.
  rewrite Hend. cbv zeta. rewrite slice_all, Z.max_r by lia.
  assert (Hstop : forall f cs,
             DocumentProcessor.chunk_loop f text chunk_size (PyStr.len text) cs
             = Some (DocumentProcessor.Ok cs)).
  { intros f cs. destruct f; simpl; by rewrite Z.ltb_irrefl. }
  rewrite Hstop. rewrite trimmed_cons. simpl.
  by destruct (DocumentProcessor.nonempty _).
Qed.

Lemma chunk_text_short_text_unsplit_witness :
  "  Hello. World  " ≠ "" ∧ 5000 < 2 ^ 53
  ∧ 10 * PyStr.len "  Hello. World  " < 3 * 5000
  ∧ DocumentProcessor.chunk_text "  Hello. World  " 5000
    = Some (DocumentProcessor.Ok (DocumentProcessor.trimmed ["  Hello. World  "])).
Proof.
  split; [discriminate|]. split; [reflexivity|]. split; [reflexivity|].
  apply chunk_text_short_text_unsplit; [discriminate | reflexivity | reflexivity].
Defined.

(** X4: at every chunk size that fits a double, a text made of whitespace
    only yields no chunk. *)
Theorem chunk_text_whitespace_only (text : string) (chunk_size : Z) :
  PyStr.forallb PyStr.isspace text = true ->
  Z.abs chunk_size < 2 ^ 1024 - 2 ^ 970 ->
  DocumentProcessor.chunk_text text chunk_size = Some (DocumentProcessor.Ok []).
Proof.
  intros Hws Hmax.
  destruct (int_mul_is_Some chunk_size PyFloat.c_0_3 Hmax) as [t Ht].
  destruct (chunk_text_trimmed_slices text chunk_size t Ht) as (spans & _ & ->).
  do 2 f_equal. clear -Hws. induction spans as [|sp spans IH]; [done|].
  rewrite fmap_cons, trimmed_cons, IH.
  rewrite strip_all_stripped; [done|].
  unfold DocumentProcessor.span_text, PyStr.slice. by apply forallb_substring.
Qed.

Lemma chunk_text_whitespace_only_witness :
  PyStr.forallb PyStr.isspace "     " = true
  ∧ Z.abs 2 < 2 ^ 1024 - 2 ^ 970
  ∧ DocumentProcessor.chunk_text "     " 2 = Some (DocumentProcessor.Ok []).
Proof.
  split; [reflexivity|]. split; [simpl; lia|].
  apply chunk_text_whitespace_only; [reflexivity | simpl; lia].
Defined.

(** ** Persistence: file names and whole documents *)

Section StoreFacts.
Import DocumentProcessor.

Lemma str_app_inv_head (p a b : string) : p +:+ a = p +:+ b -> a = b.
Proof.
  induction p as [|c p IH]; [done|]. rewrite !app_cons. intros [= H]. auto.
Qed.

Lemma str_app_inv_tail (a b s : string) : a +:+ s = b +:+ s -> a = b.
Proof.
  revert b. induction a as [|c a IH]; intros b H.
  - destruct b as [|d b]; [done|].
    apply (f_equal String.length) in H. rewrite !length_app in H.
    simpl in H. lia.
  - destruct b as [|d b].
    + apply (f_equal String.length) in H. rewrite !length_app in H.
      simpl in H. lia.
    + rewrite !app_cons in H. injection H as -> H. f_equal. auto.
Qed.

Lemma of_nat_inj (n m : nat) : PyStr.of_nat n = PyStr.of_nat m -> n = m.
Proof.
  unfold PyStr.of_nat. intros H.
  assert (Hnn : forall k, Nat.to_uint k ≠ Decimal.Nil).
  { intros k. rewrite <- (DecimalNat.Unsigned.of_to k) at 1.
    rewrite DecimalNat.Unsigned.to_of. apply DecimalFacts.unorm_nonnil. }
  apply (f_equal NilZero.uint_of_string) in H.
  rewrite !NilZero.usu in H by apply Hnn.
  injection H as H. by apply DecimalNat.Unsigned.to_uint_inj.
Qed.

Lemma chunk_filename_number (c1 c2 : ProcessedChunk) :
  url c1 = url c2 -> chunk_filename c1 = chunk_filename c2 ->
  chunk_number c1 = chunk_number c2.
Proof.
  unfold chunk_filename. intros -> H.
  apply str_app_inv_head, str_app_inv_head, str_app_inv_tail in H.
  by apply of_nat_inj.
Qed.

Lemma gather_ok {A} (tasks : list (result A)) (l : list A) :
  gather tasks = Ok l <-> tasks = Ok <$> l.
Proof.
  revert l. induction tasks as [|t tasks IH]; intros l; simpl.
  - split; [intros [= <-]; done | by destruct l].
  - destruct t as [a|e]; simpl.
    + destruct (gather tasks) as [l'|e] eqn:E; simpl.
      * split.
        -- intros [= <-]. simpl. f_equal. by apply IH.
        -- destruct l as [|b l]; [done|]. simpl. intros [= -> H].
           apply IH in H. by injection H as ->.
      * split; [done|]. destruct l as [|b l]; [done|]. simpl. intros [= -> H].
        apply IH in H. done.
    + split; [done|]. by destruct l.
Qed.

Lemma gather_raises {A} (tasks : list (result A)) (i : nat) (e : exn) :
  tasks !! i = Some (Raise e) -> exists e', gather tasks = Raise e'.
Proof.
  revert i. induction tasks as [|t tasks IH]; intros i H; [done|]. simpl.
  destruct t as [a|e0]; [|by eexists].
  destruct i as [|i]; [done|]. simpl in H.
  destruct (IH i H) as [e' ->]. by eexists.
Qed.

Lemma gather_raise_inv {A} (tasks : list (result A)) (e : exn) :
  gather tasks = Raise e -> exists i, tasks !! i = Some (Raise e).
Proof.
  induction tasks as [|t tasks IH]; [done|]. simpl.
  destruct t as [a|e0]; simpl; [|intros [= ->]; by exists 0%nat].
  destruct (gather tasks) as [l|e1]; [done|]. simpl. intros [= ->].
  destruct IH as [i Hi]; [done|]. by exists (S i).
Qed.

Lemma process_chunk_ok_fields (json_loads : string -> option json) (env : Ollama)
      (chunk u : string) (n : nat) (pc : ProcessedChunk) :
  process_chunk json_loads env chunk n u = Ok pc ->
  url pc = u ∧ chunk_number pc = n ∧ content pc = chunk
  ∧ chunk_size (metadata pc) = PyStr.len chunk
  ∧ source (metadata pc) = u.
Proof.
  unfold process_chunk.
  destruct (subscript _ "title") as [t|]; [|done]. simpl.
  destruct (subscript _ "summary") as [sm|]; [|done]. simpl.
  by intros [= <-].
Qed.

Lemma foldl_save_other (l : list ProcessedChunk)
      (dir : gmap string ProcessedChunk) (key : string) :
  key ∉ chunk_filename <$> l ->
  foldl (fun dir chunk => save_chunk_to_file chunk dir) dir l !! key = dir !! key.
Proof.
  revert dir. induction l as [|x l IH]; intros dir Hk; [done|]. simpl.
  rewrite fmap_cons, not_elem_of_cons in Hk. destruct Hk as [Hx Hl].
  rewrite IH by done. unfold save_chunk_to_file. by rewrite lookup_insert_ne.
Qed.

Lemma foldl_save_lookup (l : list ProcessedChunk)
      (dir : gmap string ProcessedChunk) (pc : ProcessedChunk) :
  NoDup (chunk_filename <$> l) -> pc ∈ l ->
  foldl (fun dir chunk => save_chunk_to_file chunk dir) dir l
    !! chunk_filename pc = Some pc.
Proof.
  revert dir. induction l as [|x l IH]; intros dir Hnd Hin.
  - by apply elem_of_nil in Hin.
  - rewrite fmap_cons in Hnd. apply NoDup_cons in Hnd as [Hx Hnd].
    simpl. apply elem_of_cons in Hin as [->|Hin]; [|by apply IH].
    rewrite foldl_save_other by done.
    unfold save_chunk_to_file. apply lookup_insert_eq.
Qed.

(** The records of one document, as [gather] returns them: record [i]
    comes from chunk [i]. *)
Lemma processed_lookup (json_loads : string -> option json) (env : nat -> Ollama)
      (u : string) (chunks : list string) (processed : list ProcessedChunk) :
  gather (imap (fun i chunk => process_chunk json_loads (env i) chunk i u) chunks)
    = Ok processed ->
  length processed = length chunks
  ∧ forall i pc, processed !! i = Some pc ->
      exists chunk, chunks !! i = Some chunk
                    ∧ process_chunk json_loads (env i) chunk i u = Ok pc.
Proof.
  intros H%gather_ok. split.
  - apply (f_equal length) in H. by rewrite length_imap, length_fmap in H.
  - intros i pc Hpc. apply (f_equal (fun l => l !! i)) in H.
    rewrite list_lookup_imap, list_lookup_fmap, Hpc in H. simpl in H.
    destruct (chunks !! i) as [chunk|]; [|done]. simpl in H.
    exists chunk. split; [done|]. by injection H.
Qed.

Lemma processed_filenames_nodup (json_loads : string -> option json)
      (env : nat -> Ollama) (u : string) (chunks : list string)
      (processed : list ProcessedChunk) :
  gather (imap (fun i chunk => process_chunk json_loads (env i) chunk i u) chunks)
    = Ok processed ->
  NoDup (chunk_filename <$> processed).
Proof.
  intros H. apply processed_lookup in H as [_ H].
  apply NoDup_alt. intros i j name Hi Hj.
  rewrite list_lookup_fmap in Hi, Hj.
  destruct (processed !! i) as [pi|] eqn:Ei; [|done].
  destruct (processed !! j) as [pj|] eqn:Ej; [|done].
  simpl in Hi, Hj. injection Hi as Hi. injection Hj as Hj.
  destruct (H i pi Ei) as (ci & _ & Hpi%process_chunk_ok_fields).
  destruct (H j pj Ej) as (cj & _ & Hpj%process_chunk_ok_fields).
  destruct Hpi as (Hu1 & Hn1 & _). destruct Hpj as (Hu2 & Hn2 & _).
  rewrite <- Hn1, <- Hn2. apply chunk_filename_number; congruence.
Qed.

End StoreFacts.

(** X5: two chunk records of the same page with different chunk numbers
    never share a file name. *)
Theorem chunk_filename_distinct_numbers (c1 c2 : DocumentProcessor.ProcessedChunk) :
  DocumentProcessor.url c1 = DocumentProcessor.url c2 ->
  DocumentProcessor.chunk_number c1 ≠ DocumentProcessor.chunk_number c2 ->
  DocumentProcessor.chunk_filename c1 ≠ DocumentProcessor.chunk_filename c2.
Proof.
  intros Hu Hn Hf. apply Hn. by apply chunk_filename_number.
Qed.

Lemma chunk_filename_distinct_numbers_witness :
  let md := DocumentProcessor.mkMetadata "https://ex.com/a" 1 "" "/a" in
  let c1 := DocumentProcessor.mkProcessedChunk
              "https://ex.com/a" 1 DocumentProcessor.JNull DocumentProcessor.JNull
              "x" md DocumentProcessor.JNull in
  let c2 := DocumentProcessor.mkProcessedChunk
              "https://ex.com/a" 11 DocumentProcessor.JNull DocumentProcessor.JNull
              "y" md DocumentProcessor.JNull in
  DocumentProcessor.url c1 = DocumentProcessor.url c2
  ∧ DocumentProcessor.chunk_number c1 ≠ DocumentProcessor.chunk_number c2
  ∧ DocumentProcessor.chunk_filename c1 ≠ DocumentProcessor.chunk_filename c2.
Proof.
  intros md c1 c2. split; [reflexivity|]. split; [discriminate|].
  apply chunk_filename_distinct_numbers; [reflexivity | discriminate].
Defined.

(** X6: if the enrichment of any one chunk of a document raises,
    [process_and_store_document] raises before its save loop, and the output
    directory is left as it was: no file is written, not even for the
    chunks that were enriched. *)
Theorem process_and_store_document_all_or_nothing
        (json_loads : string -> option DocumentProcessor.json)
        (env : nat -> DocumentProcessor.Ollama) (url markdown : string)
        (output_dir : gmap string DocumentProcessor.ProcessedChunk)
        (chunks : list string) (i : nat) (chunk : string)
        (e : DocumentProcessor.exn) :
  DocumentProcessor.chunk_text markdown 5000
    = Some (DocumentProcessor.Ok chunks) ->
  chunks !! i = Some chunk ->
  DocumentProcessor.process_chunk json_loads (env i) chunk i url
    = DocumentProcessor.Raise e ->
  exists e',
    DocumentProcessor.process_and_store_document
      json_loads env url markdown output_dir
    = Some (DocumentProcessor.Raise e', output_dir).
Proof.
  intros Hc Hi He. unfold DocumentProcessor.process_and_store_document.
  rewrite Hc. cbv zeta.
  destruct (gather_raises
              (imap (fun i chunk =>
                       DocumentProcessor.process_chunk json_loads (env i) chunk i url)
                    chunks) i e) as [e' ->].
  - by rewrite list_lookup_imap, Hi; simpl; rewrite He.
  - by exists e'.
Qed.

(** X7: if every chunk of a document is enriched, the document is stored
    completely: afterwards the file of chunk [i] holds a record with that
    chunk as content, [i] as chunk number and the page's URL, and files
    under other names are as before. *)
Theorem process_and_store_document_stores_all
        (json_loads : string -> option DocumentProcessor.json)
        (env : nat -> DocumentProcessor.Ollama) (url markdown : string)
        (output_dir : gmap string DocumentProcessor.ProcessedChunk) :
  (forall i chunk, exists pc,
      DocumentProcessor.process_chunk json_loads (env i) chunk i url
      = DocumentProcessor.Ok pc) ->
  exists chunks dir,
    DocumentProcessor.chunk_text markdown 5000
    = Some (DocumentProcessor.Ok chunks)
    ∧ DocumentProcessor.process_and_store_document
        json_loads env url markdown output_dir
      = Some (DocumentProcessor.Ok tt, dir)
    ∧ (forall i chunk, chunks !! i = Some chunk ->
         exists pc,
           dir !! (DocumentProcessor.sanitize_filename url +:+ "_chunk_"
                     +:+ PyStr.of_nat i +:+ ".json") = Some pc
           ∧ DocumentProcessor.content pc = chunk
           ∧ DocumentProcessor.chunk_number pc = i
           ∧ DocumentProcessor.url pc = url)
    ∧ (forall name,
         (forall i, (i < length chunks)%nat ->
                    name ≠ DocumentProcessor.sanitize_filename url +:+ "_chunk_"
                             +:+ PyStr.of_nat i +:+ ".json") ->
         dir !! name = output_dir !! name).
Proof.
  intros Hall.
  destruct (chunk_text_trimmed_slices markdown 5000 _ eq_refl) as (spans & _ & Hc).
  set (chunks := DocumentProcessor.trimmed
                   (DocumentProcessor.span_text markdown <$> spans)) in *.
  set (tasks := imap (fun i chunk =>
                        DocumentProcessor.process_chunk json_loads (env i) chunk i url)
                     chunks).
  assert (Hg : exists processed, DocumentProcessor.gather tasks
                                 = DocumentProcessor.Ok processed).
  { destruct (DocumentProcessor.gather tasks) as [l|e] eqn:E; [by eexists|].
    exfalso. apply gather_raise_inv in E as [i Hi]. unfold tasks in Hi.
    rewrite list_lookup_imap in Hi.
    destruct (chunks !! i) as [c|]; [|done]. simpl in Hi.
    destruct (Hall i c) as [pc Hpc]. rewrite Hpc in Hi. done. }
  destruct Hg as [processed Hg].
  pose proof (processed_lookup _ _ _ _ _ Hg) as [Hlen Hlk].
  pose proof (processed_filenames_nodup _ _ _ _ _ Hg) as Hnd.
  exists chunks. eexists. split; [exact Hc|]. split.
  { unfold DocumentProcessor.process_and_store_document. rewrite Hc. cbv zeta.
    fold tasks. rewrite Hg. reflexivity. }
  split.
  - intros i chunk Hi.
    destruct (lookup_lt_is_Some_2 processed i) as [pc Hpc].
    { rewrite Hlen. by apply lookup_lt_Some in Hi. }
    destruct (Hlk i pc Hpc) as (chunk' & Hi' & Hok).
    assert (chunk' = chunk) as -> by congruence.
    apply process_chunk_ok_fields in Hok as (Hu & Hn & Hct & _).
    exists pc. split; [|done].
    rewrite <- Hu at 1. rewrite <- Hn at 1.
    apply (foldl_save_lookup processed output_dir pc Hnd).
    by apply list_elem_of_lookup_2 in Hpc.
  - intros name Hname. apply foldl_save_other.
    intros (pc & -> & Hin)%list_elem_of_fmap.
    apply list_elem_of_lookup_1 in Hin as [i Hpc].
    destruct (Hlk i pc Hpc) as (chunk & Hi & Hok).
    apply process_chunk_ok_fields in Hok as (Hu & Hn & _).
    apply (Hname i); [by apply lookup_lt_Some in Hi|].
    unfold DocumentProcessor.chunk_filename. by rewrite Hu, Hn.
Qed.

Lemma process_and_store_document_all_or_nothing_witness :
  let env := fun _ : nat =>
    DocumentProcessor.mkOllama
      (DocumentProcessor.Body
         (Some (DocumentProcessor.JObj
                  [("response", DocumentProcessor.JObj [])])))
      (fun _ => DocumentProcessor.BadStatus) "2026-01-01T00:00:00+00:00" in
  DocumentProcessor.chunk_text "Hello world" 5000
  = Some (DocumentProcessor.Ok ["Hello world"])
  ∧ DocumentProcessor.process_chunk (fun _ => None) (env 0%nat) "Hello world"
                                    0 "https://ex.com/a"
    = DocumentProcessor.Raise (DocumentProcessor.KeyError "title")
  ∧ exists e',
      DocumentProcessor.process_and_store_document
        (fun _ => None) env "https://ex.com/a" "Hello world" ∅
      = Some (DocumentProcessor.Raise e', ∅).
Proof.
  intros env.
  assert (Hc : DocumentProcessor.chunk_text "Hello world" 5000
               = Some (DocumentProcessor.Ok ["Hello world"]))
    by (vm_compute; reflexivity).
  assert (Hr : DocumentProcessor.process_chunk (fun _ => None) (env 0%nat)
                 "Hello world" 0 "https://ex.com/a"
               = DocumentProcessor.Raise (DocumentProcessor.KeyError "title"))
    by reflexivity.
  split; [exact Hc|]. split; [exact Hr|].
  exact (process_and_store_document_all_or_nothing
           (fun _ => None) env "https://ex.com/a" "Hello world" ∅
           ["Hello world"] 0 "Hello world" _ Hc eq_refl Hr).
Defined.

Lemma process_and_store_document_stores_all_witness :
  let env := fun _ : nat =>
    DocumentProcessor.mkOllama
      DocumentProcessor.ConnectFailed
      (fun _ => DocumentProcessor.BadStatus) "2026-01-01T00:00:00+00:00" in
  (forall i chunk, exists pc,
      DocumentProcessor.process_chunk (fun _ => None) (env i) chunk i
                                      "https://ex.com/a"
      = DocumentProcessor.Ok pc)
  ∧ exists chunks dir,
      DocumentProcessor.chunk_text "Hello world" 5000
      = Some (DocumentProcessor.Ok chunks)
      ∧ DocumentProcessor.process_and_store_document
          (fun _ => None) env "https://ex.com/a" "Hello world" ∅
        = Some (DocumentProcessor.Ok tt, dir)
      ∧ (forall i chunk, chunks !! i = Some chunk ->
           exists pc,
             dir !! (DocumentProcessor.sanitize_filename "https://ex.com/a"
                       +:+ "_chunk_" +:+ PyStr.of_nat i +:+ ".json") = Some pc
             ∧ DocumentProcessor.content pc = chunk
             ∧ DocumentProcessor.chunk_number pc = i
             ∧ DocumentProcessor.url pc = "https://ex.com/a")
      ∧ (forall name,
           (forall i, (i < length chunks)%nat ->
              name ≠ DocumentProcessor.sanitize_filename "https://ex.com/a"
                       +:+ "_chunk_" +:+ PyStr.of_nat i +:+ ".json") ->
           dir !! name = (∅ : gmap string DocumentProcessor.ProcessedChunk) !! name).
Proof.
  intros env.
  assert (Hall : forall i chunk, exists pc,
             DocumentProcessor.process_chunk (fun _ => None) (env i) chunk i
                                             "https://ex.com/a"
             = DocumentProcessor.Ok pc).
  { intros i chunk. eexists. reflexivity. }
  split; [exact Hall|].
  exact (process_and_store_document_stores_all
           (fun _ => None) env "https://ex.com/a" "Hello world" ∅ Hall).
Defined.

(** ** Sitemap store: what is written and what is read back *)

(** X8: the document [save_sitemap] writes lists exactly the URLs of the
    sitemap, each once, in ascending order. *)
Theorem save_sitemap_sorted_exact (sm : SitemapGenerator.Sitemap) :
  exists locs,
    SitemapGenerator.save_sitemap sm = Some locs
    ∧ StronglySorted String.le locs
    ∧ NoDup locs
    ∧ forall u, u ∈ locs <-> u ∈ SitemapGenerator.urls sm.
Proof.
  eexists. split; [reflexivity|]. unfold SitemapGenerator.sorted.
  split; [apply StronglySorted_merge_sort; apply _|]. split.
  - rewrite merge_sort_Permutation. apply NoDup_elements.
  - intros u. by rewrite merge_sort_Permutation, elem_of_elements.
Qed.

(** X9: whatever the sitemap file holds, every URL [load_urls] returns has
    its trailing slashes stripped and is accepted by [should_crawl_url]
    against the start URL. *)
Theorem load_urls_normalized_in_scope
        (sm : SitemapGenerator.Sitemap) (file : option (list string)) (u : string) :
  u ∈ SitemapGenerator.load_urls sm file ->
  PyStr.rstrip SitemapGenerator.is_slash u = u
  ∧ should_crawl_url u (SitemapGenerator.start_url sm) = true.
Proof.
  unfold SitemapGenerator.load_urls. destruct file as [locs|].
  - rewrite elem_of_load_fold.
    intros [H|(loc & _ & -> & Hs)]; [by apply not_elem_of_empty in H|].
    split; [apply rstrip_idem | exact Hs].
  - intros H. by apply not_elem_of_empty in H.
Qed.

Lemma load_urls_normalized_in_scope_witness :
  let sm := SitemapGenerator.init "ex.com" "https://ex.com/docs" in
  let file := Some ["https://ex.com/docs/a/"; "https://ex.com/blog"] in
  "https://ex.com/docs/a" ∈ SitemapGenerator.load_urls sm file
  ∧ PyStr.rstrip SitemapGenerator.is_slash "https://ex.com/docs/a"
    = "https://ex.com/docs/a"
  ∧ should_crawl_url "https://ex.com/docs/a" (SitemapGenerator.start_url sm) = true.
Proof.
  intros sm file.
  assert (H : "https://ex.com/docs/a" ∈ SitemapGenerator.load_urls sm file).
  { unfold SitemapGenerator.load_urls, file. apply elem_of_load_fold. right.
    exists "https://ex.com/docs/a/". split; [by left|].
    split; vm_compute; reflexivity. }
  split; [exact H|].
  exact (load_urls_normalized_in_scope sm file _ H).
Defined.

(** X10: if every URL of the sitemap contains no markup character, is
    free of trailing slashes and is accepted by [should_crawl_url] against
    the start URL, saving and then loading returns exactly the sitemap's
    URLs. *)
Theorem load_after_save_identity
        (find_all_loc : list string -> list string)
        (sm : SitemapGenerator.Sitemap) :
  SitemapGenerator.reads_plain_locations find_all_loc ->
  (forall u, u ∈ SitemapGenerator.urls sm ->
     PyStr.forallb SitemapGenerator.xml_plain u = true
     ∧ PyStr.rstrip SitemapGenerator.is_slash u = u
     ∧ should_crawl_url u (SitemapGenerator.start_url sm) = true) ->
  SitemapGenerator.load_urls sm
    (find_all_loc <$> SitemapGenerator.save_sitemap sm)
  = SitemapGenerator.urls sm.
Proof.
  intros Hparser Hall.
  rewrite load_after_save by (done || intros u Hu; by apply Hall).
  apply set_eq. intros x.
  rewrite elem_of_filter, elem_of_map. split.
  - intros (_ & u & -> & Hu). by rewrite (proj1 (proj2 (Hall u Hu))).
  - intros Hx. destruct (Hall x Hx) as (_ & Hn & Hs). split; [done|].
    exists x. by rewrite Hn.
Qed.

Lemma load_after_save_identity_witness :
  let find_all_loc := fun locs : list string => locs in
  let sm := SitemapGenerator.add_url
              (SitemapGenerator.init "ex.com" "https://ex.com/docs")
              "https://ex.com/docs/a" in
  SitemapGenerator.reads_plain_locations find_all_loc
  ∧ (forall u, u ∈ SitemapGenerator.urls sm ->
       PyStr.forallb SitemapGenerator.xml_plain u = true
       ∧ PyStr.rstrip SitemapGenerator.is_slash u = u
       ∧ should_crawl_url u (SitemapGenerator.start_url sm) = true)
  ∧ SitemapGenerator.load_urls sm
      (find_all_loc <$> SitemapGenerator.save_sitemap sm)
    = SitemapGenerator.urls sm.
Proof.
  intros find_all_loc sm.
  assert (Hparser : SitemapGenerator.reads_plain_locations find_all_loc).
  { intros locs _. reflexivity. }
  assert (Hall : forall u, u ∈ SitemapGenerator.urls sm ->
             PyStr.forallb SitemapGenerator.xml_plain u = true
             ∧ PyStr.rstrip SitemapGenerator.is_slash u = u
             ∧ should_crawl_url u (SitemapGenerator.start_url sm) = true).
  { intros u. unfold sm. rewrite add_url_urls, add_url_start_url.
    replace (get_domain "https://ex.com/docs/a") with "ex.com"
      by (vm_compute; reflexivity).
    unfold SitemapGenerator.init.
    cbn [SitemapGenerator.domain SitemapGenerator.urls SitemapGenerator.start_url].
    rewrite bool_decide_eq_true_2 by reflexivity.
    rewrite elem_of_union, elem_of_singleton.
    intros [->|H]; [|destruct (not_elem_of_empty (C := gset string) u H)].
    split; [reflexivity|]. split; vm_compute; reflexivity. }
  split; [exact Hparser|]. split; [exact Hall|].
  exact (load_after_save_identity find_all_loc sm Hparser Hall).
Defined.

(** X11: after any sequence of [add_url] calls the sitemap holds its
    former URLs together with exactly those of the added URLs whose network
    location is the sitemap's domain; the order and repetition of the calls
    do not matter. *)
Theorem add_url_bulk (sm : SitemapGenerator.Sitemap) (added : list string) :
  SitemapGenerator.urls (foldl SitemapGenerator.add_url sm added)
  = SitemapGenerator.urls sm
    ∪ list_to_set (filter (fun u => get_domain u = SitemapGenerator.domain sm)
                          added).
Proof.
  revert sm. induction added as [|x l IH]; intros sm; simpl.
  - by rewrite (right_id_L ∅ (∪)).
  - rewrite IH, add_url_domain, add_url_urls, filter_cons.
    case_bool_decide as E.
    + rewrite decide_True by done. rewrite list_to_set_cons.
      apply set_eq. intros u. rewrite !elem_of_union. tauto.
    + by rewrite decide_False by done.
Qed.

(** X12: when the seeds of [crawl_parallel] come from [load_urls] of a
    sitemap with the crawler's start URL, as in [MainApp.run], the list of
    excluded domains it configures is empty. *)
Theorem exclude_domains_of_loaded_seeds
        (sm : SitemapGenerator.Sitemap) (file : option (list string))
        (seeds : list string) :
  (forall u, u ∈ seeds -> u ∈ SitemapGenerator.load_urls sm file) ->
  WebCrawler.exclude_domains (SitemapGenerator.start_url sm) seeds = [].
Proof.
  intros Hseeds. unfold WebCrawler.exclude_domains.
  induction seeds as [|x l IH]; [done|].
  rewrite fmap_cons, filter_cons.
  assert (Hx : x ∈ SitemapGenerator.load_urls sm file) by (apply Hseeds; by left).
  destruct file as [locs|]; [|by apply not_elem_of_empty in Hx].
  unfold SitemapGenerator.load_urls in Hx. apply elem_of_load_fold in Hx.
  destruct Hx as [Hx|(loc & _ & _ & Hs)]; [by apply not_elem_of_empty in Hx|].
  unfold should_crawl_url in Hs. apply andb_prop in Hs as [Hn _].
  apply bool_decide_eq_true in Hn. unfold get_domain.
  rewrite decide_False by (intros H; by apply H).
  apply IH. intros u Hu. apply Hseeds. by right.
Qed.

Lemma exclude_domains_of_loaded_seeds_witness :
  let sm := SitemapGenerator.init "ex.com" "https://ex.com/docs" in
  let file := Some ["https://ex.com/docs/a/"; "https://other.org/docs"] in
  (forall u, u ∈ ["https://ex.com/docs/a"] ->
             u ∈ SitemapGenerator.load_urls sm file)
  ∧ WebCrawler.exclude_domains (SitemapGenerator.start_url sm)
                               ["https://ex.com/docs/a"] = [].
Proof.
  intros sm file.
  assert (H : forall u, u ∈ ["https://ex.com/docs/a"] ->
                        u ∈ SitemapGenerator.load_urls sm file).
  { intros u ->%list_elem_of_singleton.
    unfold SitemapGenerator.load_urls, file. apply elem_of_load_fold. right.
    exists "https://ex.com/docs/a/". split; [by left|].
    split; vm_compute; reflexivity. }
  split; [exact H | exact (exclude_domains_of_loaded_seeds sm file _ H)].
Defined.

(** ** Fetch scheduler: scope, progress, sitemap and queue *)

Section PoolFacts.
Import WebCrawler.

Ltac elem_solve :=
  repeat match goal with
         | H : _ ∈ _ ++ _ |- _ => rewrite elem_of_app in H
         end;
  rewrite ?elem_of_app, ?elem_of_cons; tauto.

Lemma enqueue_links_config (links : list string) (c : Crawler) :
  start_url (enqueue_links c links) = start_url c
  ∧ max_retries (enqueue_links c links) = max_retries c
  ∧ progress (enqueue_links c links) = progress c.
Proof.
  unfold enqueue_links. revert c.
  induction links as [|l links IH]; intros c; simpl; [done|].
  destruct (IH (if wanted c l then put c l else c)) as (-> & -> & ->).
  by destruct (wanted c l).
Qed.

Lemma on_stored_fields (c : Crawler) (links anchors : list string) :
  start_url (on_stored c links anchors) = start_url c
  ∧ progress (on_stored c links anchors) = progress c
  ∧ processed_urls (on_stored c links anchors) = processed_urls c
  ∧ sitemap (on_stored c links anchors) = sitemap c
  ∧ fetched (on_stored c links anchors) = fetched c.
Proof.
  unfold on_stored.
  destruct (enqueue_links_config anchors (enqueue_links c links)) as (-> & _ & ->).
  destruct (enqueue_links_config links c) as (-> & _ & ->).
  destruct (enqueue_links_queued anchors (enqueue_links c links)) as (_ & -> & -> & ->).
  destruct (enqueue_links_queued links c) as (_ & -> & -> & ->). done.
Qed.

Lemma get_config (c c' : Crawler) (url : string) :
  get c = Some (url, c') ->
  start_url c' = start_url c ∧ progress c' = progress c
  ∧ sitemap c' = sitemap c
  ∧ urls_to_process c = url :: urls_to_process c'.
Proof.
  unfold get. destruct (urls_to_process c) eqn:E; [done|].
  intros [= <- <-]. done.
Qed.

Lemma skips_in_scope (c : Crawler) (url : string) :
  skips c url = false -> should_crawl_url url (start_url c) = true.
Proof.
  unfold skips. intros H. apply orb_false_elim in H as [_ H].
  by apply negb_false_iff in H.
Qed.

Lemma call_process_url_cases (c : Crawler) (url : string) (rc : Z) :
  (skips c url = true ∧ call_process_url c url rc = (c, []))
  ∨ (skips c url = false
     ∧ call_process_url c url rc = (mark_queued c url, [Waiting url rc])).
Proof. unfold call_process_url. destruct (skips c url); [by left | by right]. Qed.

Lemma elem_after_failure (c : Crawler) (url : string) (rc : Z)
      (t1 t2 : list Task) (t : Task) :
  t ∈ t1 ++ after_failure c url rc ++ t2 -> t = Sleeping url rc ∨ t ∈ t1 ++ t2.
Proof.
  unfold after_failure. destruct (retries c rc); simpl; [|by right].
  rewrite elem_of_app, elem_of_cons, elem_of_app. tauto.
Qed.

Lemma wanted_on_domain (c : Crawler) (l : string) :
  wanted c l = true -> l ≠ "" ∧ get_domain l = get_domain (start_url c).
Proof.
  unfold wanted. intros H.
  apply andb_prop in H as [H _]. apply andb_prop in H as [H _].
  apply andb_prop in H as [Hne Hd]. apply bool_decide_eq_true in Hd.
  split; [|done]. by destruct l.
Qed.

Lemma enqueue_links_queue (links : list string) (c : Crawler) (u : string) :
  u ∈ urls_to_process (enqueue_links c links) ->
  u ∈ urls_to_process c ∨ (u ≠ "" ∧ get_domain u = get_domain (start_url c)).
Proof.
  unfold enqueue_links. revert c.
  induction links as [|l links IH]; intros c; simpl; [by left|].
  intros H. apply IH in H. destruct (wanted c l) eqn:E; [|done].
  apply wanted_on_domain in E. simpl in H.
  destruct H as [H|H]; [|by right].
  apply elem_of_app in H as [H|H]; [by left|].
  apply list_elem_of_singleton in H as ->. by right.
Qed.

Lemma scope_inv_step (c0 : Crawler) (s s' : Crawler * list Task) :
  step s s' -> scope_inv c0 s -> scope_inv c0 s'.
Proof.
  intros Hstep (Hs & Ht & Hf). destruct Hstep; unfold scope_inv; simpl in *.
  - pose proof (get_config _ _ _ H) as (Hs' & _).
    apply get_fields in H as (_ & Hf' & _).
    destruct (call_process_url_cases c' url 0) as [[_ ->]|[Hk ->]]; simpl.
    + repeat split; [congruence | done |]. by rewrite Hf'.
    + apply skips_in_scope in Hk. rewrite Hs', Hs in Hk.
      repeat split; [congruence | | by rewrite Hf'].
      intros t [->|Hin]%elem_of_cons; [done | by apply Ht].
  - pose proof (get_config _ _ _ H) as (Hs' & _).
    apply get_fields in H as (_ & Hf' & _).
    repeat split; [congruence | done |]. by rewrite Hf'.
  - repeat split; [done | |].
    + intros t Hin. rewrite elem_of_app, elem_of_cons in Hin.
      destruct Hin as [Hin|[->|Hin]].
      * apply Ht. elem_solve.
      * apply (Ht (Waiting url rc)). elem_solve.
      * apply Ht. elem_solve.
    + intros u [Hu|Hu]%elem_of_app; [by apply Hf|].
      apply list_elem_of_singleton in Hu as ->.
      apply (Ht (Waiting url rc)). elem_solve.
  - repeat split; [done | | done].
    intros t Hin. rewrite elem_of_app, elem_of_cons in Hin.
    destruct Hin as [Hin|[->|Hin]].
    + apply Ht. elem_solve.
    + apply (Ht (Fetching url rc)). elem_solve.
    + apply Ht. elem_solve.
  - repeat split; [done | | done].
    intros t [->|Hin]%elem_after_failure.
    + apply (Ht (Fetching url rc)). elem_solve.
    + apply Ht. elem_solve.
  - destruct (on_stored_fields c links anchors) as (-> & _ & _ & _ & ->).
    repeat split; [done | | done].
    intros t Hin. apply Ht. elem_solve.
  - repeat split; [done | | done].
    intros t [->|Hin]%elem_after_failure.
    + apply (Ht (Storing url rc links anchors)). elem_solve.
    + apply Ht. elem_solve.
  - assert (Hu : should_crawl_url url (start_url c0) = true).
    { apply (Ht (Sleeping url rc)). elem_solve. }
    destruct (call_process_url_cases c url (rc + 1)) as [[_ ->]|[_ ->]]; simpl.
    + repeat split; [done | | done]. intros t Hin. apply Ht. elem_solve.
    + repeat split; [done | | done].
      intros t Hin. rewrite elem_of_app, elem_of_cons in Hin.
      destruct Hin as [Hin|[->|Hin]]; [apply Ht; elem_solve | done | apply Ht; elem_solve].
Qed.

Lemma queue_inv_step (c0 : Crawler) (s s' : Crawler * list Task) :
  step s s' -> queue_inv c0 s -> queue_inv c0 s'.
Proof.
  intros Hstep (Hs & Hq). destruct Hstep; unfold queue_inv; simpl in *.
  - apply get_config in H as (Hs' & _ & _ & Hqueue).
    assert (Hq' : forall u, u ∈ urls_to_process c' ->
                u ∈ urls_to_process c0
                ∨ (u ≠ "" ∧ get_domain u = get_domain (start_url c0))).
    { intros u Hu. apply Hq. rewrite Hqueue. by right. }
    destruct (call_process_url_cases c' url 0) as [[_ ->]|[_ ->]]; simpl;
      (split; [congruence | done]).
  - apply get_config in H as (Hs' & _ & _ & Hqueue).
    split; [congruence|]. intros u Hu. apply Hq. rewrite Hqueue. by right.
  - done.
  - done.
  - done.
  - destruct (on_stored_fields c links anchors) as (Hs' & _).
    split; [congruence|]. intros u Hu. unfold on_stored in Hu.
    apply enqueue_links_queue in Hu as [Hu|Hu].
    + apply enqueue_links_queue in Hu as [Hu|Hu]; [by apply Hq|].
      right. by rewrite <- Hs.
    + right. destruct (enqueue_links_config links c) as (Hs'' & _).
      by rewrite <- Hs, <- Hs''.
  - done.
  - destruct (call_process_url_cases c url (rc + 1)) as [[_ ->]|[_ ->]]; done.
Qed.

Lemma nodup_middle (t1 t2 : list Task) (x t : Task) :
  NoDup (task_url <$> t1 ++ x :: t2) -> t ∈ t1 ++ t2 -> task_url t ≠ task_url x.
Proof.
  rewrite fmap_app, fmap_cons, <- Permutation_middle, NoDup_cons, <- fmap_app.
  intros [Hx _] Hin Heq. apply Hx. rewrite <- Heq.
  apply list_elem_of_fmap. by exists t.
Qed.

Lemma progress_inv_step (c0 : Crawler) (s s' : Crawler * list Task) :
  step s s' -> scheduler_inv s -> progress_inv c0 s -> progress_inv c0 s'.
Proof.
  intros Hstep (_ & Hnd & _) (Hp & Hst & Hpf & Hn).
  destruct Hstep; unfold progress_inv; simpl in *.
  - pose proof (get_config _ _ _ H) as (_ & Hn' & _).
    apply get_fields in H as (_ & Hf' & Hp').
    destruct (call_process_url_cases c' url 0) as [[_ ->]|[Hk ->]]; simpl;
      rewrite ?Hf', ?Hp', ?Hn'; [done|].
    apply skips_fresh in Hk as [_ Hk]. rewrite Hp' in Hk.
    repeat split; [| | done | done].
    + intros t [->|Hin]%elem_of_cons; [done | by apply Hp].
    + intros t [->|Hin]%elem_of_cons; [done | by apply Hst].
  - pose proof (get_config _ _ _ H) as (_ & Hn' & _).
    apply get_fields in H as (_ & Hf' & Hp').
    by rewrite ?Hf', ?Hp', ?Hn'.
  - repeat split; [| | | done].
    + intros t Hin Hpe. rewrite elem_of_app, elem_of_cons in Hin.
      destruct Hin as [Hin|[->|Hin]].
      * apply Hp; [elem_solve | done].
      * apply (Hp (Waiting url rc)); [elem_solve | done].
      * apply Hp; [elem_solve | done].
    + intros t Hin Hs. rewrite elem_of_app, elem_of_cons in Hin.
      apply elem_of_app.
      destruct Hin as [Hin|[->|Hin]].
      * left. apply Hst; [elem_solve | done].
      * right. by apply list_elem_of_singleton.
      * left. apply Hst; [elem_solve | done].
    + intros u Hu. apply elem_of_app. left. by apply Hpf.
  - assert (Hfresh : url ∉ processed_urls c).
    { apply (Hp (Fetching url rc)); [elem_solve | done]. }
    assert (Hfetched : url ∈ fetched c).
    { apply (Hst (Fetching url rc)); [elem_solve | done]. }
    repeat split.
    + intros t Hin Hpe. rewrite elem_of_app, elem_of_cons in Hin.
      assert (Hin' : t ∈ t1 ++ t2).
      { destruct Hin as [Hin|[->|Hin]]; [elem_solve | done | elem_solve]. }
      rewrite elem_of_union, elem_of_singleton.
      intros [Heq|Hproc].
      * by apply (nodup_middle _ _ _ _ Hnd Hin').
      * revert Hproc. apply Hp; [elem_solve | done].
    + intros t Hin Hs. rewrite elem_of_app, elem_of_cons in Hin.
      destruct Hin as [Hin|[->|Hin]]; [| done |]; (apply Hst; [elem_solve | done]).
    + intros u [->%elem_of_singleton|Hu]%elem_of_union; [done | by apply Hpf].
    + rewrite size_union by (apply disjoint_singleton_l; done).
      rewrite size_singleton, Hn. lia.
  - assert (Hfetched : url ∈ fetched c).
    { apply (Hst (Fetching url rc)); [elem_solve | done]. }
    repeat split; [| | done | done].
    + intros t [->|Hin]%elem_after_failure; [done|]. apply Hp. elem_solve.
    + intros t [->|Hin]%elem_after_failure; [done|]. apply Hst. elem_solve.
  - destruct (on_stored_fields c links anchors) as (_ & -> & -> & _ & ->).
    repeat split; [| | done | done].
    + intros t Hin. apply Hp. elem_solve.
    + intros t Hin. apply Hst. elem_solve.
  - assert (Hfetched : url ∈ fetched c).
    { apply (Hst (Storing url rc links anchors)); [elem_solve | done]. }
    repeat split; [| | done | done].
    + intros t [->|Hin]%elem_after_failure; [done|]. apply Hp. elem_solve.
    + intros t [->|Hin]%elem_after_failure; [done|]. apply Hst. elem_solve.
  - destruct (call_process_url_cases c url (rc + 1)) as [[_ ->]|[Hk ->]]; simpl.
    + repeat split; [| | done | done].
      * intros t Hin. apply Hp. elem_solve.
      * intros t Hin. apply Hst. elem_solve.
    + apply skips_fresh in Hk as [_ Hk].
      repeat split; [| | done | done].
      * intros t Hin Hpe. rewrite elem_of_app, elem_of_cons in Hin.
        destruct Hin as [Hin|[->|Hin]]; [| done |]; (apply Hp; [elem_solve | done]).
      * intros t Hin Hs. rewrite elem_of_app, elem_of_cons in Hin.
        destruct Hin as [Hin|[->|Hin]]; [| done |]; (apply Hst; [elem_solve | done]).
Qed.

Lemma sitemap_inv_step (c0 : Crawler) (s s' : Crawler * list Task) :
  step s s' -> sitemap_inv c0 s -> sitemap_inv c0 s'.
Proof.
  intros Hstep (Hd & Hu). destruct Hstep; unfold sitemap_inv; simpl in *.
  - pose proof (get_config _ _ _ H) as (_ & _ & Hsm & _).
    apply get_fields in H as (_ & _ & Hp').
    destruct (call_process_url_cases c' url 0) as [[_ ->]|[_ ->]]; simpl;
      by rewrite Hsm, Hp'.
  - pose proof (get_config _ _ _ H) as (_ & _ & Hsm & _).
    apply get_fields in H as (_ & _ & Hp'). by rewrite Hsm, Hp'.
  - done.
  - rewrite add_url_domain, add_url_urls, Hd, Hu. split; [done|].
    apply set_eq. intros u.
    case_bool_decide as E;
      rewrite ?elem_of_union, ?elem_of_filter, ?elem_of_union, ?elem_of_singleton.
    + split; [intros [->|[?|[? ?]]] | intros [?|[? [->|?]]]]; tauto.
    + split; [tauto|]. intros [?|[? [->|?]]]; tauto.
  - done.
  - by destruct (on_stored_fields c links anchors) as (_ & _ & -> & -> & _).
  - done.
  - destruct (call_process_url_cases c url (rc + 1)) as [[_ ->]|[_ ->]]; done.
Qed.

(** All four invariants, and the scheduler invariant, hold in every state
    reachable from the start of [crawl_parallel]. *)
Lemma pool_invariants (start : string) (retries_max : Z)
      (sm : SitemapGenerator.Sitemap) (seeds : list string)
      (s : Crawler * list Task) :
  let c0 := crawl_parallel_init start retries_max sm seeds in
  reachable c0 s ->
  scheduler_inv s ∧ scope_inv c0 s ∧ progress_inv c0 s
  ∧ sitemap_inv c0 s ∧ queue_inv c0 s.
Proof.
  intros c0 Hr. unfold reachable in Hr.
  assert (Hgen : forall s1 s2, rtc step s1 s2 ->
            scheduler_inv s1 ∧ scope_inv c0 s1 ∧ progress_inv c0 s1
            ∧ sitemap_inv c0 s1 ∧ queue_inv c0 s1 ->
            scheduler_inv s2 ∧ scope_inv c0 s2 ∧ progress_inv c0 s2
            ∧ sitemap_inv c0 s2 ∧ queue_inv c0 s2).
  { induction 1 as [|s1 s2 s3 Hs _ IH]; [done|].
    intros (H1 & H2 & H3 & H4 & H5). apply IH.
    split; [|split; [|split; [|split]]].
    - by apply (inv_step s1).
    - by apply (scope_inv_step c0 s1).
    - by apply (progress_inv_step c0 s1).
    - by apply (sitemap_inv_step c0 s1).
    - by apply (queue_inv_step c0 s1). }
  apply (Hgen _ _ Hr). clear.
  split; [|split; [|split; [|split]]].
  - unfold scheduler_inv. simpl.
    repeat split; try constructor; by intros ? ?%elem_of_nil.
  - unfold scope_inv. simpl. repeat split; by intros ? ?%elem_of_nil.
  - unfold progress_inv. simpl. split; [|split; [|split]].
    + by intros ? ?%elem_of_nil.
    + by intros ? ?%elem_of_nil.
    + by intros ? ?%not_elem_of_empty.
    + first [reflexivity | rewrite size_empty; lia].
  - unfold sitemap_inv. simpl. split; [done|].
    apply set_eq. intros u. rewrite elem_of_union, elem_of_filter.
    split; [by left|]. intros [Hu|[_ Hu]]; [done|].
    by apply not_elem_of_empty in Hu.
  - unfold queue_inv. simpl. split; [done|]. intros u Hu. by left.
Qed.

End PoolFacts.

(** A run of the pool on one seed: the seed is pulled, fetched with
    success and stored, and its two anchors are considered for the queue. *)
Lemma example_run_reachable :
  let u := "https://ex.com/docs" in
  let sm := SitemapGenerator.init "ex.com" u in
  let c0 := WebCrawler.crawl_parallel_init u 3 sm [u] in
  let c0' := WebCrawler.mkCrawler u 3 ∅ ∅ sm [] 0 [] in
  WebCrawler.reachable c0
    (WebCrawler.on_stored
       (WebCrawler.on_success
          (WebCrawler.begin_fetch (WebCrawler.mark_queued c0' u) u) u)
       [] ["https://ex.com/docs/a"; "https://other.org/x"],
     []).
Proof.
  intros u sm c0 c0'. unfold WebCrawler.reachable.
  eapply rtc_l.
  { apply (WebCrawler.step_get c0 [] u c0'); reflexivity. }
  destruct (call_process_url_cases c0' u 0) as [[Hk _]|[_ ->]].
  { exfalso. revert Hk. unfold WebCrawler.skips, c0'.
    cbn [WebCrawler.processed_urls WebCrawler.queued_urls WebCrawler.start_url].
    rewrite !bool_decide_eq_false_2 by apply not_elem_of_empty.
    replace (should_crawl_url u u) with true by (vm_compute; reflexivity).
    discriminate. }
  cbn [fst snd app].
  eapply rtc_l;
    [exact (WebCrawler.step_acquire (WebCrawler.mark_queued c0' u) [] [] u 0)|].
  eapply rtc_l;
    [exact (WebCrawler.step_success _ [] [] u 0 []
              ["https://ex.com/docs/a"; "https://other.org/x"])|].
  eapply rtc_l; [exact (WebCrawler.step_stored _ [] [] u 0 [] _)|].
  apply rtc_refl.
Qed.

(** X13: the pool never fetches, and never marks as processed, a URL
    that [should_crawl_url] rejects against the start URL, whatever the
    seeds and the links found. *)
Theorem only_in_scope_urls_fetched
        (start : string) (retries_max : Z) (sm : SitemapGenerator.Sitemap)
        (seeds : list string) (s : WebCrawler.Crawler * list WebCrawler.Task) :
  WebCrawler.reachable
    (WebCrawler.crawl_parallel_init start retries_max sm seeds) s ->
  forall u, u ∈ WebCrawler.fetched s.1 ∨ u ∈ WebCrawler.processed_urls s.1 ->
            should_crawl_url u start = true.
Proof.
  intros Hr. apply pool_invariants in Hr as (_ & (_ & _ & Hf) & (_ & _ & Hp & _) & _).
  intros u [Hu|Hu]; apply Hf; [done | by apply Hp].
Qed.

Lemma only_in_scope_urls_fetched_witness :
  let u := "https://ex.com/docs" in
  let sm := SitemapGenerator.init "ex.com" u in
  let s := (WebCrawler.on_stored
              (WebCrawler.on_success
                 (WebCrawler.begin_fetch
                    (WebCrawler.mark_queued
                       (WebCrawler.mkCrawler u 3 ∅ ∅ sm [] 0 []) u) u) u)
              [] ["https://ex.com/docs/a"; "https://other.org/x"], []) in
  WebCrawler.reachable (WebCrawler.crawl_parallel_init u 3 sm [u]) s
  ∧ forall v, v ∈ WebCrawler.fetched s.1 ∨ v ∈ WebCrawler.processed_urls s.1 ->
              should_crawl_url v u = true.
Proof.
  intros u sm s. split; [exact example_run_reachable|].
  exact (only_in_scope_urls_fetched u 3 sm [u] s example_run_reachable).
Defined.

(** X14: in every reachable state the progress counter equals the number
    of processed URLs, and every processed URL has been fetched: the counter
    advances once per successful crawl and never for a failed URL. *)
Theorem progress_counts_processed
        (start : string) (retries_max : Z) (sm : SitemapGenerator.Sitemap)
        (seeds : list string) (s : WebCrawler.Crawler * list WebCrawler.Task) :
  WebCrawler.reachable
    (WebCrawler.crawl_parallel_init start retries_max sm seeds) s ->
  WebCrawler.progress s.1 = size (WebCrawler.processed_urls s.1)
  ∧ forall u, u ∈ WebCrawler.processed_urls s.1 -> u ∈ WebCrawler.fetched s.1.
Proof.
  intros Hr. apply pool_invariants in Hr as (_ & _ & (_ & _ & Hp & Hn) & _).
  split; [exact Hn | exact Hp].
Qed.

Lemma progress_counts_processed_witness :
  let u := "https://ex.com/docs" in
  let sm := SitemapGenerator.init "ex.com" u in
  let s := (WebCrawler.on_stored
              (WebCrawler.on_success
                 (WebCrawler.begin_fetch
                    (WebCrawler.mark_queued
                       (WebCrawler.mkCrawler u 3 ∅ ∅ sm [] 0 []) u) u) u)
              [] ["https://ex.com/docs/a"; "https://other.org/x"], []) in
  WebCrawler.reachable (WebCrawler.crawl_parallel_init u 3 sm [u]) s
  ∧ WebCrawler.progress s.1 = size (WebCrawler.processed_urls s.1)
  ∧ forall v, v ∈ WebCrawler.processed_urls s.1 -> v ∈ WebCrawler.fetched s.1.
Proof.
  intros u sm s. split; [exact example_run_reachable|].
  exact (progress_counts_processed u 3 sm [u] s example_run_reachable).
Defined.

(** X15: when the sitemap's domain is the network location of the start
    URL, as [MainApp] constructs it, the sitemap of every reachable state is
    the initial sitemap together with exactly the processed URLs. *)
Theorem sitemap_collects_processed
        (start : string) (retries_max : Z) (sm : SitemapGenerator.Sitemap)
        (seeds : list string) (s : WebCrawler.Crawler * list WebCrawler.Task) :
  SitemapGenerator.domain sm = get_domain start ->
  WebCrawler.reachable
    (WebCrawler.crawl_parallel_init start retries_max sm seeds) s ->
  SitemapGenerator.urls (WebCrawler.sitemap s.1)
  = SitemapGenerator.urls sm ∪ WebCrawler.processed_urls s.1.
Proof.
  intros Hd Hr.
  pose proof (pool_invariants _ _ _ _ _ Hr) as Hinv.
  destruct Hinv as (_ & (_ & _ & Hf) & (_ & _ & Hp & _) & (_ & Hu) & _).
  simpl in *. rewrite Hu. apply set_eq. intros u.
  rewrite !elem_of_union, elem_of_filter. split; [tauto|].
  intros [H|H]; [by left|]. right. split; [|done].
  specialize (Hf u (Hp u H)). unfold should_crawl_url in Hf.
  apply andb_prop in Hf as [Hn _]. apply bool_decide_eq_true in Hn.
  rewrite Hd. unfold get_domain. done.
Qed.

Lemma sitemap_collects_processed_witness :
  let u := "https://ex.com/docs" in
  let sm := SitemapGenerator.init "ex.com" u in
  let s := (WebCrawler.on_stored
              (WebCrawler.on_success
                 (WebCrawler.begin_fetch
                    (WebCrawler.mark_queued
                       (WebCrawler.mkCrawler u 3 ∅ ∅ sm [] 0 []) u) u) u)
              [] ["https://ex.com/docs/a"; "https://other.org/x"], []) in
  SitemapGenerator.domain sm = get_domain u
  ∧ WebCrawler.reachable (WebCrawler.crawl_parallel_init u 3 sm [u]) s
  ∧ SitemapGenerator.urls (WebCrawler.sitemap s.1)
    = SitemapGenerator.urls sm ∪ WebCrawler.processed_urls s.1.
Proof.
  intros u sm s.
  assert (Hd : SitemapGenerator.domain sm = get_domain u)
    by (vm_compute; reflexivity).
  split; [exact Hd|]. split; [exact example_run_reachable|].
  exact (sitemap_collects_processed u 3 sm [u] s Hd example_run_reachable).
Defined.

(** X16: every URL waiting in the queue is one of the seeds or a non-empty
    URL whose network location is the start URL's: links to other domains
    are never enqueued. *)
Theorem queue_stays_on_domain
        (start : string) (retries_max : Z) (sm : SitemapGenerator.Sitemap)
        (seeds : list string) (s : WebCrawler.Crawler * list WebCrawler.Task) :
  WebCrawler.reachable
    (WebCrawler.crawl_parallel_init start retries_max sm seeds) s ->
  forall u, u ∈ WebCrawler.urls_to_process s.1 ->
            u ∈ seeds ∨ (u ≠ "" ∧ get_domain u = get_domain start).
Proof.
  intros Hr. apply pool_invariants in Hr as (_ & _ & _ & _ & (_ & Hq)).
  exact Hq.
Qed.

Lemma queue_stays_on_domain_witness :
  let u := "https://ex.com/docs" in
  let sm := SitemapGenerator.init "ex.com" u in
  let s := (WebCrawler.on_stored
              (WebCrawler.on_success
                 (WebCrawler.begin_fetch
                    (WebCrawler.mark_queued
                       (WebCrawler.mkCrawler u 3 ∅ ∅ sm [] 0 []) u) u) u)
              [] ["https://ex.com/docs/a"; "https://other.org/x"], []) in
  WebCrawler.reachable (WebCrawler.crawl_parallel_init u 3 sm [u]) s
  ∧ forall v, v ∈ WebCrawler.urls_to_process s.1 ->
              v ∈ [u] ∨ (v ≠ "" ∧ get_domain v = get_domain u).
Proof.
  intros u sm s. split; [exact example_run_reachable|].
  exact (queue_stays_on_domain u 3 sm [u] s example_run_reachable).
Defined.

(** X17: [process_url] returns for every behaviour of the fetcher, with a
    recursion depth of at most two, and hands the URL to the fetcher at
    most once per call, whatever the outcome and the retry budget. *)
Theorem process_url_at_most_one_fetch
        (fuel : nat) (arun : string -> nat -> WebCrawler.FetchOutcome)
        (c : WebCrawler.Crawler) (url : string) (rc : Z) :
  exists c',
    WebCrawler.process_url (S (S fuel)) arun c url rc = Some c'
    ∧ (WebCrawler.fetched c' = WebCrawler.fetched c
       ∨ WebCrawler.fetched c' = WebCrawler.fetched c ++ [url]).
Proof.
  cbn [WebCrawler.process_url].
  destruct (WebCrawler.skips c url) eqn:Hk; [exists c; by split; [|left]|].
  cbv zeta.
  set (c1 := WebCrawler.begin_fetch (WebCrawler.mark_queued c url) url).
  assert (Hseen1 : WebCrawler.skips c1 url = true).
  { apply skips_seen. right. simpl. apply elem_of_union. left.
    by apply elem_of_singleton. }
  assert (Hseen2 : WebCrawler.skips (WebCrawler.on_success c1 url) url = true).
  { apply skips_seen. left. simpl. apply elem_of_union. left.
    by apply elem_of_singleton. }
  destruct (arun url (length (WebCrawler.fetched (WebCrawler.mark_queued c url))))
    as [links anchors [|]| |].
  - eexists. split; [reflexivity|]. right.
    by destruct (on_stored_fields (WebCrawler.on_success c1 url) links anchors)
      as (_ & _ & _ & _ & ->).
  - destruct (WebCrawler.retries (WebCrawler.on_success c1 url) rc).
    + rewrite Hseen2. eexists. split; [reflexivity | by right].
    + eexists. split; [reflexivity | by right].
  - destruct (WebCrawler.retries c1 rc).
    + rewrite Hseen1. eexists. split; [reflexivity | by right].
    + eexists. split; [reflexivity | by right].
  - destruct (WebCrawler.retries c1 rc).
    + rewrite Hseen1. eexists. split; [reflexivity | by right].
    + eexists. split; [reflexivity | by right].
Qed.

(** ** Enrichment: retries and the shape of a record *)

Section RetryLaw.
Import DocumentProcessor.

Lemma retry_from_first_success {A} (func : nat -> result A) (n k : nat) (a : A) :
  (k < n)%nat ->
  func k = Ok a ->
  forall (remaining attempt : nat) (slept : list Z),
    (attempt + remaining = n)%nat -> (attempt <= k)%nat ->
    (forall i, (attempt <= i < k)%nat -> exists e, func i = Raise e) ->
    retry_from func (Z.of_nat n) attempt remaining slept
    = (Ok (Some a),
       slept ++ ((fun i => 2 ^ Z.of_nat i) <$> seq attempt (k - attempt))).
Proof.
  intros Hk Ha. induction remaining as [|r IH]; intros attempt slept Hn Hle Hfail.
  - lia.
  - cbn [retry_from]. destruct (decide (attempt = k)) as [->|Hne].
    + rewrite Ha, Nat.sub_diag. simpl. by rewrite app_nil_r.
    + destruct (Hfail attempt) as [e ->]; [lia|].
      rewrite (proj2 (Z.eqb_neq _ _)) by lia.
      rewrite (IH (S attempt)); [|lia|lia|intros i Hi; apply Hfail; lia].
      replace (k - attempt)%nat with (S (k - S attempt)) by lia.
      simpl. by rewrite <- app_assoc.
Qed.

Lemma retry_from_exhausted {A} (func : nat -> result A) (n : nat) (e : exn) :
  (1 <= n)%nat ->
  func (n - 1)%nat = Raise e ->
  forall (remaining attempt : nat) (slept : list Z),
    (attempt + remaining = n)%nat -> (1 <= remaining)%nat ->
    (forall i, (attempt <= i < n - 1)%nat -> exists e', func i = Raise e') ->
    retry_from func (Z.of_nat n) attempt remaining slept
    = (Raise e,
       slept ++ ((fun i => 2 ^ Z.of_nat i) <$> seq attempt (n - 1 - attempt))).
Proof.
  intros Hn He. induction remaining as [|r IH]; intros attempt slept Hsum Hr Hfail.
  - lia.
  - cbn [retry_from]. destruct (decide (attempt = n - 1)%nat) as [->|Hne].
    + rewrite He. rewrite (proj2 (Z.eqb_eq _ _)) by lia.
      rewrite Nat.sub_diag. simpl. by rewrite app_nil_r.
    + destruct (Hfail attempt) as [e' ->]; [lia|].
      rewrite (proj2 (Z.eqb_neq _ _)) by lia.
      rewrite (IH (S attempt)); [|lia|lia|intros i Hi; apply Hfail; lia].
      replace (n - 1 - attempt)%nat with (S (n - 1 - S attempt)) by lia.
      simpl. by rewrite <- app_assoc.
Qed.

End RetryLaw.

(** X18: if the first [k] calls raise and call [k] returns, with [k] below
    [max_retries], [retry_with_backoff] returns that result after exactly
    [k] sleeps of 1, 2, 4, ... time units. *)
Theorem retry_with_backoff_first_success
        {A} (func : nat -> DocumentProcessor.result A) (n k : nat) (a : A) :
  (k < n)%nat ->
  (forall i, (i < k)%nat -> exists e, func i = DocumentProcessor.Raise e) ->
  func k = DocumentProcessor.Ok a ->
  DocumentProcessor.retry_with_backoff func (Z.of_nat n)
  = (DocumentProcessor.Ok (Some a), (fun i => 2 ^ Z.of_nat i) <$> seq 0 k).
Proof.
  intros Hk Hfail Ha. unfold DocumentProcessor.retry_with_backoff.
  rewrite Nat2Z.id.
  rewrite (retry_from_first_success func n k a Hk Ha n 0 []);
    [by rewrite Nat.sub_0_r | lia | lia | intros i Hi; apply Hfail; lia].
Qed.

Lemma retry_with_backoff_first_success_witness :
  let func := fun i : nat =>
    if (i <? 2)%nat then DocumentProcessor.Raise DocumentProcessor.ConnectError
    else DocumentProcessor.Ok i in
  (2 < 5)%nat
  ∧ DocumentProcessor.retry_with_backoff func (Z.of_nat 5)
    = (DocumentProcessor.Ok (Some 2%nat), [1; 2]).
Proof.
  intros func. split; [lia|].
  apply (retry_with_backoff_first_success func 5 2 2%nat); [lia | | reflexivity].
  intros i Hi. exists DocumentProcessor.ConnectError. unfold func.
  by rewrite (proj2 (Nat.ltb_lt i 2) Hi).
Defined.

(** X19: if all [max_retries] calls raise, [retry_with_backoff] re-raises
    the exception of the last call, after [max_retries - 1] sleeps of 1, 2,
    4, ... time units and no sleep after the last attempt. *)
Theorem retry_with_backoff_exhausted
        {A} (func : nat -> DocumentProcessor.result A) (n : nat)
        (e : DocumentProcessor.exn) :
  (1 <= n)%nat ->
  (forall i, (i < n - 1)%nat -> exists e', func i = DocumentProcessor.Raise e') ->
  func (n - 1)%nat = DocumentProcessor.Raise e ->
  DocumentProcessor.retry_with_backoff func (Z.of_nat n)
  = (DocumentProcessor.Raise e, (fun i => 2 ^ Z.of_nat i) <$> seq 0 (n - 1)).
Proof.
  intros Hn Hfail He. unfold DocumentProcessor.retry_with_backoff.
  rewrite Nat2Z.id.
  rewrite (retry_from_exhausted func n e Hn He n 0 []);
    [by rewrite Nat.sub_0_r | lia | lia | intros i Hi; apply Hfail; lia].
Qed.

Lemma retry_with_backoff_exhausted_witness :
  let func := fun i : nat =>
    if (i <? 3)%nat
    then @DocumentProcessor.Raise nat DocumentProcessor.ConnectError
    else DocumentProcessor.Raise DocumentProcessor.HTTPStatusError in
  (1 <= 4)%nat
  ∧ DocumentProcessor.retry_with_backoff func (Z.of_nat 4)
    = (DocumentProcessor.Raise DocumentProcessor.HTTPStatusError, [1; 2; 4]).
Proof.
  intros func. split; [lia|].
  apply (retry_with_backoff_exhausted func 4 DocumentProcessor.HTTPStatusError);
    [lia | | reflexivity].
  intros i Hi. exists DocumentProcessor.ConnectError. unfold func.
  by rewrite (proj2 (Nat.ltb_lt i 3)) by lia.
Defined.

(** X20: [get_embedding] returns what the first answered request carries:
    if the first [k] of the three requests fail and request [k] is answered
    with a JSON object, the result is that object's [embedding] entry, or
    the zero vector when the object has no such entry, after [k] sleeps. *)
Theorem get_embedding_first_answer
        (replies : nat -> DocumentProcessor.HttpReply) (k : nat)
        (fields : list (string * DocumentProcessor.json)) :
  (k < 3)%nat ->
  (forall i, (i < k)%nat ->
     exists e, DocumentProcessor._get_embedding (replies i)
               = DocumentProcessor.Raise e) ->
  replies k = DocumentProcessor.Body (Some (DocumentProcessor.JObj fields)) ->
  DocumentProcessor.get_embedding replies
  = (default DocumentProcessor.zero_embedding
             (DocumentProcessor.assoc "embedding" fields),
     (fun i => 2 ^ Z.of_nat i) <$> seq 0 k).
Proof.
  intros Hk Hfail Hr. unfold DocumentProcessor.get_embedding.
  change 3 with (Z.of_nat 3).
  unfold DocumentProcessor.retry_with_backoff. rewrite Nat2Z.id.
  rewrite (retry_from_first_success
             (fun i => DocumentProcessor._get_embedding (replies i)) 3 k
             (default DocumentProcessor.zero_embedding
                      (DocumentProcessor.assoc "embedding" fields)));
    [by rewrite Nat.sub_0_r | lia | by rewrite Hr | lia | lia
     | intros i Hi; apply Hfail; lia].
Qed.

Lemma get_embedding_first_answer_witness :
  let replies := fun i : nat =>
    if (i <? 1)%nat then DocumentProcessor.BadStatus
    else DocumentProcessor.Body
           (Some (DocumentProcessor.JObj [("model", DocumentProcessor.JStr "m")])) in
  (1 < 3)%nat
  ∧ DocumentProcessor.get_embedding replies
    = (DocumentProcessor.zero_embedding, [1]).
Proof.
  intros replies. split; [lia|].
  apply (get_embedding_first_answer replies 1
           [("model", DocumentProcessor.JStr "m")]); [lia | | reflexivity].
  intros i Hi. exists DocumentProcessor.HTTPStatusError.
  destruct i; [reflexivity | lia].
Defined.

(** X21: if all three embedding requests fail, [get_embedding] returns a
    list of 768 zeros, having slept 1 and then 2 time units. *)
Theorem get_embedding_all_failed
        (replies : nat -> DocumentProcessor.HttpReply) :
  (forall i, (i < 3)%nat ->
     exists e, DocumentProcessor._get_embedding (replies i)
               = DocumentProcessor.Raise e) ->
  exists items,
    DocumentProcessor.get_embedding replies = (DocumentProcessor.JArr items, [1; 2])
    ∧ length items = 768%nat
    ∧ Forall (fun x => x = DocumentProcessor.JNum (QArith_base.Qmake 0 1)) items.
Proof.
  intros Hfail. destruct zero_embedding_dimension as (items & Hz & Hl & Hall).
  exists items. split; [|by split].
  destruct (Hfail 2%nat) as [e He]; [lia|].
  unfold DocumentProcessor.get_embedding, DocumentProcessor.retry_with_backoff.
  change 3 with (Z.of_nat 3). rewrite Nat2Z.id.
  rewrite (retry_from_exhausted
             (fun i => DocumentProcessor._get_embedding (replies i)) 3 e);
    [by rewrite <- Hz | lia | exact He | lia | lia
     | intros i Hi; apply Hfail; lia].
Qed.

Lemma get_embedding_all_failed_witness :
  (forall i, (i < 3)%nat ->
     exists e, DocumentProcessor._get_embedding
                 ((fun _ : nat => DocumentProcessor.ConnectFailed) i)
               = DocumentProcessor.Raise e)
  ∧ exists items,
      DocumentProcessor.get_embedding (fun _ => DocumentProcessor.ConnectFailed)
      = (DocumentProcessor.JArr items, [1; 2])
      ∧ length items = 768%nat
      ∧ Forall (fun x => x = DocumentProcessor.JNum (QArith_base.Qmake 0 1)) items.
Proof.
  assert (H : forall i, (i < 3)%nat ->
            exists e, DocumentProcessor._get_embedding
                        ((fun _ : nat => DocumentProcessor.ConnectFailed) i)
                      = DocumentProcessor.Raise e).
  { intros i _. by exists DocumentProcessor.ConnectError. }
  split; [exact H|].
  exact (get_embedding_all_failed (fun _ => DocumentProcessor.ConnectFailed) H).
Defined.

(** X22: [process_chunk] yields a record exactly when the value returned by
    [get_title_and_summary] is a JSON object with both a [title] and a
    [summary] entry, and the record then carries those two entries, the
    chunk as content, its number, the URL, the chunk's length and the URL's
    path in the metadata, and whatever [get_embedding] returned; in every
    other case it raises. *)
Theorem process_chunk_ok_iff
        (json_loads : string -> option DocumentProcessor.json)
        (env : DocumentProcessor.Ollama) (chunk url : string) (n : nat)
        (pc : DocumentProcessor.ProcessedChunk) :
  DocumentProcessor.process_chunk json_loads env chunk n url
    = DocumentProcessor.Ok pc
  <-> exists fields t sm,
        DocumentProcessor.get_title_and_summary
          json_loads (DocumentProcessor.generate_reply env)
          = DocumentProcessor.JObj fields
        ∧ DocumentProcessor.assoc "title" fields = Some t
        ∧ DocumentProcessor.assoc "summary" fields = Some sm
        ∧ pc = DocumentProcessor.mkProcessedChunk
                 url n t sm chunk
                 (DocumentProcessor.mkMetadata
                    url (PyStr.len chunk) (DocumentProcessor.utc_now env)
                    (path (urlparse url)))
                 (DocumentProcessor.get_embedding
                    (DocumentProcessor.embedding_reply env)).1.
Proof.
  unfold DocumentProcessor.process_chunk.
  destruct (DocumentProcessor.get_title_and_summary json_loads
              (DocumentProcessor.generate_reply env)) as [| | | | |fields];
    try (split; [discriminate | by intros (? & ? & ? & ? & _)]).
  unfold DocumentProcessor.subscript.
  destruct (DocumentProcessor.assoc "title" fields) as [t|] eqn:Et.
  - destruct (DocumentProcessor.assoc "summary" fields) as [sm|] eqn:Es.
    + unfold DocumentProcessor.bind. split.
      * intros [= <-]. by exists fields, t, sm.
      * intros (f & t' & sm' & [= <-] & Ht & Hs & ->).
        rewrite Et in Ht. rewrite Es in Hs.
        injection Ht as <-. injection Hs as <-. done.
    + unfold DocumentProcessor.bind.
      split; [discriminate|].
      intros (f & t' & sm' & [= <-] & _ & Hs & _). congruence.
  - unfold DocumentProcessor.bind. split; [discriminate|].
    intros (f & t' & sm' & [= <-] & Ht & _). congruence.
Qed.

(** ** Configuration files (ollama_config.py, ArgumentHandler.py) *)

Section ConfigFacts.
Context {V : Type} `{EqDecision V} (of_str : string -> V) (of_int : Z -> V).

Lemma lookup_fill (defaults : list (string * V)) (d : gmap string V) (k : string) :
  OllamaConfig.fill defaults d !! k
  = (fun dv => default dv (d !! k))
      <$> (list_to_map defaults : gmap string V) !! k.
Proof.
  unfold OllamaConfig.fill. induction defaults as [|[k0 v0] l IH]; [done|].
  rewrite fmap_cons. cbn [list_to_map foldr fst snd].
  destruct (decide (k0 = k)) as [->|Hne].
  - by rewrite !lookup_insert_eq.
  - by rewrite !lookup_insert_ne.
Qed.

Lemma fill_idem (defaults : list (string * V)) (d : gmap string V) :
  OllamaConfig.fill defaults (OllamaConfig.fill defaults d)
  = OllamaConfig.fill defaults d.
Proof.
  apply map_eq. intros k. rewrite !lookup_fill.
  destruct ((list_to_map defaults : gmap string V) !! k) as [dv|]; done.
Qed.

Lemma dom_fill (defaults : list (string * V)) (d : gmap string V) :
  dom (OllamaConfig.fill defaults d) = list_to_set (defaults.*1).
Proof.
  unfold OllamaConfig.fill. rewrite dom_list_to_map_L. f_equal.
  rewrite <- list_fmap_compose. by apply list_fmap_ext.
Qed.

Lemma default_keys_nodup :
  NoDup ((ArgumentHandler.DEFAULT_CONFIG of_str of_int).*1).
Proof.
  apply (bool_decide_unpack _). vm_compute. exact I.
Qed.

Lemma ollama_keys_nodup :
  NoDup ((OllamaConfig.DEFAULT_OLLAMA_CONFIG of_str).*1).
Proof.
  apply (bool_decide_unpack _). vm_compute. exact I.
Qed.

Lemma lookup_fill_default (defaults : list (string * V)) (d : gmap string V)
      (k : string) (dv : V) :
  NoDup (defaults.*1) -> (k, dv) ∈ defaults ->
  OllamaConfig.fill defaults d !! k = Some (default dv (d !! k)).
Proof.
  intros Hnd Hin. rewrite lookup_fill.
  by rewrite (elem_of_list_to_map_1 _ _ _ Hnd Hin).
Qed.

Lemma lookup_fill_other (defaults : list (string * V)) (d : gmap string V)
      (k : string) :
  k ∉ defaults.*1 -> OllamaConfig.fill defaults d !! k = None.
Proof.
  intros Hk. rewrite lookup_fill.
  by rewrite (not_elem_of_list_to_map_1 _ _ Hk).
Qed.

Lemma cls_fill (d : gmap string V) :
  OllamaConfig.cls (OllamaConfig.fill (OllamaConfig.DEFAULT_OLLAMA_CONFIG of_str) d)
  = DocumentProcessor.Ok
      (OllamaConfig.mkOllamaConfig
         (default (of_str "http://localhost:11434") (d !! "base_url"))
         (default (of_str "llama3.2:3b") (d !! "model"))
         (default (of_str "nomic-embed-text") (d !! "embed_model"))).
Proof.
  unfold OllamaConfig.cls.
  rewrite !(lookup_fill_default _ d _ _ ollama_keys_nodup)
    by (unfold OllamaConfig.DEFAULT_OLLAMA_CONFIG;
        rewrite !elem_of_cons; tauto).
  rewrite bool_decide_eq_true_2; [done|].
  rewrite <- size_dom, dom_fill.
  by rewrite (size_list_to_set _ ollama_keys_nodup).
Qed.

Lemma mapM_all_some {A B} (f : A -> option B) (g : A -> B) (l : list A) :
  (forall x, x ∈ l -> f x = Some (g x)) -> mapM f l = Some (g <$> l).
Proof.
  induction l as [|x l IH]; intros Hall; [done|].
  cbn [mapM]. rewrite (Hall x) by (by left). simpl.
  rewrite IH by (intros y Hy; apply Hall; by right). done.
Qed.

End ConfigFacts.

(** X23: [OllamaConfig.load_config] reaches a fixed point in one call: run
    again on the file the first call left, it returns the same result and
    leaves the file as it is, so the file is rewritten at most once. *)
Theorem ollama_load_config_fixpoint
        {V : Type} `{EqDecision V} (of_str : string -> V)
        (file : OllamaConfig.ConfigFile (V := V)) :
  OllamaConfig.load_config of_str (OllamaConfig.load_config of_str file).2
  = OllamaConfig.load_config of_str file.
Proof.
  destruct file as [| | |d]; try reflexivity.
  cbn [OllamaConfig.load_config snd]. cbv zeta.
  set (D := OllamaConfig.DEFAULT_OLLAMA_CONFIG of_str).
  assert (Hfile : (if decide (OllamaConfig.fill D d ≠ d)
                   then OllamaConfig.JsonDict (OllamaConfig.fill D d)
                   else OllamaConfig.JsonDict d)
                  = OllamaConfig.JsonDict (OllamaConfig.fill D d)).
  { destruct (decide (OllamaConfig.fill D d ≠ d)) as [|Heq]; [done|].
    apply dec_stable in Heq. by rewrite Heq. }
  rewrite Hfile. cbn [OllamaConfig.load_config]. cbv zeta. fold D.
  rewrite fill_idem. by rewrite decide_False by (intros Hne; by apply Hne).
Qed.

(** X24: on a configuration file holding a JSON object, [load_config]
    returns the three settings, each taken from the file when present and
    from the defaults otherwise, and leaves a file with exactly the keys
    [base_url], [model] and [embed_model]: every other key of the file is
    removed from it. *)
Theorem ollama_load_config_filters_file
        {V : Type} `{EqDecision V} (of_str : string -> V) (d : gmap string V) :
  exists m,
    OllamaConfig.load_config of_str (OllamaConfig.JsonDict d)
    = (DocumentProcessor.Ok
         (OllamaConfig.mkOllamaConfig
            (default (of_str "http://localhost:11434") (d !! "base_url"))
            (default (of_str "llama3.2:3b") (d !! "model"))
            (default (of_str "nomic-embed-text") (d !! "embed_model"))),
       OllamaConfig.JsonDict m)
    ∧ dom m = {["base_url"; "model"; "embed_model"]}
    ∧ m !! "base_url"
      = Some (default (of_str "http://localhost:11434") (d !! "base_url"))
    ∧ m !! "model" = Some (default (of_str "llama3.2:3b") (d !! "model"))
    ∧ m !! "embed_model"
      = Some (default (of_str "nomic-embed-text") (d !! "embed_model")).
Proof.
  set (D := OllamaConfig.DEFAULT_OLLAMA_CONFIG of_str).
  exists (OllamaConfig.fill D d). split; [|split].
  - cbn [OllamaConfig.load_config]. cbv zeta. fold D. unfold D at 1.
    rewrite cls_fill. f_equal.
    destruct (decide (OllamaConfig.fill D d ≠ d)) as [|Heq]; [done|].
    apply dec_stable in Heq. by rewrite Heq.
  - rewrite dom_fill. unfold D, OllamaConfig.DEFAULT_OLLAMA_CONFIG. simpl.
    apply set_eq. intros k.
    rewrite !elem_of_union, !elem_of_singleton.
    split; [intros [?|[?|[?|[]%not_elem_of_empty]]]; tauto | tauto].
  - repeat split;
      apply (lookup_fill_default _ d _ _ (ollama_keys_nodup of_str));
      unfold OllamaConfig.DEFAULT_OLLAMA_CONFIG; rewrite !elem_of_cons; tauto.
Qed.

(** X25: settings saved by [ArgumentHandler.save_config] do not survive
    [OllamaConfig.load_config] when both use the same file (the program run
    from its source directory): after the Ollama loader has filtered the
    file, [ArgumentHandler.load_config] returns the built-in defaults for
    [url], [max_concurrent], [max_retries] and [output_dir], whatever was
    saved. *)
Theorem saved_crawl_settings_lost
        {V : Type} `{EqDecision V} (of_str : string -> V) (of_int : Z -> V)
        (saved : gmap string V) :
  let file := ArgumentHandler.save_config saved in
  let file' := (OllamaConfig.load_config of_str file).2 in
  exists m,
    ArgumentHandler.load_config of_str of_int file' = DocumentProcessor.Ok m
    ∧ m !! "url" = Some (of_str "https://example.com")
    ∧ m !! "max_concurrent" = Some (of_int 5)
    ∧ m !! "max_retries" = Some (of_int 3)
    ∧ m !! "output_dir" = Some (of_str "crawled_data")
    ∧ m !! "base_url"
      = Some (default (of_str "http://localhost:11434") (saved !! "base_url")).
Proof.
  intros file file'.
  set (D := OllamaConfig.DEFAULT_OLLAMA_CONFIG of_str).
  set (D7 := ArgumentHandler.DEFAULT_CONFIG of_str of_int).
  assert (Hfile : file' = OllamaConfig.JsonDict (OllamaConfig.fill D saved)).
  { unfold file', file, ArgumentHandler.save_config.
    cbn [OllamaConfig.load_config snd]. cbv zeta. fold D.
    destruct (decide (OllamaConfig.fill D saved ≠ saved)) as [|Heq]; [done|].
    apply dec_stable in Heq. by rewrite Heq. }
  rewrite Hfile. eexists. split; [reflexivity|]. fold D7.
  assert (Hin : forall k dv, (k, dv) ∈ D7 ->
            OllamaConfig.fill D7 (OllamaConfig.fill D saved) !! k
            = Some (default dv (OllamaConfig.fill D saved !! k))).
  { intros k dv. apply lookup_fill_default, default_keys_nodup. }
  assert (Hout : forall k, k ∉ D.*1 -> OllamaConfig.fill D saved !! k = None).
  { intros k. apply lookup_fill_other. }
  assert (Hk : forall k, k ∈ D.*1 -> k = "base_url" ∨ k = "model" ∨ k = "embed_model").
  { intros k. unfold D, OllamaConfig.DEFAULT_OLLAMA_CONFIG. simpl.
    rewrite !elem_of_cons, elem_of_nil. tauto. }
  assert (Hdef : forall k dv, (k, dv) ∈ D7 -> k ∉ D.*1 ->
            OllamaConfig.fill D7 (OllamaConfig.fill D saved) !! k = Some dv).
  { intros k dv Hkd Hnot. by rewrite (Hin k dv Hkd), (Hout k Hnot). }
  split; [|split; [|split; [|split]]].
  - apply Hdef; [unfold D7, ArgumentHandler.DEFAULT_CONFIG; rewrite !elem_of_cons; tauto|].
    intros [?|[?|?]]%Hk; discriminate.
  - apply Hdef; [unfold D7, ArgumentHandler.DEFAULT_CONFIG; rewrite !elem_of_cons; tauto|].
    intros [?|[?|?]]%Hk; discriminate.
  - apply Hdef; [unfold D7, ArgumentHandler.DEFAULT_CONFIG; rewrite !elem_of_cons; tauto|].
    intros [?|[?|?]]%Hk; discriminate.
  - apply Hdef; [unfold D7, ArgumentHandler.DEFAULT_CONFIG; rewrite !elem_of_cons; tauto|].
    intros [?|[?|?]]%Hk; discriminate.
  - rewrite (Hin "base_url" (of_str "http://localhost:11434"))
      by (unfold D7, ArgumentHandler.DEFAULT_CONFIG; rewrite !elem_of_cons; tauto).
    rewrite (lookup_fill_default D saved "base_url"
               (of_str "http://localhost:11434") (ollama_keys_nodup of_str))
      by (unfold D, OllamaConfig.DEFAULT_OLLAMA_CONFIG; rewrite !elem_of_cons; tauto).
    done.
Qed.

(** X26: [ArgumentHandler.load_config] returns a configuration with
    exactly the seven default keys whenever it returns: from a file holding
    a JSON object each key takes the file's value when present and the
    default otherwise, and keys foreign to the defaults are dropped; a
    missing file or one that is not JSON gives the defaults; a JSON value
    that is not an object makes it raise [AttributeError]. *)
Theorem argument_load_config_keys
        {V : Type} `{EqDecision V} (of_str : string -> V) (of_int : Z -> V)
        (d : gmap string V) :
  let D := ArgumentHandler.DEFAULT_CONFIG of_str of_int in
  (exists m,
      ArgumentHandler.load_config of_str of_int (OllamaConfig.JsonDict d)
      = DocumentProcessor.Ok m
      ∧ dom m = list_to_set (D.*1)
      ∧ forall k dv, (k, dv) ∈ D -> m !! k = Some (default dv (d !! k)))
  ∧ ArgumentHandler.load_config of_str of_int OllamaConfig.NoFile
    = DocumentProcessor.Ok (list_to_map D)
  ∧ ArgumentHandler.load_config of_str of_int OllamaConfig.NotJson
    = DocumentProcessor.Ok (list_to_map D)
  ∧ ArgumentHandler.load_config of_str of_int OllamaConfig.JsonOther
    = DocumentProcessor.Raise DocumentProcessor.AttributeError.
Proof.
  intros D. split; [|by repeat split].
  eexists. split; [reflexivity|]. split; [apply dom_fill|].
  intros k dv. apply lookup_fill_default, default_keys_nodup.
Qed.

(** X27: in [prompt_for_arguments], after a configuration file holding a
    JSON object has been loaded, the value kept for each key is the answer
    when the answer differs from the built-in default, and otherwise the
    file's value (the default when the file has none): an answer equal to
    the built-in default cannot override a different value in the file. *)
Theorem updated_config_answers
        {V : Type} `{EqDecision V} (of_str : string -> V) (of_int : Z -> V)
        (answers : string -> V) (d : gmap string V) :
  let D := ArgumentHandler.DEFAULT_CONFIG of_str of_int in
  exists config updated,
    ArgumentHandler.load_config of_str of_int (OllamaConfig.JsonDict d)
    = DocumentProcessor.Ok config
    ∧ ArgumentHandler.updated_config of_str of_int answers config = Some updated
    ∧ dom updated = list_to_set (D.*1)
    ∧ forall k dv, (k, dv) ∈ D ->
        updated !! k = Some (if decide (answers k = dv)
                             then default dv (d !! k) else answers k).
Proof.
  intros D.
  set (g := fun kv : string * V =>
              (kv.1, if decide (answers kv.1 = kv.2)
                     then default kv.2 (d !! kv.1) else answers kv.1)).
  assert (Hnd : NoDup (D.*1)) by apply default_keys_nodup.
  assert (Hfst : (g <$> D).*1 = D.*1).
  { rewrite <- list_fmap_compose. by apply list_fmap_ext. }
  exists (OllamaConfig.fill D d), (list_to_map (g <$> D)).
  split; [reflexivity|]. split; [|split].
  - unfold ArgumentHandler.updated_config. fold D.
    rewrite (mapM_all_some _ g); [done|].
    intros [k dv] Hin. unfold g. cbn [fst snd].
    destruct (decide (answers k = dv)) as [Heq|Hne].
    + rewrite decide_False by (intros Hc; by apply Hc).
      by rewrite (lookup_fill_default D d k dv Hnd Hin).
    + by rewrite decide_True.
  - by rewrite dom_list_to_map_L, Hfst.
  - intros k dv Hin. apply elem_of_list_to_map_1; [by rewrite Hfst|].
    apply list_elem_of_fmap. by exists (k, dv).
Qed.

(** ** Discovery spider (ScrapyDiscovery.py) *)

Section DiscoveryFacts.
Import ScrapyDiscovery.

Lemma discovery_inv_parse_head (start : string) (sm : SitemapGenerator.Sitemap)
      (self : Spider) (response : Response) :
  discovery_inv start sm self ->
  discovery_inv start sm (parse_head self response).1.
Proof.
  intros Hinv. unfold parse_head. case_bool_decide as Hin; [exact Hinv|].
  destruct Hinv as (Hs & Hd & Hsu & Hnd & Hp & Hn & Hsm & Hr).
  set (n := PyStr.rstrip is_slash (url response)) in *.
  unfold discovery_inv.
  cbn [fst start_url sitemap_generator urls parsed requested].
  rewrite add_url_domain, add_url_start_url, add_url_urls, Hd.
  split; [done|]. split; [done|]. split; [done|]. split; [|split; [|split; [|split]]].
  - apply NoDup_app. split; [done|]. split; [|apply NoDup_singleton].
    intros x Hx ->%list_elem_of_singleton. apply Hin. by apply Hp.
  - intros u. rewrite elem_of_app, list_elem_of_singleton, elem_of_union,
      elem_of_singleton, Hp. tauto.
  - intros u [->%elem_of_singleton|Hu]%elem_of_union; [apply rstrip_idem|by apply Hn].
  - apply set_eq. intros u. case_bool_decide as Hdom.
    + rewrite Hsm, !elem_of_union, !elem_of_filter, elem_of_union,
        !elem_of_singleton. split.
      * intros [->|[H|[H1 H2]]]; [right; split; [done|by left]|by left|].
        right. split; [done|by right].
      * intros [H|[H1 [->|H2]]]; [right; by left|by left|]. right. by right.
    + rewrite Hsm, !elem_of_union, !elem_of_filter, elem_of_union,
        elem_of_singleton. split.
      * intros [H|[H1 H2]]; [by left|]. right. split; [done|by right].
      * intros [H|[H1 [->|H2]]]; [by left|done|]. right. by split.
  - done.
Qed.

Lemma discovery_inv_parse_link (start : string) (sm : SitemapGenerator.Sitemap)
      (self : Spider) (link : option string) :
  discovery_inv start sm self ->
  discovery_inv start sm (parse_link self link).
Proof.
  intros Hinv. unfold parse_link. destruct link as [joined|]; [|exact Hinv].
  destruct (should_crawl_url _ _ && _) eqn:E; [|exact Hinv].
  destruct Hinv as (Hs & Hd & Hsu & Hnd & Hp & Hn & Hsm & Hr).
  apply andb_prop in E as [E _]. rewrite Hs in E.
  unfold discovery_inv.
  cbn [start_url sitemap_generator urls parsed requested].
  split; [done|]. split; [done|]. split; [done|]. split; [done|].
  split; [done|]. split; [done|]. split; [done|].
  intros u [Hu| ->%list_elem_of_singleton]%elem_of_app; [by apply Hr|].
  split; [apply rstrip_idem | exact E].
Qed.

Lemma discovery_inv_step (start : string) (sm : SitemapGenerator.Sitemap)
      (s s' : Spider * list (list (option string))) :
  step s s' -> discovery_inv start sm s.1 -> discovery_inv start sm s'.1.
Proof.
  destruct 1; cbn [fst].
  - apply discovery_inv_parse_head.
  - apply discovery_inv_parse_link.
Qed.

Lemma discovery_invariant (start : string) (sm : SitemapGenerator.Sitemap)
      (s : Spider * list (list (option string))) :
  reachable start sm s -> discovery_inv start sm s.1.
Proof.
  unfold reachable. intros Hr.
  assert (H0 : discovery_inv start sm (spider_init start sm, @nil (list (option string))).1).
  { unfold discovery_inv, spider_init.
    cbn [fst start_url sitemap_generator urls parsed requested].
    split; [done|]. split; [done|]. split; [done|]. split; [apply NoDup_nil_2|].
    split; [|split; [|split]].
    - intros u. split; [by intros ?%elem_of_nil | by intros ?%not_elem_of_empty].
    - by intros u ?%not_elem_of_empty.
    - apply set_eq. intros u. rewrite elem_of_union, elem_of_filter.
      split; [by left|]. intros [H|[_ H]]; [done|by apply not_elem_of_empty in H].
    - by intros u ?%elem_of_nil. }
  revert H0. induction Hr as [|x y z Hxy _ IH]; [done|].
  intros Hx. apply IH. by apply (discovery_inv_step start sm x y).
Qed.

(** A generator run to exhaustion without another call of [parse] in
    between is one of the schedules. *)
Lemma links_reachable (todo : list (option string)) (self : Spider)
      (gens : list (list (option string))) :
  rtc step (self, gens ++ [todo]) (foldl parse_link self todo, gens ++ [[]]).
Proof.
  revert self. induction todo as [|link rest IH]; intros self; [apply rtc_refl|].
  eapply rtc_l; [apply (step_link self gens link rest [])|]. apply IH.
Qed.

Lemma parse_reachable (start : string) (sm : SitemapGenerator.Sitemap)
      (self : Spider) (gens : list (list (option string))) (response : Response) :
  reachable start sm (self, gens) ->
  reachable start sm (parse self response, gens ++ [[]]).
Proof.
  unfold reachable. intros Hr. etrans; [exact Hr|].
  eapply rtc_l; [apply (step_response self gens response)|].
  unfold parse. destruct (parse_head self response) as [self' todo].
  apply links_reachable.
Qed.

End DiscoveryFacts.

(** A discovery run on one response: the start page, with a link into the
    scope, a link out of it and a link that cannot be resolved. *)
Lemma example_discovery_reachable :
  let start := "https://ex.com/docs" in
  let sm := SitemapGenerator.init (get_domain start) start in
  let page := ScrapyDiscovery.mkResponse "https://ex.com/docs/"
                [Some "https://ex.com/docs/a/"; Some "https://other.org/x"; None] in
  ScrapyDiscovery.reachable start sm
    (ScrapyDiscovery.parse (ScrapyDiscovery.spider_init start sm) page, [[]]).
Proof.
  intros start sm page.
  apply (parse_reachable start sm _ [] page). apply rtc_refl.
Qed.

(** X28: whatever responses arrive and however the calls of [parse]
    interleave, the spider reads the links of a page at most once per
    normalised URL, the URLs so handled are exactly the known URLs, and no
    known URL ends in a slash. *)
Theorem discovery_parses_each_url_once
        (start : string) (sm : SitemapGenerator.Sitemap)
        (s : ScrapyDiscovery.Spider * list (list (option string))) :
  ScrapyDiscovery.reachable start sm s ->
  NoDup (ScrapyDiscovery.parsed s.1)
  ∧ (forall u, u ∈ ScrapyDiscovery.parsed s.1 <-> u ∈ ScrapyDiscovery.urls s.1)
  ∧ forall u, u ∈ ScrapyDiscovery.urls s.1 ->
              PyStr.rstrip ScrapyDiscovery.is_slash u = u.
Proof.
  intros Hr. apply discovery_invariant in Hr.
  destruct Hr as (_ & _ & _ & Hnd & Hp & Hn & _).
  split; [exact Hnd|]. split; [exact Hp | exact Hn].
Qed.

Lemma discovery_parses_each_url_once_witness :
  let start := "https://ex.com/docs" in
  let sm := SitemapGenerator.init (get_domain start) start in
  let page := ScrapyDiscovery.mkResponse "https://ex.com/docs/"
                [Some "https://ex.com/docs/a/"; Some "https://other.org/x"; None] in
  let s := (ScrapyDiscovery.parse (ScrapyDiscovery.spider_init start sm) page,
            [[]]) in
  ScrapyDiscovery.reachable start sm s
  ∧ NoDup (ScrapyDiscovery.parsed s.1)
  ∧ (forall u, u ∈ ScrapyDiscovery.parsed s.1 <-> u ∈ ScrapyDiscovery.urls s.1)
  ∧ forall u, u ∈ ScrapyDiscovery.urls s.1 ->
              PyStr.rstrip ScrapyDiscovery.is_slash u = u.
Proof.
  intros start sm page s. split; [exact example_discovery_reachable|].
  exact (discovery_parses_each_url_once start sm s example_discovery_reachable).
Defined.

(** X29: every URL the spider hands to [scrapy.Request] has its trailing
    slashes stripped and is accepted by [should_crawl_url] against the start
    URL, in every schedule of the generators. *)
Theorem discovery_requests_in_scope
        (start : string) (sm : SitemapGenerator.Sitemap)
        (s : ScrapyDiscovery.Spider * list (list (option string))) :
  ScrapyDiscovery.reachable start sm s ->
  forall u, u ∈ ScrapyDiscovery.requested s.1 ->
            PyStr.rstrip ScrapyDiscovery.is_slash u = u
            ∧ should_crawl_url u start = true.
Proof.
  intros Hr. apply discovery_invariant in Hr.
  destruct Hr as (_ & _ & _ & _ & _ & _ & _ & Hq). exact Hq.
Qed.

Lemma discovery_requests_in_scope_witness :
  let start := "https://ex.com/docs" in
  let sm := SitemapGenerator.init (get_domain start) start in
  let page := ScrapyDiscovery.mkResponse "https://ex.com/docs/"
                [Some "https://ex.com/docs/a/"; Some "https://other.org/x"; None] in
  let s := (ScrapyDiscovery.parse (ScrapyDiscovery.spider_init start sm) page,
            [[]]) in
  ScrapyDiscovery.reachable start sm s
  ∧ forall u, u ∈ ScrapyDiscovery.requested s.1 ->
              PyStr.rstrip ScrapyDiscovery.is_slash u = u
              ∧ should_crawl_url u start = true.
Proof.
  intros start sm page s. split; [exact example_discovery_reachable|].
  exact (discovery_requests_in_scope start sm s example_discovery_reachable).
Defined.

(** X30: with the sitemap set up as in [MainApp], and no markup character
    in the URLs it holds, the URLs [load_urls] reads from the file written
    by [closed] are exactly the known URLs of the spider that
    [should_crawl_url] accepts against the start URL: the normalised URLs of
    the responses parsed, less those out of scope. *)
Theorem discovery_then_load_urls
        (find_all_loc : list string -> list string) (start : string)
        (s : ScrapyDiscovery.Spider * list (list (option string))) :
  SitemapGenerator.reads_plain_locations find_all_loc ->
  ScrapyDiscovery.reachable start
    (SitemapGenerator.init (get_domain start) start) s ->
  (forall u, u ∈ SitemapGenerator.urls (ScrapyDiscovery.sitemap_generator s.1) ->
             PyStr.forallb SitemapGenerator.xml_plain u = true) ->
  SitemapGenerator.load_urls (ScrapyDiscovery.sitemap_generator s.1)
                             (find_all_loc <$> ScrapyDiscovery.closed s.1)
  = filter (fun u => should_crawl_url u start = true) (ScrapyDiscovery.urls s.1).
Proof.
  intros Hparser Hr Hplain. apply discovery_invariant in Hr.
  destruct Hr as (_ & _ & Hsu & _ & _ & Hn & Hsm & _).
  unfold ScrapyDiscovery.closed. rewrite load_after_save, Hsu, Hsm by done.
  cbn [SitemapGenerator.init SitemapGenerator.start_url SitemapGenerator.urls
       SitemapGenerator.domain].
  apply set_eq. intros x.
  rewrite !elem_of_filter, elem_of_map. split.
  - intros (Hx & u & -> & Hu). split; [exact Hx|].
    apply elem_of_union in Hu as [Hu|Hu]; [by apply not_elem_of_empty in Hu|].
    apply elem_of_filter in Hu as [_ Hu].
    change SitemapGenerator.is_slash with ScrapyDiscovery.is_slash.
    by rewrite (Hn u Hu).
  - intros [Hx Hu]. split; [exact Hx|]. exists x. split.
    + change SitemapGenerator.is_slash with ScrapyDiscovery.is_slash.
      by rewrite (Hn x Hu).
    + apply elem_of_union. right. apply elem_of_filter. split; [|exact Hu].
      unfold should_crawl_url in Hx. apply andb_prop in Hx as [Hx _].
      apply bool_decide_eq_true in Hx. unfold get_domain. by rewrite Hx.
Qed.

Lemma discovery_then_load_urls_witness :
  let find_all_loc := fun locs : list string => locs in
  let start := "https://ex.com/docs" in
  let sm := SitemapGenerator.init (get_domain start) start in
  let page := ScrapyDiscovery.mkResponse "https://ex.com/docs/"
                [Some "https://ex.com/docs/a/"; Some "https://other.org/x"; None] in
  let s := (ScrapyDiscovery.parse (ScrapyDiscovery.spider_init start sm) page,
            [[]]) in
  SitemapGenerator.reads_plain_locations find_all_loc
  ∧ ScrapyDiscovery.reachable start sm s
  ∧ (forall u, u ∈ SitemapGenerator.urls (ScrapyDiscovery.sitemap_generator s.1) ->
               PyStr.forallb SitemapGenerator.xml_plain u = true)
  ∧ SitemapGenerator.load_urls (ScrapyDiscovery.sitemap_generator s.1)
                               (find_all_loc <$> ScrapyDiscovery.closed s.1)
    = filter (fun u => should_crawl_url u start = true) (ScrapyDiscovery.urls s.1).
Proof.
  intros find_all_loc start sm page s.
  assert (Hparser : SitemapGenerator.reads_plain_locations find_all_loc).
  { intros locs _. reflexivity. }
  assert (Hplain : forall u,
             u ∈ SitemapGenerator.urls (ScrapyDiscovery.sitemap_generator s.1) ->
             PyStr.forallb SitemapGenerator.xml_plain u = true).
  { pose proof (discovery_invariant start sm s example_discovery_reachable)
      as (_ & _ & _ & _ & Hp & _ & Hsm & _).
    assert (Hparsed : ScrapyDiscovery.parsed s.1 = ["https://ex.com/docs"])
      by (vm_compute; reflexivity).
    intros u. rewrite Hsm. intros [Hu|Hu]%elem_of_union.
    - destruct (not_elem_of_empty (C := gset string) u Hu).
    - apply elem_of_filter in Hu as [_ Hu]. apply Hp in Hu.
      rewrite Hparsed in Hu. apply list_elem_of_singleton in Hu as ->.
      reflexivity. }
  split; [exact Hparser|]. split; [exact example_discovery_reachable|].
  split; [exact Hplain|].
  exact (discovery_then_load_urls find_all_loc start s Hparser
           example_discovery_reachable Hplain).
Defined.
